(** * video_processor: the batch engine, its configuration and its logs

    A shallow embedding of [src/video_processor/ffmpeg.py] (the progress
    mapping and the encoder command), [src/video_processor/engine.py] (work
    items, the batch handle, the scan, the per-item worker body, the batch
    summary, path helpers, process termination),
    [src/video_processor/config.py] (normalization and validation of the
    configuration) and [src/video_processor/logging.py] (what the engine
    closes, the summary statistics), followed by the properties proved about
    them. *)

From stdpp Require Import gmap strings list pretty.
From Stdlib Require Import ZArith QArith Qround Qpower Lia Lqa Ascii.
From Stdlib Require SpecFloat.

(** ** Python exceptions and results *)

Inductive exn : Type :=
| OverflowError
| ValueError
| ZeroDivisionError
| OSError (msg : string)
| TimeoutExpired.

Inductive res (A : Type) : Type :=
| Ret (a : A)
| Raise (e : exn).
Arguments Ret {A} a.
Arguments Raise {A} e.

#[global] Instance res_ret : MRet res := fun A a => Ret a.
#[global] Instance res_bind : MBind res := fun A B k r =>
  match r with
  | Ret a => k a
  | Raise e => Raise e
  end.

(** ** Python floats: IEEE 754 binary64

    A float is NaN, an infinity or a finite value, kept as the rational it
    denotes.  Every arithmetic operation returns the exact result rounded to
    the nearest binary64 value, ties to even ([round]).  The sign of a zero
    is not kept: no operation of the modelled code observes it (dividing by
    a zero raises in Python). *)

Module Float64.
Local Open Scope Q_scope.

Inductive float : Type :=
| NaN
| Inf (neg : bool)
| Fin (v : Q).

Definition pow2 (k : Z) : Q := (2 # 1) ^ k.

(** [ilog2 x] is the integer part of the base-2 logarithm of a positive
    rational. *)
Definition ilog2 (x : Q) : Z :=
  let e0 := (Z.log2 (Qnum x) - Z.log2 (Zpos (Qden x)))%Z in
  if Qle_bool (pow2 e0) x then e0 else (e0 - 1)%Z.

(** Round half to even, to an integer. *)
Definition rne (x : Q) : Z :=
  let f := Qfloor x in
  match Qcompare (x - inject_Z f) (1 # 2) with
  | Lt => f
  | Gt => (f + 1)%Z
  | Eq => if Z.even f then f else (f + 1)%Z
  end.

(** Exponent of the unit in the last place: 53 significant bits, and never
    below the subnormal exponent -1074. *)
Definition ulp_exp (x : Q) : Z := Z.max (ilog2 x - 52) (-1074).

Definition round_val (x : Q) : Q :=
  let ex := ulp_exp x in inject_Z (rne (x / pow2 ex)) * pow2 ex.

(** Rounding of a positive magnitude; [None] is overflow. *)
Definition round_mag (x : Q) : option Q :=
  let v := round_val x in
  if Qle_bool (pow2 1024) v then None else Some (Qred v).

Definition round (x : Q) : float :=
  match Qcompare x 0 with
  | Eq => Fin 0
  | Gt => match round_mag x with Some v => Fin v | None => Inf false end
  | Lt => match round_mag (- x) with Some v => Fin (- v) | None => Inf true end
  end.

Definition Qneg (v : Q) : bool := match Qcompare v 0 with Lt => true | _ => false end.
Definition Qzero (v : Q) : bool := Qeq_bool v 0.

(** [a <= b] on floats; every comparison with NaN is false. *)
Definition fle (a b : float) : bool :=
  match a, b with
  | NaN, _ | _, NaN => false
  | Inf true, _ => true
  | Inf false, Inf false => true
  | Inf false, _ => false
  | Fin _, Inf neg => negb neg
  | Fin u, Fin v => Qle_bool u v
  end.

(** [a * b]. *)
Definition fmul (a b : float) : float :=
  match a, b with
  | NaN, _ | _, NaN => NaN
  | Inf s, Inf t => Inf (xorb s t)
  | Inf s, Fin v | Fin v, Inf s => if Qzero v then NaN else Inf (xorb s (Qneg v))
  | Fin u, Fin v => round (u * v)
  end.

(** [a / b]; Python raises ZeroDivisionError on a zero divisor. *)
Definition fdiv (a b : float) : res float :=
  match a, b with
  | _, Fin v =>
      if Qzero v then Raise ZeroDivisionError
      else match a with
           | NaN => Ret NaN
           | Inf s => Ret (Inf (xorb s (Qneg v)))
           | Fin u => Ret (round (u / v))
           end
  | NaN, _ | _, NaN => Ret NaN
  | Inf _, Inf _ => Ret NaN
  | Fin _, Inf _ => Ret (Fin 0)
  end.

(** Conversion of a Python int, as done when an int meets a float in an
    arithmetic operation: correctly rounded, OverflowError when out of
    range. *)
Definition of_int (z : Z) : res float :=
  match round (inject_Z z) with
  | Fin v => Ret (Fin v)
  | _ => Raise OverflowError
  end.

(** [math.floor]: an int, OverflowError on an infinity, ValueError on NaN. *)
Definition math_floor (a : float) : res Z :=
  match a with
  | Fin v => Ret (Qfloor v)
  | Inf _ => Raise OverflowError
  | NaN => Raise ValueError
  end.

(** Truth value of a float: false exactly for zero. *)
Definition truthy (a : float) : bool :=
  match a with
  | Fin v => negb (Qzero v)
  | _ => true
  end.

End Float64.

(** ** ffmpeg.py *)

Module Ffmpeg.
Import Float64.

Record MediaInfo : Type := mkMediaInfo {
  duration : option float;
  width : option Z;
  height : option Z;
  video_codec : option string;
  audio_codec : option string;
  fps : option float;
  rotation : option Z
}.

Definition empty_media : MediaInfo :=
  mkMediaInfo None None None None None None None.

(** [progress_from_out_time(out_time_us, duration)]. *)
Definition progress_from_out_time (out_time_us : Z) (duration : option float)
  : res (option Z) :=
  match duration with
  | None => Ret None
  | Some d =>
      if fle d (Fin 0) then Ret None
      else
        let total_us := fmul d (Fin 1000000) in
        if fle total_us (Fin 0) then Ret None
        else
          x ← of_int out_time_us;
          q ← fdiv x total_us;
          f ← math_floor (fmul q (Fin 100));
          Ret (Some (Z.max 0 (Z.min 100 f)))
  end.

End Ffmpeg.

(** ** Python strings

    Strings are sequences of ASCII characters; [strip], [lower] and [int]
    are the restrictions of the Python operations to ASCII. *)

Module PyStr.

(** [str.isspace] on an ASCII character. *)
Definition isspace (c : ascii) : bool :=
  let n := nat_of_ascii c in
  ((9 <=? n)%nat && (n <=? 13)%nat) || ((28 <=? n)%nat && (n <=? 32)%nat).

Fixpoint lstrip (s : string) : string :=
  match s with
  | EmptyString => EmptyString
  | String c s' => if isspace c then lstrip s' else s
  end.

Fixpoint rstrip (s : string) : string :=
  match s with
  | EmptyString => EmptyString
  | String c s' =>
      match rstrip s' with
      | EmptyString => if isspace c then EmptyString else String c EmptyString
      | r => String c r
      end
  end.

Definition strip (s : string) : string := rstrip (lstrip s).

Definition lower_char (c : ascii) : ascii :=
  let n := nat_of_ascii c in
  if ((65 <=? n)%nat && (n <=? 90)%nat) then ascii_of_nat (n + 32) else c.

Fixpoint lower (s : string) : string :=
  match s with
  | EmptyString => EmptyString
  | String c s' => String (lower_char c) (lower s')
  end.

(** [sub in s]. *)
Fixpoint contains (sub s : string) : bool :=
  String.prefix sub s ||
  match s with
  | EmptyString => false
  | String _ s' => contains sub s'
  end.

(** [sep.join(l)]. *)
Fixpoint join (sep : string) (l : list string) : string :=
  match l with
  | [] => EmptyString
  | [x] => x
  | x :: l' => x +:+ sep +:+ join sep l'
  end.

(** [s.split("=", 1)] when ["=" in s]: the text before the first ["="] and
    the text after it; [None] when [s] has no ["="]. *)
Fixpoint split_eq (s : string) : option (string * string) :=
  match s with
  | EmptyString => None
  | String c s' =>
      if Ascii.eqb c "=" then Some (EmptyString, s')
      else match split_eq s' with
           | Some (k, v) => Some (String c k, v)
           | None => None
           end
  end.

Definition digit (c : ascii) : option Z :=
  let n := nat_of_ascii c in
  if ((48 <=? n)%nat && (n <=? 57)%nat) then Some (Z.of_nat (n - 48)) else None.

(** Digits with single underscores between them. [prev] tells whether the
    previous character was a digit. *)
Fixpoint int_digits (acc : Z) (prev : bool) (s : string) : option Z :=
  match s with
  | EmptyString => if prev then Some acc else None
  | String c s' =>
      match digit c with
      | Some d => int_digits (10 * acc + d) true s'
      | None =>
          if Ascii.eqb c "_" && prev then int_digits acc false s' else None
      end
  end.

(** [int(s)] in base ten; [None] stands for ValueError. *)
Definition int (s : string) : option Z :=
  match strip s with
  | String "-" s' => Z.opp <$> int_digits 0 false s'
  | String "+" s' => int_digits 0 false s'
  | s' => int_digits 0 false s'
  end.

End PyStr.

(** ** engine.py *)

Module Engine.
Import Float64 Ffmpeg.

(** The six status strings [STATUS_QUEUED] ... [STATUS_CANCELED]. *)
Inductive Status : Type :=
| STATUS_QUEUED
| STATUS_RUNNING
| STATUS_COMPLETED
| STATUS_FAILED
| STATUS_SKIPPED
| STATUS_CANCELED.

#[global] Instance Status_eq_dec : EqDecision Status.
Proof. solve_decision. Defined.

Definition status_eqb (a b : Status) : bool := bool_decide (a = b).

Record WorkItem : Type := mkWorkItem {
  id : Z;
  input_path : string;
  output_path : string;
  status : Status;
  progress : option Z;
  message : string;
  error : string;
  start_time : option Z;
  end_time : option Z;
  input_bytes : option Z;
  output_bytes : option Z;
  media : option MediaInfo;
  output_media : option MediaInfo;
  thumbnail_path : option string
}.

(** Field assignments [item.f = v]. *)
Definition set_status (v : Status) (it : WorkItem) : WorkItem :=
  mkWorkItem (id it) (input_path it) (output_path it) v (progress it)
    (message it) (error it) (start_time it) (end_time it) (input_bytes it)
    (output_bytes it) (media it) (output_media it) (thumbnail_path it).
Definition set_progress (v : option Z) (it : WorkItem) : WorkItem :=
  mkWorkItem (id it) (input_path it) (output_path it) (status it) v
    (message it) (error it) (start_time it) (end_time it) (input_bytes it)
    (output_bytes it) (media it) (output_media it) (thumbnail_path it).
Definition set_message (v : string) (it : WorkItem) : WorkItem :=
  mkWorkItem (id it) (input_path it) (output_path it) (status it) (progress it)
    v (error it) (start_time it) (end_time it) (input_bytes it)
    (output_bytes it) (media it) (output_media it) (thumbnail_path it).
Definition set_error (v : string) (it : WorkItem) : WorkItem :=
  mkWorkItem (id it) (input_path it) (output_path it) (status it) (progress it)
    (message it) v (start_time it) (end_time it) (input_bytes it)
    (output_bytes it) (media it) (output_media it) (thumbnail_path it).
Definition set_start_time (v : option Z) (it : WorkItem) : WorkItem :=
  mkWorkItem (id it) (input_path it) (output_path it) (status it) (progress it)
    (message it) (error it) v (end_time it) (input_bytes it)
    (output_bytes it) (media it) (output_media it) (thumbnail_path it).
Definition set_end_time (v : option Z) (it : WorkItem) : WorkItem :=
  mkWorkItem (id it) (input_path it) (output_path it) (status it) (progress it)
    (message it) (error it) (start_time it) v (input_bytes it)
    (output_bytes it) (media it) (output_media it) (thumbnail_path it).
Definition set_input_bytes (v : option Z) (it : WorkItem) : WorkItem :=
  mkWorkItem (id it) (input_path it) (output_path it) (status it) (progress it)
    (message it) (error it) (start_time it) (end_time it) v
    (output_bytes it) (media it) (output_media it) (thumbnail_path it).
Definition set_output_bytes (v : option Z) (it : WorkItem) : WorkItem :=
  mkWorkItem (id it) (input_path it) (output_path it) (status it) (progress it)
    (message it) (error it) (start_time it) (end_time it) (input_bytes it)
    v (media it) (output_media it) (thumbnail_path it).
Definition set_media (v : option MediaInfo) (it : WorkItem) : WorkItem :=
  mkWorkItem (id it) (input_path it) (output_path it) (status it) (progress it)
    (message it) (error it) (start_time it) (end_time it) (input_bytes it)
    (output_bytes it) v (output_media it) (thumbnail_path it).
Definition set_output_media (v : option MediaInfo) (it : WorkItem) : WorkItem :=
  mkWorkItem (id it) (input_path it) (output_path it) (status it) (progress it)
    (message it) (error it) (start_time it) (end_time it) (input_bytes it)
    (output_bytes it) (media it) v (thumbnail_path it).

(** [WorkItem(id=..., input_path=..., output_path=..., status=...,
    message=..., input_bytes=...)] with the dataclass defaults. *)
Definition new_item (i : Z) (inp out : string) (st : Status) (msg : string)
    (size : option Z) : WorkItem :=
  mkWorkItem i inp out st (Some 0%Z) msg "" None None size None None None None.

(** Calls that leave the engine, in the order they are made.  An item is
    passed by reference; the event keeps the item as it was at the call. *)
Inductive event : Type :=
| EvItemUpdate (it : WorkItem)
| EvLogItem (it : WorkItem)
| EvLogClose
| EvMkdir (dir : string)
| EvProbe (path : string)
| EvPopen (input temp_output : string)
| EvProcWait
| EvClosePipes
| EvUnlink (path : string)
| EvReplace (src dst : string).

(** *** External processes

    A [subprocess.Popen] object.  The first three fields say how the
    process answers: whether [terminate()] and [kill()] raise OSError, and
    how many time units after a terminate request it has exited ([None]: it
    does not exit on that request).  [signals] logs the calls of
    [terminate()] and [kill()] made on the object, whether they raise or
    not. *)

Inductive signal : Type := SIGTERM | SIGKILL.

Record process : Type := mkProcess {
  terminate_fails : bool;
  exit_delay : option nat;
  kill_fails : bool;
  signals : list signal
}.

Definition send (sg : signal) (p : process) : process :=
  mkProcess (terminate_fails p) (exit_delay p) (kill_fails p) (signals p ++ [sg]).

(** [proc.terminate()]. *)
Definition proc_terminate (p : process) : res unit * process :=
  if terminate_fails p then (Raise (OSError "terminate"), send SIGTERM p)
  else (Ret tt, send SIGTERM p).

(** [proc.wait(timeout=t)] after a terminate request. *)
Definition proc_wait (timeout : nat) (p : process) : res unit * process :=
  match exit_delay p with
  | Some d => if (d <=? timeout)%nat then (Ret tt, p) else (Raise TimeoutExpired, p)
  | None => (Raise TimeoutExpired, p)
  end.

(** [proc.kill()]. *)
Definition proc_kill (p : process) : res unit * process :=
  if kill_fails p then (Raise (OSError "kill"), send SIGKILL p)
  else (Ret tt, send SIGKILL p).

(** [_terminate_process(proc)]: each [try]/[except] catches the one
    exception class it names and lets any other through. *)
Definition _terminate_process (p : process) : res unit * process :=
  match proc_terminate p with
  | (Raise (OSError _), p1) => (Ret tt, p1)
  | (Raise e, p1) => (Raise e, p1)
  | (Ret _, p1) =>
      match proc_wait 3 p1 with
      | (Raise TimeoutExpired, p2) =>
          match proc_kill p2 with
          | (Raise (OSError _), p3) => (Ret tt, p3)
          | r => r
          end
      | r => r
      end
  end.

(** [running_processes]: a dict from job id to process, in insertion
    order. *)
Definition registry : Type := list (Z * process).

Fixpoint reg_set (k : Z) (p : process) (r : registry) : registry :=
  match r with
  | [] => [(k, p)]
  | (k', p') :: r' => if Z.eqb k k' then (k, p) :: r' else (k', p') :: reg_set k p r'
  end.

Definition reg_pop (k : Z) (r : registry) : registry :=
  filter (fun kp => negb (Z.eqb k (fst kp))) r.

Definition reg_get (k : Z) (r : registry) : option process :=
  snd <$> find (fun kp => Z.eqb k (fst kp)) r.

(** [for proc in running_processes.values(): _terminate_process(proc)]. *)
Fixpoint terminate_all (r : registry) : res unit * registry :=
  match r with
  | [] => (Ret tt, [])
  | (k, p) :: r' =>
      match _terminate_process p with
      | (Ret _, p1) =>
          let '(x, r1) := terminate_all r' in (x, (k, p1) :: r1)
      | (Raise e, p1) => (Raise e, (k, p1) :: r')
      end
  end.

(** *** logging.py: what the engine closes *)

Inductive file_state : Type := FileOpen | FileClosed.

Record BatchLogger : Type := mkLogger {
  enable_csv : bool;
  enable_json : bool;
  _csv_file : option file_state;
  _json_file : option file_state
}.

Definition close_file (f : option file_state) : option file_state :=
  match f with
  | Some _ => Some FileClosed
  | None => None
  end.

(** [BatchLogger.close()]. *)
Definition logger_close (l : BatchLogger) : BatchLogger :=
  mkLogger (enable_csv l) (enable_json l) (close_file (_csv_file l))
    (close_file (_json_file l)).

(** *** BatchHandle *)

(** A worker thread, seen from [join()]: the time at which its loop ends,
    [None] when it never does. *)
Record thread : Type := mkThread { finishes_at : option nat }.

(** [items] is the list the handle shares with its caller; an item is
    referred to by its position in it, which is how [_queue] holds the
    items put into it.  [has_callback] tells whether [on_item_update] was
    given, [trace] and [clock] are the calls made so far and the current
    time. *)
Record BatchHandle : Type := mkHandle {
  items : list WorkItem;
  _queue : list nat;
  _pause_event : bool;
  _cancel_event : bool;
  _running_processes : registry;
  _threads : list thread;
  _logger : BatchLogger;
  has_callback : bool;
  _closed : bool;
  trace : list event;
  clock : nat
}.

Definition with_items (v : list WorkItem) (h : BatchHandle) : BatchHandle :=
  mkHandle v (_queue h) (_pause_event h) (_cancel_event h) (_running_processes h)
    (_threads h) (_logger h) (has_callback h) (_closed h) (trace h) (clock h).
Definition with_queue (v : list nat) (h : BatchHandle) : BatchHandle :=
  mkHandle (items h) v (_pause_event h) (_cancel_event h) (_running_processes h)
    (_threads h) (_logger h) (has_callback h) (_closed h) (trace h) (clock h).
Definition with_pause_event (v : bool) (h : BatchHandle) : BatchHandle :=
  mkHandle (items h) (_queue h) v (_cancel_event h) (_running_processes h)
    (_threads h) (_logger h) (has_callback h) (_closed h) (trace h) (clock h).
Definition with_cancel_event (v : bool) (h : BatchHandle) : BatchHandle :=
  mkHandle (items h) (_queue h) (_pause_event h) v (_running_processes h)
    (_threads h) (_logger h) (has_callback h) (_closed h) (trace h) (clock h).
Definition with_running_processes (v : registry) (h : BatchHandle) : BatchHandle :=
  mkHandle (items h) (_queue h) (_pause_event h) (_cancel_event h) v
    (_threads h) (_logger h) (has_callback h) (_closed h) (trace h) (clock h).
Definition with_logger (v : BatchLogger) (h : BatchHandle) : BatchHandle :=
  mkHandle (items h) (_queue h) (_pause_event h) (_cancel_event h)
    (_running_processes h) (_threads h) v (has_callback h) (_closed h) (trace h)
    (clock h).
Definition with_closed (v : bool) (h : BatchHandle) : BatchHandle :=
  mkHandle (items h) (_queue h) (_pause_event h) (_cancel_event h)
    (_running_processes h) (_threads h) (_logger h) (has_callback h) v (trace h)
    (clock h).
Definition with_trace (v : list event) (h : BatchHandle) : BatchHandle :=
  mkHandle (items h) (_queue h) (_pause_event h) (_cancel_event h)
    (_running_processes h) (_threads h) (_logger h) (has_callback h) (_closed h) v
    (clock h).
Definition with_clock (v : nat) (h : BatchHandle) : BatchHandle :=
  mkHandle (items h) (_queue h) (_pause_event h) (_cancel_event h)
    (_running_processes h) (_threads h) (_logger h) (has_callback h) (_closed h)
    (trace h) v.

Definition pause (h : BatchHandle) : BatchHandle := with_pause_event false h.
Definition resume (h : BatchHandle) : BatchHandle := with_pause_event true h.

(** First loop of [_mark_queued_canceled]: the items after the sweep. *)
Definition sweep_item (it : WorkItem) : WorkItem :=
  if status_eqb (status it) STATUS_QUEUED
  then set_message "canceled" (set_status STATUS_CANCELED it)
  else it.

(** Positions, counted from [n], of the items of [l] with status [st]. *)
Fixpoint positions_of (st : Status) (n : nat) (l : list WorkItem) : list nat :=
  match l with
  | [] => []
  | it :: l' =>
      if status_eqb (status it) st
      then n :: positions_of st (S n) l'
      else positions_of st (S n) l'
  end.

(** The list [updated]: the items the first loop changed. *)
Definition queued_positions (l : list WorkItem) : list nat :=
  positions_of STATUS_QUEUED 0 l.

(** Second loop: the callback sees each updated item as it is after the
    first loop. *)
Definition report (cb : bool) (l : list WorkItem) (updated : list nat) : list event :=
  if cb then omap (fun i => EvItemUpdate <$> l !! i) updated else [].

Definition _mark_queued_canceled (h : BatchHandle) : BatchHandle :=
  let updated := queued_positions (items h) in
  let items' := sweep_item <$> items h in
  with_trace (trace h ++ report (has_callback h) items' updated)
    (with_items items' h).

(** [cancel()].  An exception of the termination loop leaves the method
    before the sweep. *)
Definition cancel (h : BatchHandle) : res unit * BatchHandle :=
  let h1 := with_cancel_event true h in
  match terminate_all (_running_processes h1) with
  | (Ret _, r) => (Ret tt, _mark_queued_canceled (with_running_processes r h1))
  | (Raise e, r) => (Raise e, with_running_processes r h1)
  end.

(** One iteration of the loop of [retry_failed]. *)
Definition retry_item (it : WorkItem) : WorkItem :=
  if status_eqb (status it) STATUS_FAILED
  then set_error "" (set_progress (Some 0%Z) (set_status STATUS_QUEUED it))
  else it.

Definition failed_positions (l : list WorkItem) : list nat :=
  positions_of STATUS_FAILED 0 l.

(** [retry_failed()]: every put appends to the FIFO queue. *)
Definition retry_failed (h : BatchHandle) : BatchHandle :=
  with_queue (_queue h ++ failed_positions (items h))
    (with_items (retry_item <$> items h) h).

Definition thread_alive (now : nat) (t : thread) : bool :=
  match finishes_at t with
  | Some f => (now <? f)%nat
  | None => true
  end.

(** [is_running()]. *)
Definition is_running (h : BatchHandle) : bool :=
  existsb (thread_alive (clock h)) (_threads h).

(** [for t in self._threads: t.join()]: the time at which the last join
    returns, [None] when one of them never returns. *)
Fixpoint join_all (now : nat) (ts : list thread) : option nat :=
  match ts with
  | [] => Some now
  | t :: ts' =>
      match finishes_at t with
      | Some f => join_all (Nat.max now f) ts'
      | None => None
      end
  end.

(** [wait()]; [None] when the call never returns. *)
Definition wait (h : BatchHandle) : option BatchHandle :=
  match join_all (clock h) (_threads h) with
  | None => None
  | Some now =>
      let h1 := with_clock now h in
      if _closed h1 then Some h1
      else Some (with_closed true
                   (with_trace (trace h1 ++ [EvLogClose])
                      (with_logger (logger_close (_logger h1)) h1)))
  end.

(** *** Paths

    A [pathlib.Path] with a file name: the directory part as text and the
    final component.  [exists] asks the file system, which is the finite set
    of the path strings that exist. *)

Record Path : Type := mkPath { dir : string; name : string }.

Definition path_str (p : Path) : string :=
  if decide (dir p = "") then name p else dir p +:+ "/" +:+ name p.

(** Position of the last ["."] of a name. *)
Fixpoint rfind_dot (s : string) : option nat :=
  match s with
  | EmptyString => None
  | String c s' =>
      match rfind_dot s' with
      | Some i => Some (S i)
      | None => if Ascii.eqb c "." then Some 0%nat else None
      end
  end.

(** [path.suffix] and [path.stem]: the name is cut at its last dot when
    that dot is neither its first nor its last character. *)
Definition suffix (p : Path) : string :=
  match rfind_dot (name p) with
  | Some i =>
      if ((0 <? i)%nat && (i <? String.length (name p) - 1)%nat)
      then String.substring i (String.length (name p) - i) (name p)
      else ""
  | None => ""
  end.

Definition stem (p : Path) : string :=
  match rfind_dot (name p) with
  | Some i =>
      if ((0 <? i)%nat && (i <? String.length (name p) - 1)%nat)
      then String.substring 0 i (name p)
      else name p
  | None => name p
  end.

Definition with_name (p : Path) (n : string) : Path := mkPath (dir p) n.

(** [Path(s)]: cut at the last ["/"]. *)
Fixpoint split_last_slash (s : string) : option (string * string) :=
  match s with
  | EmptyString => None
  | String c s' =>
      match split_last_slash s' with
      | Some (d, n) => Some (String c d, n)
      | None => if Ascii.eqb c "/" then Some ("", s') else None
      end
  end.

Definition Path_of (s : string) : Path :=
  match split_last_slash s with
  | Some (d, n) => mkPath d n
  | None => mkPath "" s
  end.

(** [a / b] for a directory [a] and a relative directory [b]. *)
Definition join_dir (a b : string) : string :=
  if decide (a = "") then b
  else if decide (b = "") then a
  else a +:+ "/" +:+ b.

Definition exists_ (fs : gset string) (p : Path) : bool :=
  bool_decide (path_str p ∈ fs).

(** The candidate [path.with_name(f"{path.stem}_{counter}{path.suffix}")]. *)
Definition suffix_candidate (p : Path) (counter : nat) : Path :=
  with_name p (stem p +:+ "_" +:+ pretty counter +:+ suffix p).

(** The loop of [_suffix_path], from [counter], for at most [fuel]
    iterations. *)
Fixpoint suffix_loop (fuel : nat) (fs : gset string) (p : Path) (counter : nat)
  : option Path :=
  match fuel with
  | O => None
  | S fuel' =>
      let candidate := suffix_candidate p counter in
      if exists_ fs candidate then suffix_loop fuel' fs p (S counter)
      else Some candidate
  end.

(** [_suffix_path(path)]: one iteration more than there are existing
    paths is enough for the loop to end. *)
Definition _suffix_path (fs : gset string) (p : Path) : option Path :=
  suffix_loop (S (size fs)) fs p 1.

(** The candidates of the loop of [_temp_output_path]. *)
Definition temp_candidate (p : Path) (counter : nat) : Path :=
  if decide (suffix p = "")
  then with_name p (name p +:+ ".partial" +:+ pretty counter)
  else with_name p (stem p +:+ ".partial" +:+ pretty counter +:+ suffix p).

Fixpoint temp_loop (fuel : nat) (fs : gset string) (p : Path) (counter : nat)
  : option Path :=
  match fuel with
  | O => None
  | S fuel' =>
      let candidate := temp_candidate p counter in
      if exists_ fs candidate then temp_loop fuel' fs p (S counter)
      else Some candidate
  end.

(** [_temp_output_path(path)].  [with_suffix] raises ValueError on a path
    with an empty name. *)
Definition _temp_output_path (fs : gset string) (p : Path) : res (option Path) :=
  if decide (suffix p = "") then
    if decide (name p = "") then Raise ValueError
    else
      let temp := with_name p (name p +:+ ".partial") in
      if exists_ fs temp then Ret (temp_loop (S (size fs)) fs p 1) else Ret (Some temp)
  else
    let temp := with_name p (stem p +:+ ".partial" +:+ suffix p) in
    if exists_ fs temp then Ret (temp_loop (S (size fs)) fs p 1) else Ret (Some temp).

(** *** Configuration: the fields of [AppConfig] the engine reads here *)

Record AppConfig : Type := mkConfig {
  input_dir : string;
  output_dir : string;
  extensions : list string;
  parallel : bool;
  workers : Z;
  dry_run : bool;
  collision_policy : string
}.

(** *** scan_inputs *)

(** A file met by [os.walk(input_root)]: its directory relative to the
    input root and its name. *)
Record walked : Type := mkWalked { rel_dir : string; file_name : string }.

(** The body of the loop of [scan_inputs] for one file.  The outer [None]
    is a call of [_suffix_path] that does not return; [Some None] is
    [continue].  [stat] gives the size of a path, [None] when [stat()]
    raises OSError. *)
Definition scan_file (config : AppConfig) (fs : gset string)
    (stat : string -> option Z) (item_id : Z) (w : walked)
  : option (option WorkItem) :=
  let path := mkPath (join_dir (input_dir config) (rel_dir w)) (file_name w) in
  let exts := PyStr.lower <$> extensions config in
  if bool_decide (PyStr.lower (suffix path) ∈ exts) then
    let out_path :=
      if decide (output_dir config = "") then None
      else Some (mkPath (join_dir (output_dir config) (rel_dir w)) (file_name w)) in
    '(st, msg, final_out) ←
      match out_path with
      | Some out =>
          if exists_ fs out then
            if decide (collision_policy config = "skip")
            then Some (STATUS_SKIPPED, "output exists", Some out)
            else if decide (collision_policy config = "suffix")
                 then p ← _suffix_path fs out; Some (STATUS_QUEUED, "", Some p)
                 else Some (STATUS_QUEUED, "", Some out)
          else Some (STATUS_QUEUED, "", Some out)
      | None => Some (STATUS_QUEUED, "output not set", None)
      end;
    Some (Some (new_item item_id (path_str path)
                  (match final_out with Some p => path_str p | None => "" end)
                  st msg (stat (path_str path))))
  else Some None.

Fixpoint scan_loop (config : AppConfig) (fs : gset string)
    (stat : string -> option Z) (item_id : Z) (files : list walked)
  : option (list WorkItem) :=
  match files with
  | [] => Some []
  | w :: files' =>
      r ← scan_file config fs stat item_id w;
      match r with
      | Some it =>
          rest ← scan_loop config fs stat (item_id + 1) files';
          Some (it :: rest)
      | None => scan_loop config fs stat item_id files'
      end
  end.

(** [scan_inputs()], on the files in the order of the walk. *)
Definition scan_inputs (config : AppConfig) (fs : gset string)
    (stat : string -> option Z) (files : list walked) : option (list WorkItem) :=
  scan_loop config fs stat 1 files.

(** *** _process_item

    What one run of [_process_item] meets outside the engine. *)

(** The run of ffprobe behind [probe_media(input_path)]: whether the
    executable is found, its exit status and diagnostic text, and what
    reading its output gives, the text of the exception raised or the
    [MediaInfo]. *)
Record ffprobe_run : Type := mkProbe {
  ffprobe_found : bool;
  probe_returncode : Z;
  probe_stderr : string;
  probe_parsed : string + MediaInfo
}.

Record run_env : Type := mkEnv {
  (** number of [cancel_event.is_set()] calls of this run that still
      return False; [None] when the event is never set *)
  cancel_after : option nat;
  t_start : Z;
  t_end : Z;
  mkdir_error : option string;
  fs : gset string;
  input_size : option Z;
  probe : ffprobe_run;
  popen_error : option string;
  proc : process;
  stdout_lines : list string;
  stderr_lines : list string;
  returncode : Z;
  temp_exists : bool;
  output_exists : bool;
  finalize_error : option string;
  output_size : option Z;
  output_probe : option MediaInfo
}.

(** [probe_media(path)]: [inl] is [str(exc)] of the exception raised. *)
Definition probe_media (r : ffprobe_run) : string + MediaInfo :=
  if ffprobe_found r then
    if bool_decide (probe_returncode r ≠ 0%Z) then
      inl (if decide (PyStr.strip (probe_stderr r) = "") then "ffprobe failed"
           else PyStr.strip (probe_stderr r))
    else probe_parsed r
  else inl "ffprobe not found in PATH".

(** The state a run works on: the item, the registry, the local [proc]
    (the same object as its registry entry), the calls made and the number
    of cancellation checks done. *)
Record world : Type := mkWorld {
  w_item : WorkItem;
  w_reg : registry;
  w_proc : option process;
  w_trace : list event;
  w_checks : nat
}.

(** A computation on the world: [None] does not return, [Raise] leaves
    with an exception, and the world is what it is then. *)
Definition M (A : Type) : Type := world -> option (res A * world).

#[global] Instance M_ret : MRet M := fun A a w => Some (Ret a, w).
#[global] Instance M_bind : MBind M := fun A B k m w =>
  match m w with
  | Some (Ret a, w') => k a w'
  | Some (Raise e, w') => Some (Raise e, w')
  | None => None
  end.

Definition raise {A} (e : exn) : M A := fun w => Some (Raise e, w).
Definition lift_res {A} (r : res A) : M A := fun w => Some (r, w).
Definition lift_loop {A} (r : option A) : M A := fun w =>
  match r with
  | Some a => Some (Ret a, w)
  | None => None
  end.

(** [try: body finally: cleanup]. *)
Definition finally {A} (body : M A) (cleanup : M unit) : M A := fun w =>
  match body w with
  | Some (r, w') =>
      match cleanup w' with
      | Some (Ret _, w'') => Some (r, w'')
      | Some (Raise e, w'') => Some (Raise e, w'')
      | None => None
      end
  | None => None
  end.

Definition get_item : M WorkItem := fun w => Some (Ret (w_item w), w).
Definition modify_item (f : WorkItem -> WorkItem) : M unit := fun w =>
  Some (Ret tt, mkWorld (f (w_item w)) (w_reg w) (w_proc w) (w_trace w) (w_checks w)).
Definition tell (ev : event) : M unit := fun w =>
  Some (Ret tt, mkWorld (w_item w) (w_reg w) (w_proc w) (w_trace w ++ [ev]) (w_checks w)).

(** [cancel_event.is_set()]. *)
Definition cancel_is_set (env : run_env) : M bool := fun w =>
  let seen :=
    match cancel_after env with
    | Some k => (k <=? w_checks w)%nat
    | None => false
    end in
  Some (Ret seen, mkWorld (w_item w) (w_reg w) (w_proc w) (w_trace w) (S (w_checks w))).

(** [self._emit_item(item)]: the call of the callback, when there is one.
    The callback is taken to return: a run in which it raises is not
    described. *)
Definition _emit_item (cb : bool) : M unit :=
  if cb then it ← get_item; tell (EvItemUpdate it) else mret tt.

(** [self._log_item(item, logger)]: the call of [logger.record_item].  It
    is taken to return: a run in which writing the log raises is not
    described. *)
Definition _log_item : M unit := it ← get_item; tell (EvLogItem it).

(** [proc = subprocess.Popen(...)] and
    [running_processes[item.id] = proc]. *)
Definition popen (env : run_env) (input temp : string) : M unit := fun w =>
  match popen_error env with
  | Some msg => Some (Raise (OSError msg), w)
  | None =>
      Some (Ret tt, mkWorld (w_item w) (reg_set (id (w_item w)) (proc env) (w_reg w))
                      (Some (proc env)) (w_trace w ++ [EvPopen input temp])
                      (w_checks w))
  end.

(** [_terminate_process(proc)] on the local process, which the registry
    entry of the item aliases. *)
Definition terminate_current : M unit := fun w =>
  match w_proc w with
  | Some p =>
      let '(r, p') := _terminate_process p in
      Some (r, mkWorld (w_item w) (reg_set (id (w_item w)) p' (w_reg w)) (Some p')
                 (w_trace w) (w_checks w))
  | None => Some (Ret tt, w)
  end.

(** [running_processes.pop(item.id, None)]. *)
Definition pop_current : M unit := fun w =>
  Some (Ret tt, mkWorld (w_item w) (reg_pop (id (w_item w)) (w_reg w)) (w_proc w)
                  (w_trace w) (w_checks w)).

(** [_cleanup_partial(path)]. *)
Definition _cleanup_partial (env : run_env) (temp : string) : M unit :=
  if temp_exists env then tell (EvUnlink temp) else mret tt.

Definition item_duration (it : WorkItem) : option float :=
  m ← media it; duration m.

(** The body of [for line in proc.stdout] after the cancellation check. *)
Definition on_line (cb : bool) (line : string) : M unit :=
  let line := PyStr.strip line in
  match PyStr.split_eq line with
  | None => mret tt
  | Some (key, value) =>
      if decide (key = "out_time_ms") then
        match PyStr.int value with
        | None => mret tt
        | Some out_us =>
            it ← get_item;
            p ← lift_res (progress_from_out_time out_us (item_duration it));
            match p with
            | Some v =>
                if decide (Some v = progress it) then mret tt
                else modify_item (set_progress (Some v));; _emit_item cb
            | None => mret tt
            end
        end
      else if decide (key = "progress" ∧ value = "end") then
        modify_item (set_progress (Some 100%Z));; _emit_item cb
      else mret tt
  end.

(** [for line in proc.stdout: ...]. *)
Fixpoint read_stdout (env : run_env) (cb : bool) (lines : list string) : M unit :=
  match lines with
  | [] => mret tt
  | line :: rest =>
      c ← cancel_is_set env;
      if c : bool then terminate_current
      else on_line cb line;; read_stdout env cb rest
  end.

(** The publish step, inside its [try]: [None] when it went through, the
    text of the OSError otherwise. *)
Definition publish (config : AppConfig) (env : run_env) (temp out : Path)
  : M (option string) :=
  match finalize_error env with
  | Some msg => mret (Some msg)
  | None =>
      (if output_exists env && bool_decide (collision_policy config = "overwrite")
       then tell (EvUnlink (path_str out)) else mret tt);;
      tell (EvMkdir (dir out));;
      tell (EvReplace (path_str temp) (path_str out));;
      mret None
  end.

(** What follows the [try]/[finally] around the progress loop: the
    cancellation test, the exit status and the publish step. *)
Definition finish (config : AppConfig) (cb : bool) (env : run_env)
    (output_path temp_output : Path) : M unit :=
  c ← cancel_is_set env;
  if c : bool then
    modify_item (set_status STATUS_CANCELED);;
    modify_item (set_end_time (Some (t_end env)));;
    _cleanup_partial env (path_str temp_output);;
    _emit_item cb;;
    _log_item
  else
    (if bool_decide (returncode env ≠ 0%Z) then
       modify_item (set_status STATUS_FAILED);;
       let text := PyStr.strip (PyStr.join "; " (PyStr.rstrip <$> stderr_lines env)) in
       modify_item (set_error (if decide (text = "") then "ffmpeg failed" else text))
     else
       modify_item (set_status STATUS_COMPLETED);;
       modify_item (set_progress (Some 100%Z)));;
    modify_item (set_end_time (Some (t_end env)));;
    it ← get_item;
    (if status_eqb (status it) STATUS_COMPLETED then
       r ← publish config env temp_output output_path;
       match r with
       | Some msg =>
           modify_item (set_status STATUS_FAILED);;
           modify_item (set_error ("Failed to finalize output: " +:+ msg));;
           _cleanup_partial env (path_str temp_output)
       | None => mret tt
       end
     else _cleanup_partial env (path_str temp_output));;
    it ← get_item;
    (if status_eqb (status it) STATUS_COMPLETED
     then modify_item (set_output_bytes (output_size env)) else mret tt);;
    it ← get_item;
    (if status_eqb (status it) STATUS_COMPLETED
     then tell (EvProbe (path_str output_path));;
          modify_item (set_output_media (output_probe env))
     else mret tt);;
    _emit_item cb;;
    _log_item.

(** What follows the dry-run test.  [proc.wait()], which has no timeout,
    is the call [EvProcWait]; it is taken to return: a run whose encoder
    never exits is not described. *)
Definition encode (config : AppConfig) (cb : bool) (env : run_env)
    (input_path : string) (output_path temp_output : Path) : M unit :=
  tell (EvProbe input_path);;
  match probe_media (probe env) with
  | inl error_msg =>
      (if PyStr.contains "moov atom not found" (PyStr.lower error_msg)
          || PyStr.contains "invalid data found when processing input"
               (PyStr.lower error_msg)
       then modify_item (set_status STATUS_FAILED);;
            modify_item (set_error ("File is corrupted or incomplete: " +:+ error_msg))
       else modify_item (set_status STATUS_FAILED);;
            modify_item (set_error error_msg));;
      modify_item (set_end_time (Some (t_end env)));;
      _emit_item cb;;
      _log_item
  | inr info =>
      modify_item (set_media (Some info));;
      (if match duration info with Some d => truthy d | None => false end
       then mret tt else modify_item (set_progress None));;
      popen env input_path (path_str temp_output);;
      finally
        (read_stdout env cb (stdout_lines env);; tell EvProcWait)
        (tell EvClosePipes;; pop_current);;
      finish config cb env output_path temp_output
  end.

(** [_process_item(item, ...)]; [cb] tells whether the engine has an
    [on_item_update] callback. *)
Definition _process_item (config : AppConfig) (cb : bool) (env : run_env) : M unit :=
  c ← cancel_is_set env;
  if c : bool then
    modify_item (set_status STATUS_CANCELED);;
    _emit_item cb
  else
    modify_item (set_status STATUS_RUNNING);;
    modify_item (set_start_time (Some (t_start env)));;
    modify_item (set_progress (Some 0%Z));;
    _emit_item cb;;
    it ← get_item;
    let output := Path_of (output_path it) in
    match mkdir_error env with
    | Some msg => raise (OSError msg)
    | None => tell (EvMkdir (dir output))
    end;;
    t ← lift_res (_temp_output_path (fs env) output);
    temp_output ← lift_loop t;
    modify_item (set_input_bytes (input_size env));;
    if dry_run config then
      modify_item (set_status STATUS_SKIPPED);;
      modify_item (set_message "dry-run");;
      modify_item (set_end_time (Some (t_end env)));;
      _emit_item cb;;
      _log_item
    else encode config cb env (input_path it) output temp_output.

End Engine.

(** * Vocabulary of the properties *)

Module Spec.
Import Float64 Ffmpeg Engine.

(** ** Strings *)

(** A text whose first, respectively last, character is not white space. *)
Definition starts_nonspace (s : string) : bool :=
  match s with
  | EmptyString => false
  | String c _ => negb (PyStr.isspace c)
  end.

Fixpoint ends_nonspace (s : string) : bool :=
  match s with
  | EmptyString => false
  | String c EmptyString => negb (PyStr.isspace c)
  | String _ s' => ends_nonspace s'
  end.

(** ** Processes and paths *)

(** The process has exited [n] time units after the terminate request. *)
Definition exited_within (n : nat) (p : process) : bool :=
  match exit_delay p with
  | Some d => (d <=? n)%nat
  | None => false
  end.

(** What [_terminate_process] leaves behind. *)
Definition terminated (p : process) : process :=
  if terminate_fails p || exited_within 3 p then send SIGTERM p
  else send SIGKILL (send SIGTERM p).

(** The destination [output_root / rel] of a walked file. *)
Definition destination (config : AppConfig) (w : walked) : Path :=
  mkPath (join_dir (output_dir config) (rel_dir w)) (file_name w).

(** ** The progress stream *)

(** What a line of the progress stream says: an elapsed time, the end
    marker, or nothing the loop reads. *)
Definition line_event (line : string) : option (Z + unit) :=
  match PyStr.split_eq (PyStr.strip line) with
  | None => None
  | Some (key, value) =>
      if decide (key = "out_time_ms") then inl <$> PyStr.int value
      else if decide (key = "progress" ∧ value = "end") then Some (inr tt)
           else None
  end.

(** The world after [item.progress = v], after [_emit_item(item)] and
    after a call of [cancel_event.is_set()]. *)
Definition w_progress (v : option Z) (w : world) : world :=
  mkWorld (set_progress v (w_item w)) (w_reg w) (w_proc w) (w_trace w) (w_checks w).

Definition w_emit (cb : bool) (w : world) : world :=
  mkWorld (w_item w) (w_reg w) (w_proc w)
    (w_trace w ++ (if cb then [EvItemUpdate (w_item w)] else [])) (w_checks w).

(** A progress stream in order: elapsed times that do not decrease, and
    no elapsed time after an end marker.  [ended] tells whether an end
    marker was met, [prev] is the last elapsed time. *)
Fixpoint stream_ok (ended : bool) (prev : option Z) (evs : list (Z + unit)) : Prop :=
  match evs with
  | [] => True
  | inl z :: evs' =>
      ended = false /\
      match prev with Some z0 => (z0 <= z)%Z | None => True end /\
      stream_ok false (Some z) evs'
  | inr _ :: evs' => stream_ok true prev evs'
  end.

(** The lines of a progress stream in order. *)
Definition ordered_stream (lines : list string) : Prop :=
  stream_ok false None (omap line_event lines).

(** Values from 0 to 100 that do not decrease, starting at or above [c]. *)
Fixpoint chain (c : option Z) (vals : list Z) : Prop :=
  match vals with
  | [] => True
  | v :: vs =>
      (0 <= v <= 100)%Z /\
      match c with Some c0 => (c0 <= v)%Z | None => True end /\
      chain (Some v) vs
  end.

(** What the loop needs of the progress the item holds: at most 100 and,
    before the end marker, at most whatever the mapping gives from [prev]
    on. *)
Definition good_cur (ended : bool) (d : option float) (prev cur : option Z) : Prop :=
  match cur with
  | None => True
  | Some c =>
      (c <= 100)%Z /\
      (ended = false ->
       forall z p,
         match prev with Some z0 => (z0 <= z)%Z | None => True end ->
         progress_from_out_time z d = Ret (Some p) -> (c <= p)%Z)
  end.

Definition w_check (w : world) : world :=
  mkWorld (w_item w) (w_reg w) (w_proc w) (w_trace w) (S (w_checks w)).

(** What the next call of [cancel_event.is_set()] returns. *)
Definition cancel_seen (env : run_env) (w : world) : bool :=
  match cancel_after env with
  | Some k => (k <=? w_checks w)%nat
  | None => false
  end.

(** The reports of the progress values [vals] of the item [it], and the
    item after them. *)
Definition reported (cb : bool) (it : WorkItem) (vals : list Z) : list event :=
  if cb then (fun v => EvItemUpdate (set_progress (Some v) it)) <$> vals else [].

Definition last_progress (it : WorkItem) (vals : list Z) : WorkItem :=
  match last vals with
  | Some v => set_progress (Some v) it
  | None => it
  end.

(** ** Runs *)

(** The item when the run starts it, and when a dry run ends it. *)
Definition started (env : run_env) (it : WorkItem) : WorkItem :=
  set_progress (Some 0%Z) (set_start_time (Some (t_start env))
    (set_status STATUS_RUNNING it)).

Definition dry_ended (env : run_env) (it : WorkItem) : WorkItem :=
  set_end_time (Some (t_end env)) (set_message "dry-run"
    (set_status STATUS_SKIPPED (set_input_bytes (input_size env) (started env it)))).

(** The report of an item, when there is a callback. *)
Definition update (cb : bool) (it : WorkItem) : list event :=
  if cb then [EvItemUpdate it] else [].

(** The items reported by a sequence of calls. *)
Definition as_update (ev : event) : option WorkItem :=
  match ev with
  | EvItemUpdate it => Some it
  | _ => None
  end.

Definition updates (evs : list event) : list WorkItem := omap as_update evs.

(** The statuses a job ends in. *)
Definition terminal (st : Status) : Prop :=
  st = STATUS_COMPLETED \/ st = STATUS_FAILED \/ st = STATUS_SKIPPED \/
  st = STATUS_CANCELED.

(** The error text of a failed encode. *)
Definition encode_error (env : run_env) : string :=
  let text := PyStr.strip (PyStr.join "; " (PyStr.rstrip <$> stderr_lines env)) in
  if decide (text = "") then "ffmpeg failed" else text.

(** What a run reports: Running items whose progress values form a chain,
    then at most one more report, of the item as the run leaves it, in a
    terminal status. *)
Definition run_reports (new : list event) (final : WorkItem) : Prop :=
  exists runs vals fin,
    updates new = runs ++ fin /\
    Forall (fun it => status it = STATUS_RUNNING) runs /\
    progress <$> runs = Some <$> vals /\
    chain None vals /\
    (fin = [] \/ (fin = [final] /\ terminal (status final))).

(** The error text of a failed probe: classified when the message of the
    exception has one of the two signatures. *)
Definition probe_error (error_msg : string) : string :=
  if PyStr.contains "moov atom not found" (PyStr.lower error_msg)
     || PyStr.contains "invalid data found when processing input"
          (PyStr.lower error_msg)
  then "File is corrupted or incomplete: " +:+ error_msg
  else error_msg.

(** ** Sample inputs *)

(** A probe result of duration [d], a process that exits at once, and a
    probe that goes through. *)
Definition sample_media (d : option float) : MediaInfo :=
  mkMediaInfo d None None None None None None.

Definition sample_process : process := mkProcess false (Some 0%nat) false [].

Definition sample_probe (d : option float) : ffprobe_run :=
  mkProbe true 0 "" (inr (sample_media d)).

(** A run that meets no cancellation and no file-system error. *)
Definition sample_env (p : ffprobe_run) (out err : list string) (rc : Z) : run_env :=
  mkEnv None 0 1 None ∅ (Some 1000%Z) p None sample_process out err rc
    false false None (Some 500%Z) (Some (sample_media None)).

(** A configuration, a job as the scan makes it, and the world a run of
    it starts in. *)
Definition sample_config (dry : bool) (policy : string) : AppConfig :=
  mkConfig "in" "out" [".mp4"] false 1 dry policy.

Definition sample_item : WorkItem :=
  new_item 1 "in/a.mp4" "out/a.mp4" STATUS_QUEUED "" (Some 1000%Z).

Definition sample_world : world := mkWorld sample_item [] None [] 0.

(** A world inside the progress loop of a job of duration [d]. *)
Definition loop_world (d : option float) : world :=
  mkWorld (set_media (Some (sample_media d)) (set_status STATUS_RUNNING sample_item))
    [] None [] 0.

(** ** What the claims speak of *)

(** The progress values of the Running items reported. *)
Definition running_values (evs : list event) : list (option Z) :=
  progress <$> filter (fun it => status it = STATUS_RUNNING) (updates evs).

(** The spec's formula read over the rationals:
    [floor(elapsed_us / (duration_seconds * 1_000_000) * 100)] clamped to
    [0, 100]. *)
Definition exact_percent (elapsed_us : Z) (duration_seconds : Q) : Z :=
  Z.max 0 (Z.min 100
    (Qfloor (inject_Z elapsed_us / (duration_seconds * 1000000) * 100)%Q)).

(** A duration that is unknown: none, or not positive. *)
Definition unknown_duration (d : option float) : Prop :=
  d = None \/ exists f, d = Some f /\ fle f (Fin 0) = true.

(** The text of an error names the file as corrupted or incomplete. *)
Definition classified (e : string) : bool :=
  PyStr.contains "corrupted or incomplete" (PyStr.lower e).

(** ** The Standard Library's binary64

    The value of a [SpecFloat] float, and equality of float values. *)
Definition of_spec (x : SpecFloat.spec_float) : float :=
  match x with
  | SpecFloat.S754_zero _ => Fin 0
  | SpecFloat.S754_infinity s => Inf s
  | SpecFloat.S754_nan => NaN
  | SpecFloat.S754_finite s m e =>
      Fin ((if s then (-1)%Q else 1%Q) * inject_Z (Zpos m) * pow2 e)
  end.

Definition feqb (a b : float) : bool :=
  match a, b with
  | NaN, NaN => true
  | Inf s, Inf t => Bool.eqb s t
  | Fin u, Fin v => Qeq_bool u v
  | _, _ => false
  end.

(** The binary64 value nearest to [m * 2^e]. *)
Definition b64 (m e : Z) : SpecFloat.spec_float :=
  SpecFloat.binary_normalize 53 1024 m e false.

End Spec.

(** ** engine.py: the batch summary *)

Module Summary.
Import Engine.

Record BatchSummary : Type := mkSummary {
  total : Z;
  completed : Z;
  failed : Z;
  skipped : Z;
  canceled : Z;
  queued : Z;
  running : Z
}.

(** [BatchSummary()]. *)
Definition empty_summary : BatchSummary := mkSummary 0 0 0 0 0 0 0.

(** The body of the loop of [_build_summary]. *)
Definition count_item (s : BatchSummary) (item : WorkItem) : BatchSummary :=
  let s := mkSummary (total s + 1) (completed s) (failed s) (skipped s)
             (canceled s) (queued s) (running s) in
  if status_eqb (status item) STATUS_COMPLETED then
    mkSummary (total s) (completed s + 1) (failed s) (skipped s) (canceled s)
      (queued s) (running s)
  else if status_eqb (status item) STATUS_FAILED then
    mkSummary (total s) (completed s) (failed s + 1) (skipped s) (canceled s)
      (queued s) (running s)
  else if status_eqb (status item) STATUS_SKIPPED then
    mkSummary (total s) (completed s) (failed s) (skipped s + 1) (canceled s)
      (queued s) (running s)
  else if status_eqb (status item) STATUS_CANCELED then
    mkSummary (total s) (completed s) (failed s) (skipped s) (canceled s + 1)
      (queued s) (running s)
  else if status_eqb (status item) STATUS_RUNNING then
    mkSummary (total s) (completed s) (failed s) (skipped s) (canceled s)
      (queued s) (running s + 1)
  else if status_eqb (status item) STATUS_QUEUED then
    mkSummary (total s) (completed s) (failed s) (skipped s) (canceled s)
      (queued s + 1) (running s)
  else s.

(** [_build_summary(items)]. *)
Definition _build_summary (items : list WorkItem) : BatchSummary :=
  foldl count_item empty_summary items.

End Summary.

(** ** config.py *)

Module Config.

Definition PRESETS : list string :=
  ["ultrafast"; "superfast"; "veryfast"; "faster"; "fast"; "medium"; "slow";
   "slower"; "veryslow"; "placebo"].

Definition GPU_TYPES : list string := ["none"; "nvidia"; "amd"; "intel"; "macos"].

Definition default_extensions : list string :=
  [".mp4"; ".mkv"; ".mov"; ".avi"; ".webm"; ".wmv"; ".m4v"; ".mpg"; ".mpeg";
   ".flv"; ".3gp"; ".ogv"].

(** [default_workers()]; [cpu_count] is what [os.cpu_count()] returns. *)
Definition default_workers (cpu_count : option Z) : Z :=
  let cpu :=
    match cpu_count with
    | Some n => if (n =? 0)%Z then 2%Z else n
    | None => 2%Z
    end in
  Z.max 1 (Z.min 2 (cpu - 1)).

(** The body of the loop of [_normalize_extensions]. *)
Definition normalize_step (result : list string) (val : string) : list string :=
  if decide (val = "") then result
  else
    let ext := PyStr.lower (PyStr.strip val) in
    if decide (ext = "") then result
    else
      let ext := if String.prefix "." ext then ext else "." +:+ ext in
      if bool_decide (ext ∈ result) then result else result ++ [ext].

(** [_normalize_extensions(values)]. *)
Definition _normalize_extensions (values : list string) : list string :=
  foldl normalize_step [] values.

Record AppConfig : Type := mkAppConfig {
  input_dir : string;
  output_dir : string;
  video_codec : string;
  crf : Z;
  preset : string;
  audio_codec : string;
  audio_bitrate_kbps : Z;
  target_fps : option Z;
  extensions : list string;
  parallel : bool;
  workers : Z;
  dry_run : bool;
  collision_policy : string;
  enable_csv_log : bool;
  csv_log_path : string;
  enable_json_log : bool;
  json_log_path : string;
  theme : string;
  gpu_type : string;
  use_gpu : bool;
  use_hw_decode : bool;
  copy_audio : bool;
  skip_reencode : bool
}.

(** [AppConfig()]: the defaults of the dataclass; [cpu_count] is what
    [os.cpu_count()] returns and [gpu] what [detect_gpu_type()] does. *)
Definition default_config (cpu_count : option Z) (gpu : string) : AppConfig :=
  mkAppConfig "" "" "h265" 23 "medium" "aac" 128 (Some 30%Z) default_extensions
    true (default_workers cpu_count) false "skip" true "" false "" "dark" gpu
    true true false false.

(** [normalize()]. *)
Definition normalize (c : AppConfig) : AppConfig :=
  mkAppConfig (input_dir c) (output_dir c)
    (PyStr.strip (PyStr.lower (video_codec c)))
    (crf c)
    (PyStr.strip (PyStr.lower (preset c)))
    (PyStr.strip (PyStr.lower (audio_codec c)))
    (audio_bitrate_kbps c) (target_fps c)
    (_normalize_extensions (extensions c))
    (parallel c) (workers c) (dry_run c)
    (PyStr.strip (PyStr.lower (collision_policy c)))
    (enable_csv_log c) (csv_log_path c) (enable_json_log c) (json_log_path c)
    (theme c) (gpu_type c) (use_gpu c) (use_hw_decode c) (copy_audio c)
    (skip_reencode c).

(** The checks of [validate()] on a normalized configuration: the message
    of the ValueError of the first check that fails. *)
Definition check (c : AppConfig) : option string :=
  if bool_decide (video_codec c ∉ ["h264"; "h265"]) then
    Some "video_codec must be 'h264' or 'h265'"
  else if bool_decide (audio_codec c ∉ ["aac"; "opus"]) then
    Some "audio_codec must be 'aac' or 'opus'"
  else if negb ((0 <=? crf c)%Z && (crf c <=? 51)%Z) then
    Some "crf must be between 0 and 51"
  else if bool_decide (preset c ∉ PRESETS) then
    Some ("preset must be one of: " +:+ PyStr.join ", " PRESETS)
  else if (audio_bitrate_kbps c <=? 0)%Z then
    Some "audio_bitrate_kbps must be positive"
  else if match target_fps c with Some f => (f <=? 0)%Z | None => false end then
    Some "target_fps must be positive or None"
  else if (workers c <? 1)%Z then
    Some "workers must be >= 1"
  else if bool_decide (collision_policy c ∉ ["skip"; "overwrite"; "suffix"]) then
    Some "collision_policy must be skip/overwrite/suffix"
  else if bool_decide (theme c ∉ ["dark"; "light"]) then
    Some "theme must be 'dark' or 'light'"
  else None.

(** [validate()]: the configuration as the call leaves it, and the message
    of the ValueError it raises, if any. *)
Definition validate (c : AppConfig) : AppConfig * option string :=
  let c := normalize c in (c, check c).

End Config.

(** ** ffmpeg.py: the encoder command *)

Module Command.

(** A dict from text to text, in insertion order. *)
Definition dict : Type := list (string * string).

(** [d[key]]: [None] is KeyError. *)
Fixpoint getitem (d : dict) (key : string) : option string :=
  match d with
  | [] => None
  | (k, v) :: d' => if decide (key = k) then Some v else getitem d' key
  end.

(** [s.endswith(suffix)]. *)
Fixpoint endswith (suffix s : string) : bool :=
  bool_decide (s = suffix) ||
  match s with
  | EmptyString => false
  | String _ s' => endswith suffix s'
  end.

(** What a call of [build_ffmpeg_command] gives: the command, or the
    KeyError of a dict lookup with its key. *)
Inductive built : Type :=
| Cmd (cmd : list string)
| KeyError (key : string).

(** [build_ffmpeg_command(input_path, output_path, ...)]; the two paths are
    given as [str(input_path)] and [str(output_path)]. *)
Definition build_ffmpeg_command (input_path output_path : string)
    (video_codec : string) (crf : Z) (preset : string) (audio_codec : string)
    (audio_bitrate_kbps : Z) (target_fps : option Z) (overwrite : bool)
    (gpu_type : string) (use_gpu use_hw_decode copy_audio skip_reencode : bool)
  : built :=
  if skip_reencode then
    Cmd ["ffmpeg"; "-hide_banner"; "-nostats"; if overwrite then "-y" else "-n";
         "-i"; input_path; "-c"; "copy"; "-map_metadata"; "0"; output_path]
  else
    let codec_map : dict := [("h264", "libx264"); ("h265", "libx265")] in
    let audio_map : dict := [("aac", "aac"); ("opus", "libopus")] in
    let '(codec_map, hwaccel) :=
      if use_gpu && negb (bool_decide (gpu_type = "none")) then
        if decide (gpu_type = "nvidia") then
          ([("h264", "h264_nvenc"); ("h265", "hevc_nvenc")], Some "cuda")
        else if decide (gpu_type = "amd") then
          ([("h264", "h264_amf"); ("h265", "hevc_amf")], Some "d3d11va")
        else if decide (gpu_type = "intel") then
          ([("h264", "h264_qsv"); ("h265", "hevc_qsv")], Some "qsv")
        else if decide (gpu_type = "macos") then
          ([("h264", "h264_videotoolbox"); ("h265", "hevc_videotoolbox")],
           Some "videotoolbox")
        else (codec_map, None)
      else (codec_map, None) in
    match getitem codec_map video_codec with
    | None => KeyError video_codec
    | Some vcodec =>
        match (if copy_audio then Some "copy" else getitem audio_map audio_codec) with
        | None => KeyError audio_codec
        | Some acodec =>
            let cmd := ["ffmpeg"; "-hide_banner"; "-nostats";
                        if overwrite then "-y" else "-n"] in
            let cmd :=
              match hwaccel with
              | Some hw => if use_hw_decode then cmd ++ ["-hwaccel"; hw] else cmd
              | None => cmd
              end in
            let cmd := cmd ++ ["-i"; input_path; "-map_metadata"; "0"; "-map";
                               "0:v:0?"; "-map"; "0:a:0?"; "-c:v"; vcodec] in
            let cmd :=
              if negb copy_audio then
                cmd ++ ["-preset"; preset; "-crf"; pretty crf; "-b:a";
                        pretty audio_bitrate_kbps +:+ "k"]
              else cmd ++ ["-preset"; preset; "-crf"; pretty crf] in
            let cmd :=
              match target_fps with
              | Some f => if (f =? 0)%Z then cmd else cmd ++ ["-r"; pretty f]
              | None => cmd
              end in
            let cmd := cmd ++ ["-c:a"; acodec] in
            let cmd :=
              if bool_decide (audio_codec = "opus") && negb copy_audio
              then (cmd ++ ["-strict"]) ++ ["experimental"] else cmd in
            let cmd :=
              if endswith ".mp4" (PyStr.lower output_path)
                 || endswith ".mov" (PyStr.lower output_path)
              then cmd ++ ["-movflags"; "+faststart"] else cmd in
            Cmd (cmd ++ [output_path])
        end
    end.

(** The command [_process_item] starts: [base_cmd[:-1] + ["-progress",
    "pipe:1", "-loglevel", "error", base_cmd[-1]]]; [None] is the IndexError
    of [base_cmd[-1]] on an empty list. *)
Definition with_progress (base_cmd : list string) : option (list string) :=
  match last base_cmd with
  | Some out =>
      Some (removelast base_cmd ++ ["-progress"; "pipe:1"; "-loglevel"; "error"; out])
  | None => None
  end.

(** The call of [build_ffmpeg_command] in [_process_item], with the
    fields of the configuration it passes. *)
Definition base_command (config : Config.AppConfig) (input_path temp_output : string)
  : built :=
  build_ffmpeg_command input_path temp_output (Config.video_codec config)
    (Config.crf config) (Config.preset config) (Config.audio_codec config)
    (Config.audio_bitrate_kbps config) (Config.target_fps config)
    (bool_decide (Config.collision_policy config = "overwrite"))
    (Config.gpu_type config) (Config.use_gpu config) (Config.use_hw_decode config)
    (Config.copy_audio config) (Config.skip_reencode config).

End Command.

(** ** logging.py: the summary statistics *)

Module Logging.
Import Float64.
Local Open Scope Z_scope.

(** [a + b] on floats. *)
Definition fadd (a b : float) : float :=
  match a, b with
  | NaN, _ | _, NaN => NaN
  | Inf s, Inf t => if Bool.eqb s t then Inf s else NaN
  | Inf s, Fin _ | Fin _, Inf s => Inf s
  | Fin u, Fin v => round (u + v)
  end.

(** [a / b] on Python ints: the quotient correctly rounded,
    ZeroDivisionError on a zero divisor, OverflowError when the quotient is
    too large for a float. *)
Definition int_truediv (a b : Z) : res float :=
  if b =? 0 then Raise ZeroDivisionError
  else match round (inject_Z a / inject_Z b) with
       | Fin v => Ret (Fin v)
       | _ => Raise OverflowError
       end.

Record SummaryStats : Type := mkStats {
  total : Z;
  completed : Z;
  failed : Z;
  skipped : Z;
  canceled : Z;
  total_input_bytes : Z;
  total_output_bytes : Z;
  total_seconds : float
}.

(** [SummaryStats()]. *)
Definition empty_stats : SummaryStats := mkStats 0 0 0 0 0 0 0 (Fin 0).

(** [compression_ratio_percent()]. *)
Definition compression_ratio_percent (s : SummaryStats) : res float :=
  if total_input_bytes s <=? 0 then Ret (Fin 0)
  else
    let saved := Z.max 0 (total_input_bytes s - total_output_bytes s) in
    q ← int_truediv saved (total_input_bytes s);
    Ret (fmul q (Fin 100)).

(** Field assignments [self.summary.f = v]. *)
Definition set_total (v : Z) (s : SummaryStats) : SummaryStats :=
  mkStats v (completed s) (failed s) (skipped s) (canceled s)
    (total_input_bytes s) (total_output_bytes s) (total_seconds s).
Definition set_completed (v : Z) (s : SummaryStats) : SummaryStats :=
  mkStats (total s) v (failed s) (skipped s) (canceled s)
    (total_input_bytes s) (total_output_bytes s) (total_seconds s).
Definition set_failed (v : Z) (s : SummaryStats) : SummaryStats :=
  mkStats (total s) (completed s) v (skipped s) (canceled s)
    (total_input_bytes s) (total_output_bytes s) (total_seconds s).
Definition set_skipped (v : Z) (s : SummaryStats) : SummaryStats :=
  mkStats (total s) (completed s) (failed s) v (canceled s)
    (total_input_bytes s) (total_output_bytes s) (total_seconds s).
Definition set_canceled (v : Z) (s : SummaryStats) : SummaryStats :=
  mkStats (total s) (completed s) (failed s) (skipped s) v
    (total_input_bytes s) (total_output_bytes s) (total_seconds s).
Definition set_total_input_bytes (v : Z) (s : SummaryStats) : SummaryStats :=
  mkStats (total s) (completed s) (failed s) (skipped s) (canceled s)
    v (total_output_bytes s) (total_seconds s).
Definition set_total_output_bytes (v : Z) (s : SummaryStats) : SummaryStats :=
  mkStats (total s) (completed s) (failed s) (skipped s) (canceled s)
    (total_input_bytes s) v (total_seconds s).
Definition set_total_seconds (v : float) (s : SummaryStats) : SummaryStats :=
  mkStats (total s) (completed s) (failed s) (skipped s) (canceled s)
    (total_input_bytes s) (total_output_bytes s) v.

(** [_update_summary(status, input_bytes, output_bytes,
    processing_seconds)]; an optional int is true when it is neither [None]
    nor 0, an optional float when it is neither [None] nor zero. *)
Definition _update_summary (s : SummaryStats) (status : string)
    (input_bytes output_bytes : option Z) (processing_seconds : option float)
  : SummaryStats :=
  let s := set_total (total s + 1) s in
  let s :=
    if decide (status = "completed") then set_completed (completed s + 1) s
    else if decide (status = "failed") then set_failed (failed s + 1) s
    else if decide (status = "skipped") then set_skipped (skipped s + 1) s
    else if decide (status = "canceled") then set_canceled (canceled s + 1) s
    else s in
  let s :=
    match input_bytes with
    | Some n =>
        if negb (n =? 0) then set_total_input_bytes (total_input_bytes s + n) s else s
    | None => s
    end in
  let s :=
    match output_bytes with
    | Some n =>
        if negb (n =? 0) then set_total_output_bytes (total_output_bytes s + n) s else s
    | None => s
    end in
  match processing_seconds with
  | Some t => if truthy t then set_total_seconds (fadd (total_seconds s) t) s else s
  | None => s
  end.

End Logging.

(** * Vocabulary of the further properties *)

Module Obs.
Import Float64 Ffmpeg Engine Spec.

(** ** Paths *)

(** The paths [_temp_output_path] tries, in order: the plain [.partial]
    name first, then the names with the counters 1, 2, ... *)
Definition temp_try (p : Path) (n : nat) : Path :=
  match n with
  | O =>
      if decide (suffix p = "") then with_name p (name p +:+ ".partial")
      else with_name p (stem p +:+ ".partial" +:+ suffix p)
  | S _ => temp_candidate p n
  end.

(** ** Runs of [_process_item] *)

(** The items passed to the logger by a sequence of calls. *)
Definition as_log (ev : event) : option WorkItem :=
  match ev with
  | EvLogItem it => Some it
  | _ => None
  end.

Definition logged (evs : list event) : list WorkItem := omap as_log evs.

(** The renames [temp.replace(output)] made by a sequence of calls. *)
Definition as_replace (ev : event) : option (string * string) :=
  match ev with
  | EvReplace src dst => Some (src, dst)
  | _ => None
  end.

Definition replaced (evs : list event) : list (string * string) := omap as_replace evs.

(** Whether a sequence of calls starts an encoder. *)
Definition is_popen (ev : event) : bool :=
  match ev with
  | EvPopen _ _ => true
  | _ => false
  end.

Definition starts_encoder (evs : list event) : bool := existsb is_popen evs.

Definition is_update (ev : event) : bool :=
  match ev with
  | EvItemUpdate _ => true
  | _ => false
  end.

(** The item as the part of [_process_item] after the progress loop
    leaves it; [seen] tells whether the cancellation test there is
    positive. *)
Definition finished (env : run_env) (seen : bool) (it : WorkItem) : WorkItem :=
  if seen then set_end_time (Some (t_end env)) (set_status STATUS_CANCELED it)
  else if bool_decide (returncode env ≠ 0%Z) then
    set_end_time (Some (t_end env))
      (set_error (encode_error env) (set_status STATUS_FAILED it))
  else
    let done := set_end_time (Some (t_end env))
                  (set_progress (Some 100%Z) (set_status STATUS_COMPLETED it)) in
    match finalize_error env with
    | Some msg =>
        set_error ("Failed to finalize output: " +:+ msg) (set_status STATUS_FAILED done)
    | None => set_output_media (output_probe env) (set_output_bytes (output_size env) done)
    end.

(** Whether that part renames the temporary file to the output path. *)
Definition publishes (env : run_env) (seen : bool) : bool :=
  negb seen && bool_decide (returncode env = 0%Z)
  && bool_decide (finalize_error env = None).

(** The file-system calls of that part. *)
Definition finish_calls (config : AppConfig) (env : run_env) (seen : bool)
    (out temp : Path) : list event :=
  if publishes env seen then
    (if output_exists env && bool_decide (collision_policy config = "overwrite")
     then [EvUnlink (path_str out)] else [])
    ++ [EvMkdir (dir out); EvReplace (path_str temp) (path_str out);
        EvProbe (path_str out)]
  else if temp_exists env then [EvUnlink (path_str temp)] else [].

(** The item before the encoder is started: after the probe, with its
    progress unknown when the duration is. *)
Definition before_encode (info : MediaInfo) (it : WorkItem) : WorkItem :=
  let it1 := set_media (Some info) it in
  if match duration info with Some d => truthy d | None => false end
  then it1 else set_progress None it1.

(** The world when the run has reported the item as Running, made the
    output directory and taken the size of the input. *)
Definition w_prepared (cb : bool) (env : run_env) (w : world) : world :=
  mkWorld (set_input_bytes (input_size env) (started env (w_item w)))
    (w_reg w) (w_proc w)
    (w_trace w ++ update cb (started env (w_item w))
       ++ [EvMkdir (dir (Path_of (output_path (w_item w))))])
    (S (w_checks w)).

(** The world when the encoder has been started. *)
Definition w_encoding (env : run_env) (info : MediaInfo) (input temp : string)
    (w : world) : world :=
  mkWorld (before_encode info (w_item w))
    (reg_set (id (w_item w)) (proc env) (w_reg w)) (Some (proc env))
    (w_trace w ++ [EvProbe input; EvPopen input temp]) (w_checks w).

(** The world after the [finally] clause around the progress loop;
    [calls] are the calls made since the loop. *)
Definition w_cleaned (calls : list event) (w : world) : world :=
  mkWorld (w_item w) (reg_pop (id (w_item w)) (w_reg w)) (w_proc w)
    (w_trace w ++ calls) (w_checks w).

(** A run whose cancellation is requested while the first line of the
    progress stream is awaited, and a run that cannot make its output
    directory. *)
Definition canceled_env : run_env :=
  mkEnv (Some 1%nat) 0 1 None ∅ (Some 1000%Z) (sample_probe (Some (Fin 10))) None
    sample_process ["out_time_ms=1000000"] [] 0 true false None None None.

Definition denied_env : run_env :=
  mkEnv None 0 1 (Some "denied") ∅ None (sample_probe None) None
    sample_process [] [] 0 false false None None None.

(** ** Scans *)

(** The path [Path(root) / name] of a walked file. *)
Definition source (config : AppConfig) (w : walked) : Path :=
  mkPath (join_dir (input_dir config) (rel_dir w)) (file_name w).

(** Whether [scan_inputs] takes a walked file: its suffix, in lower case,
    is among the extensions in lower case. *)
Definition accepted (config : AppConfig) (w : walked) : bool :=
  bool_decide (PyStr.lower (suffix (source config w)) ∈ PyStr.lower <$> extensions config).

(** ** Summaries *)

(** The number of items of a list in a status. *)
Definition count_status (st : Status) (items : list WorkItem) : Z :=
  Z.of_nat (length (filter (fun it => status it = st) items)).

(** ** Floats *)

(** A float that binary64 holds: NaN, an infinity, or a rational that
    rounding leaves as it is. *)
Definition binary64 (d : float) : Prop :=
  match d with
  | Fin v => round v = Fin v
  | _ => True
  end.

(** ** Configurations *)

(** An extension as [_normalize_extensions] writes it. *)
Definition dotted (ext : string) : string :=
  if String.prefix "." ext then ext else "." +:+ ext.

(** A text in the form [_normalize_extensions] gives: in lower case, with
    no white space around it, and starting with a dot. *)
Definition canonical (e : string) : Prop :=
  PyStr.lower e = e /\ PyStr.strip e = e /\ String.prefix "." e = true.

(** What [validate()] asks of a configuration. *)
Definition valid (c : Config.AppConfig) : Prop :=
  Config.video_codec c ∈ ["h264"; "h265"] /\
  Config.audio_codec c ∈ ["aac"; "opus"] /\
  (0 <= Config.crf c <= 51)%Z /\
  Config.preset c ∈ Config.PRESETS /\
  (0 < Config.audio_bitrate_kbps c)%Z /\
  (forall f, Config.target_fps c = Some f -> (0 < f)%Z) /\
  (1 <= Config.workers c)%Z /\
  Config.collision_policy c ∈ ["skip"; "overwrite"; "suffix"] /\
  Config.theme c ∈ ["dark"; "light"].

(** ** Commands *)

(** The GPU types for which [build_ffmpeg_command] has encoders. *)
Definition known_gpus : list string := ["nvidia"; "amd"; "intel"; "macos"].

(** ** Statistics *)

(** The arguments of one call of [_update_summary]. *)
Record summary_call : Type := mkCall {
  call_status : string;
  call_input_bytes : option Z;
  call_output_bytes : option Z;
  call_seconds : option float
}.

(** The statistics after a sequence of calls of [_update_summary]. *)
Definition update_all (s : Logging.SummaryStats) (calls : list summary_call)
  : Logging.SummaryStats :=
  foldl (fun s c => Logging._update_summary s (call_status c) (call_input_bytes c)
                      (call_output_bytes c) (call_seconds c)) s calls.

(** The number of calls with a status. *)
Definition count_calls (st : string) (calls : list summary_call) : Z :=
  Z.of_nat (length (filter (fun c => call_status c = st) calls)).

(** The sum of optional sizes, [None] counting as 0. *)
Definition sum_sizes (sizes : list (option Z)) : Z :=
  foldr (fun x acc => (default 0%Z x + acc)%Z) 0%Z sizes.

(** The status strings [STATUS_QUEUED] ... [STATUS_CANCELED]. *)
Definition status_str (st : Engine.Status) : string :=
  match st with
  | Engine.STATUS_QUEUED => "queued"
  | Engine.STATUS_RUNNING => "running"
  | Engine.STATUS_COMPLETED => "completed"
  | Engine.STATUS_FAILED => "failed"
  | Engine.STATUS_SKIPPED => "skipped"
  | Engine.STATUS_CANCELED => "canceled"
  end.

End Obs.

(** * Properties *)

(** ** Rounding to binary64 *)

Module Float64Facts.
Import Float64.
Local Open Scope Q_scope.

Lemma pow2_pos k : 0 < pow2 k.
Proof. apply Qpower_0_lt. reflexivity. Qed.

Lemma pow2_le k l : (k <= l)%Z -> pow2 k <= pow2 l.
Proof. intros H. apply Qpower_le_compat_l; [exact H | discriminate]. Qed.

Lemma pow2_lt k l : (k < l)%Z -> pow2 k < pow2 l.
Proof. intros H. apply Qpower_lt_compat_l; [exact H | reflexivity]. Qed.

Lemma pow2_add k l : pow2 (k + l) == pow2 k * pow2 l.
Proof. apply Qpower_plus. discriminate. Qed.

Lemma pow2_succ k : pow2 (k + 1) == 2 * pow2 k.
Proof. rewrite pow2_add. unfold pow2 at 2. simpl. ring. Qed.

Lemma pow2_inject k : (0 <= k)%Z -> pow2 k == inject_Z (2 ^ k).
Proof. intros H. unfold pow2. rewrite Zpower_Qpower by exact H. reflexivity. Qed.

Lemma Q_as_fraction x : x * inject_Z (Zpos (Qden x)) == inject_Z (Qnum x).
Proof.
  destruct x as [n d]. unfold Qeq, Qmult, inject_Z. simpl. lia.
Qed.

Lemma ilog2_spec x : 0 < x -> pow2 (ilog2 x) <= x /\ x < pow2 (ilog2 x + 1).
Proof.
  intros Hx.
  assert (Hn : (0 < Qnum x)%Z).
  { destruct x as [n d]. unfold Qlt in Hx. simpl in *. lia. }
  set (a := Z.log2 (Qnum x)). set (b := Z.log2 (Zpos (Qden x))).
  assert (Ha : (0 <= a)%Z) by apply Z.log2_nonneg.
  assert (Hb : (0 <= b)%Z) by apply Z.log2_nonneg.
  destruct (Z.log2_spec (Qnum x) Hn) as [Ha1 Ha2]. fold a in Ha1, Ha2.
  destruct (Z.log2_spec (Zpos (Qden x)) (Pos2Z.is_pos _)) as [Hb1 Hb2].
  fold b in Hb1, Hb2.
  pose proof (Q_as_fraction x) as Hfr.
  assert (HA : pow2 a == inject_Z (2 ^ a)) by (apply pow2_inject; lia).
  assert (HB : pow2 b == inject_Z (2 ^ b)) by (apply pow2_inject; lia).
  assert (Hab : pow2 (a - b) * pow2 b == pow2 a).
  { rewrite <- pow2_add. replace (a - b + b)%Z with a by lia. reflexivity. }
  rewrite Z.pow_succ_r in Ha2, Hb2 by lia.
  assert (Ha1q : inject_Z (2 ^ a) <= inject_Z (Qnum x)) by (rewrite <- Zle_Qle; lia).
  assert (Ha2q : inject_Z (Qnum x) < 2 * inject_Z (2 ^ a)).
  { change 2 with (inject_Z 2). rewrite <- inject_Z_mult, <- Zlt_Qlt. lia. }
  assert (Hb1q : inject_Z (2 ^ b) <= inject_Z (Zpos (Qden x))) by (rewrite <- Zle_Qle; lia).
  assert (Hb2q : inject_Z (Zpos (Qden x)) < 2 * inject_Z (2 ^ b)).
  { change 2 with (inject_Z 2). rewrite <- inject_Z_mult, <- Zlt_Qlt. lia. }
  pose proof (pow2_pos (a - b)) as Hp. pose proof (pow2_pos b) as Hpb.
  unfold ilog2. fold a b.
  destruct (Qle_bool (pow2 (a - b)) x) eqn:E.
  - apply Qle_bool_iff in E. split; [exact E |].
    rewrite pow2_succ.
    set (P := pow2 (a - b)) in *. set (D := inject_Z (Zpos (Qden x))) in *.
    set (N := inject_Z (Qnum x)) in *. set (A := inject_Z (2 ^ a)) in *.
    set (B := inject_Z (2 ^ b)) in *.
    rewrite HA, HB in Hab. rewrite HB in Hpb.
    clearbody P D N A B. clear HA HB.
    assert (HD : 0 < D) by lra.
    apply Qnot_le_lt. intros Hc.
    assert (H1 : (2 * P) * D <= x * D) by (apply Qmult_le_compat_r; lra).
    assert (H2 : P * B <= P * D) by (apply Qmult_le_l; lra).
    lra.
  - assert (E' : x < pow2 (a - b)).
    { apply Qnot_le_lt. intros Hc. apply Qle_bool_iff in Hc. congruence. }
    replace (a - b - 1 + 1)%Z with (a - b)%Z by lia. split; [| exact E'].
    assert (Hs : pow2 (a - b) == 2 * pow2 (a - b - 1)).
    { rewrite <- pow2_succ. replace (a - b - 1 + 1)%Z with (a - b)%Z by lia. reflexivity. }
    set (P' := pow2 (a - b - 1)) in *. clearbody P'.
    set (P := pow2 (a - b)) in *. set (D := inject_Z (Zpos (Qden x))) in *.
    set (N := inject_Z (Qnum x)) in *. set (A := inject_Z (2 ^ a)) in *.
    set (B := inject_Z (2 ^ b)) in *.
    rewrite HA, HB in Hab. rewrite HB in Hpb.
    clearbody P D N A B. clear HA HB.
    assert (HD : 0 < D) by lra.
    apply Qnot_lt_le. intros Hc.
    assert (H1 : x * D < P' * D) by (apply Qmult_lt_compat_r; lra).
    assert (HP' : 0 < P') by lra.
    assert (H2 : P' * D < P' * (2 * B)) by (apply Qmult_lt_l; lra).
    rewrite Hs in Hab. lra.
Qed.


Lemma ilog2_mono x y : 0 < x -> x <= y -> (ilog2 x <= ilog2 y)%Z.
Proof.
  intros Hx Hxy.
  destruct (ilog2_spec x Hx) as [Hx1 _].
  destruct (ilog2_spec y) as [_ Hy2]; [lra |].
  destruct (Z_le_gt_dec (ilog2 x) (ilog2 y)) as [H | H]; [exact H | exfalso].
  assert (Hp : pow2 (ilog2 y + 1) <= pow2 (ilog2 x)) by (apply pow2_le; lia).
  lra.
Qed.

Lemma rne_cases x :
  let f := Qfloor x in
  (rne x = f /\ x - inject_Z f <= 1 # 2) \/
  (rne x = (f + 1)%Z /\ 1 # 2 <= x - inject_Z f).
Proof.
  intros f. unfold rne. fold f.
  destruct (Qcompare_spec (x - inject_Z f) (1 # 2)).
  - destruct (Z.even f); [left | right]; split; auto; lra.
  - left. split; auto. lra.
  - right. split; auto. lra.
Qed.

Lemma rne_wd x y : x == y -> rne x = rne y.
Proof.
  intros H. unfold rne.
  assert (Hf : Qfloor x = Qfloor y) by (rewrite H; reflexivity).
  rewrite Hf.
  assert (Hc : Qcompare (x - inject_Z (Qfloor y)) (1 # 2) =
               Qcompare (y - inject_Z (Qfloor y)) (1 # 2)).
  { rewrite H. reflexivity. }
  rewrite Hc. reflexivity.
Qed.

Lemma rne_mono x y : x <= y -> (rne x <= rne y)%Z.
Proof.
  intros Hxy.
  pose proof (Qfloor_resp_le x y Hxy) as Hf.
  pose proof (Qfloor_le x) as Hx1. pose proof (Qlt_floor x) as Hx2.
  pose proof (Qfloor_le y) as Hy1. pose proof (Qlt_floor y) as Hy2.
  rewrite inject_Z_plus in Hx2, Hy2.
  destruct (Z.eq_dec (Qfloor x) (Qfloor y)) as [He | Hne].
  - unfold rne. rewrite <- He.
    destruct (Qcompare_spec (x - inject_Z (Qfloor x)) (1 # 2));
      destruct (Qcompare_spec (y - inject_Z (Qfloor x)) (1 # 2));
      try destruct (Z.even (Qfloor x)); try lia; exfalso; lra.
  - destruct (rne_cases x) as [[Hx _] | [Hx _]];
      destruct (rne_cases y) as [[Hy _] | [Hy _]]; lia.
Qed.

Lemma rne_inject k : rne (inject_Z k) = k.
Proof.
  unfold rne. rewrite Qfloor_Z.
  assert (E : Qcompare (inject_Z k - inject_Z k) (1 # 2) = Lt).
  { apply -> Qlt_alt. generalize (inject_Z k). intros q. lra. }
  rewrite E. reflexivity.
Qed.

Lemma rne_le_inject x k : x <= inject_Z k -> (rne x <= k)%Z.
Proof. intros H. rewrite <- (rne_inject k). apply rne_mono, H. Qed.

Lemma rne_ge_inject x k : inject_Z k <= x -> (k <= rne x)%Z.
Proof. intros H. rewrite <- (rne_inject k). apply rne_mono, H. Qed.


Lemma ulp_exp_mono x y : 0 < x -> x <= y -> (ulp_exp x <= ulp_exp y)%Z.
Proof.
  intros Hx Hxy. unfold ulp_exp.
  pose proof (ilog2_mono x y Hx Hxy). lia.
Qed.

Lemma scaled_lt_53 x : 0 < x -> x / pow2 (ulp_exp x) < inject_Z (2 ^ 53).
Proof.
  intros Hx. destruct (ilog2_spec x Hx) as [_ H2].
  pose proof (pow2_pos (ulp_exp x)) as Hp.
  apply Qlt_shift_div_r; [exact Hp |].
  assert (Hle : pow2 (ilog2 x + 1) <= pow2 (53 + ulp_exp x)).
  { apply pow2_le. unfold ulp_exp. lia. }
  assert (H53 : pow2 (53 + ulp_exp x) == inject_Z (2 ^ 53) * pow2 (ulp_exp x)).
  { rewrite pow2_add. apply Qmult_comp; [apply pow2_inject; lia | reflexivity]. }
  rewrite <- H53. eapply Qlt_le_trans; [exact H2 | exact Hle].
Qed.

Lemma scaled_ge_52 x :
  0 < x -> (-1074 < ulp_exp x)%Z -> inject_Z (2 ^ 52) <= x / pow2 (ulp_exp x).
Proof.
  intros Hx He. destruct (ilog2_spec x Hx) as [H1 _].
  pose proof (pow2_pos (ulp_exp x)) as Hp.
  apply Qle_shift_div_l; [exact Hp |].
  assert (Heq : ilog2 x = (52 + ulp_exp x)%Z) by (unfold ulp_exp in *; lia).
  assert (H52 : pow2 (52 + ulp_exp x) == inject_Z (2 ^ 52) * pow2 (ulp_exp x)).
  { rewrite pow2_add. apply Qmult_comp; [apply pow2_inject; lia | reflexivity]. }
  rewrite <- H52, <- Heq. exact H1.
Qed.

Lemma round_val_nonneg x : 0 < x -> 0 <= round_val x.
Proof.
  intros Hx. unfold round_val.
  pose proof (pow2_pos (ulp_exp x)) as Hp.
  apply Qmult_le_0_compat; [| apply Qlt_le_weak, Hp].
  change 0 with (inject_Z 0). rewrite <- Zle_Qle.
  apply rne_ge_inject, Qle_shift_div_l; [exact Hp |].
  change (inject_Z 0) with 0. rewrite Qmult_0_l. apply Qlt_le_weak, Hx.
Qed.

Lemma round_val_mono x y : 0 < x -> x <= y -> round_val x <= round_val y.
Proof.
  intros Hx Hxy. assert (Hy : 0 < y) by lra.
  pose proof (ulp_exp_mono x y Hx Hxy) as He.
  pose proof (pow2_pos (ulp_exp x)) as Hpx.
  pose proof (pow2_pos (ulp_exp y)) as Hpy.
  unfold round_val.
  destruct (Z.eq_dec (ulp_exp x) (ulp_exp y)) as [Heq | Hne].
  - rewrite <- Heq. apply Qmult_le_compat_r; [| apply Qlt_le_weak, Hpx].
    rewrite <- Zle_Qle. apply rne_mono.
    apply Qmult_le_compat_r; [exact Hxy |].
    apply Qlt_le_weak, Qinv_lt_0_compat, Hpx.
  - assert (Hlt : (ulp_exp x + 1 <= ulp_exp y)%Z) by lia.
    assert (Hx53 : (rne (x / pow2 (ulp_exp x)) <= 2 ^ 53)%Z).
    { apply rne_le_inject, Qlt_le_weak, scaled_lt_53, Hx. }
    assert (Hy52 : (2 ^ 52 <= rne (y / pow2 (ulp_exp y)))%Z).
    { apply rne_ge_inject, scaled_ge_52; [exact Hy |].
      assert ((-1074 <= ulp_exp x)%Z) by (unfold ulp_exp; lia). lia. }
    rewrite Zle_Qle in Hx53, Hy52.
    pose proof (pow2_le _ _ Hlt) as Hpp. rewrite pow2_succ in Hpp.
    assert (H53 : inject_Z (2 ^ 53) == 2 * inject_Z (2 ^ 52)).
    { change 2 with (inject_Z 2) at 1. rewrite <- inject_Z_mult. reflexivity. }
    set (mx := inject_Z (rne (x / pow2 (ulp_exp x)))) in *.
    set (my := inject_Z (rne (y / pow2 (ulp_exp y)))) in *.
    set (px := pow2 (ulp_exp x)) in *. set (py := pow2 (ulp_exp y)) in *.
    set (c53 := inject_Z (2 ^ 53)) in *. set (c52 := inject_Z (2 ^ 52)) in *.
    assert (Hc52 : 0 < c52) by reflexivity.
    clearbody mx my px py c53 c52.
    assert (H1 : mx * px <= c53 * px) by (apply Qmult_le_compat_r; lra).
    assert (H2 : c52 * (2 * px) <= c52 * py) by (apply Qmult_le_l; lra).
    assert (H3 : c52 * py <= my * py) by (apply Qmult_le_compat_r; lra).
    rewrite H53 in H1. lra.
Qed.

Lemma round_mag_inv x u :
  round_mag x = Some u -> u == round_val x /\ round_val x < pow2 1024.
Proof.
  unfold round_mag. destruct (Qle_bool (pow2 1024) (round_val x)) eqn:E; [discriminate |].
  intros [= <-]. split; [apply Qred_correct |].
  apply Qnot_le_lt. intros H. apply Qle_bool_iff in H. congruence.
Qed.

Lemma round_mag_mono x y u v :
  0 < x -> x <= y -> round_mag x = Some u -> round_mag y = Some v -> u <= v.
Proof.
  intros Hx Hxy Hu Hv.
  apply round_mag_inv in Hu as [Hu _]. apply round_mag_inv in Hv as [Hv _].
  rewrite Hu, Hv. apply round_val_mono; assumption.
Qed.

Lemma round_mag_nonneg x u : 0 < x -> round_mag x = Some u -> 0 <= u.
Proof.
  intros Hx Hu. apply round_mag_inv in Hu as [Hu _]. rewrite Hu.
  apply round_val_nonneg, Hx.
Qed.

(** No overflow below a value that does not overflow. *)
Lemma round_mag_below x y v :
  0 < x -> x <= y -> round_mag y = Some v -> exists u, round_mag x = Some u.
Proof.
  intros Hx Hxy Hv. apply round_mag_inv in Hv as [_ Hv].
  pose proof (round_val_mono x y Hx Hxy) as Hm.
  unfold round_mag. destruct (Qle_bool (pow2 1024) (round_val x)) eqn:E; [| eauto].
  apply Qle_bool_iff in E. exfalso.
  apply (Qlt_irrefl (pow2 1024)).
  eapply Qle_lt_trans; [exact E |]. eapply Qle_lt_trans; [exact Hm | exact Hv].
Qed.

Lemma round_inv x u :
  round x = Fin u ->
  (x == 0 /\ u == 0) \/
  (0 < x /\ round_mag x = Some u) \/
  (x < 0 /\ exists m, round_mag (- x) = Some m /\ u = - m).
Proof.
  unfold round. destruct (Qcompare_spec x 0) as [H | H | H].
  - intros [= <-]. left. split; [exact H | reflexivity].
  - destruct (round_mag (- x)) eqn:E; [| discriminate].
    intros [= <-]. right. right. split; [exact H | eauto].
  - destruct (round_mag x) eqn:E; [| discriminate].
    intros [= <-]. right. left. split; [exact H | reflexivity].
Qed.

(** Rounding is monotone. *)
Lemma round_mono x y u v :
  x <= y -> round x = Fin u -> round y = Fin v -> u <= v.
Proof.
  intros Hxy Hu Hv.
  apply round_inv in Hu as [[Hx Hu] | [[Hx Hu] | [Hx [m [Hm ->]]]]];
    apply round_inv in Hv as [[Hy Hv] | [[Hy Hv] | [Hy [n [Hn ->]]]]].
  - rewrite Hu, Hv. apply Qle_refl.
  - rewrite Hu. apply (round_mag_nonneg y); assumption.
  - exfalso. lra.
  - exfalso. lra.
  - apply (round_mag_mono x y); assumption.
  - exfalso. lra.
  - rewrite Hv. assert (0 <= m) by (apply (round_mag_nonneg (- x)); [lra | assumption]). lra.
  - assert (0 <= m) by (apply (round_mag_nonneg (- x)); [lra | assumption]).
    assert (0 <= v) by (apply (round_mag_nonneg y); assumption). lra.
  - assert (n <= m).
    { apply (round_mag_mono (- y) (- x)); [lra | lra | assumption | assumption]. }
    lra.
Qed.

(** Rounding never gives NaN. *)
Lemma round_not_nan x : round x <> NaN.
Proof.
  unfold round. destruct (Qcompare x 0); [discriminate | |];
    match goal with |- context [round_mag ?a] => destruct (round_mag a) end;
    discriminate.
Qed.

(** A value between zero and one that rounds to a finite value rounds to a
    finite value. *)
Lemma round_below x y v :
  0 <= x -> x <= y -> round y = Fin v -> exists u, round x = Fin u.
Proof.
  intros Hx Hxy Hv. unfold round.
  destruct (Qcompare_spec x 0) as [H | H | H]; [eauto | exfalso; lra |].
  apply round_inv in Hv as [[Hy _] | [[Hy Hv] | [Hy _]]]; try (exfalso; lra).
  destruct (round_mag_below x y v H Hxy Hv) as [u ->]. eauto.
Qed.

Lemma round_nonneg x u : 0 <= x -> round x = Fin u -> 0 <= u.
Proof.
  intros Hx Hu.
  apply round_inv in Hu as [[_ Hu] | [[H Hu] | [H _]]].
  - rewrite Hu. apply Qle_refl.
  - apply (round_mag_nonneg x); assumption.
  - exfalso. lra.
Qed.

End Float64Facts.

(** ** The progress mapping *)

Module FfmpegFacts.
Import Float64 Float64Facts Ffmpeg Spec.
Local Open Scope Q_scope.

Lemma fle_fin_false u v : fle (Fin u) (Fin v) = false -> v < u.
Proof.
  simpl. intros H. apply Qnot_le_lt. intros Hc.
  apply Qle_bool_iff in Hc. congruence.
Qed.

Lemma Qzero_false_pos v : 0 < v -> Qzero v = false.
Proof.
  intros H. unfold Qzero. destruct (Qeq_bool v 0) eqn:E; [| reflexivity].
  apply Qeq_bool_iff in E. lra.
Qed.

Lemma clamp_mono a b : (a <= b)%Z -> (Z.max 0 (Z.min 100 a) <= Z.max 0 (Z.min 100 b))%Z.
Proof. lia. Qed.

(** The mapping for a finite positive total [t]. *)
Lemma progress_core_mono t o1 o2 p1 p2 :
  0 < t -> (o1 <= o2)%Z ->
  (x ← of_int o1; q ← fdiv x (Fin t); f ← math_floor (fmul q (Fin 100));
   Ret (Some (Z.max 0 (Z.min 100 f)))) = Ret (Some p1) ->
  (x ← of_int o2; q ← fdiv x (Fin t); f ← math_floor (fmul q (Fin 100));
   Ret (Some (Z.max 0 (Z.min 100 f)))) = Ret (Some p2) ->
  (p1 <= p2)%Z.
Proof.
  intros Ht Ho. unfold of_int.
  destruct (round (inject_Z o1)) as [| |x1] eqn:R1; try discriminate.
  destruct (round (inject_Z o2)) as [| |x2] eqn:R2; try discriminate.
  cbn. rewrite (Qzero_false_pos t Ht). cbn.
  destruct (round (x1 / t)) as [| s1 |q1] eqn:Q1; cbn; try discriminate.
  destruct (round (x2 / t)) as [| s2 |q2] eqn:Q2; cbn; try discriminate.
  destruct (round (q1 * 100)) as [| |r1] eqn:P1; cbn; try discriminate.
  destruct (round (q2 * 100)) as [| |r2] eqn:P2; cbn; try discriminate.
  intros [= <-] [= <-].
  apply clamp_mono, Qfloor_resp_le.
  assert (Hx : x1 <= x2).
  { apply (round_mono (inject_Z o1) (inject_Z o2)); [| assumption | assumption].
    rewrite <- Zle_Qle. exact Ho. }
  assert (Hq : q1 <= q2).
  { apply (round_mono (x1 / t) (x2 / t)); [| assumption | assumption].
    apply Qmult_le_compat_r; [exact Hx |].
    apply Qlt_le_weak, Qinv_lt_0_compat, Ht. }
  apply (round_mono (q1 * 100) (q2 * 100)); [| assumption | assumption].
  apply Qmult_le_compat_r; [exact Hq | discriminate].
Qed.

(** For a fixed duration the mapping is monotone in the elapsed time. *)
Lemma progress_from_out_time_mono d o1 o2 p1 p2 :
  (o1 <= o2)%Z ->
  progress_from_out_time o1 d = Ret (Some p1) ->
  progress_from_out_time o2 d = Ret (Some p2) ->
  (p1 <= p2)%Z.
Proof.
  intros Ho. unfold progress_from_out_time.
  destruct d as [d |]; [| discriminate].
  destruct (fle d (Fin 0)); [discriminate |].
  destruct (fmul d (Fin 1000000)) as [| s | t] eqn:T.
  - (* NaN *) cbn. unfold of_int.
    destruct (round (inject_Z o1)); cbn; discriminate.
  - destruct s; [cbn; discriminate |].
    cbn. unfold of_int.
    destruct (round (inject_Z o1)); cbn; try discriminate.
    destruct (round (inject_Z o2)); cbn; try discriminate.
    unfold round. cbn. intros [= <-] [= <-]. lia.
  - destruct (fle (Fin t) (Fin 0)) eqn:F; [discriminate |].
    apply fle_fin_false in F.
    apply progress_core_mono; assumption.
Qed.

(** No duration, or a duration that is not positive: no percentage. *)
Lemma progress_from_out_time_unknown out d :
  d = None \/ (exists f, d = Some f /\ fle f (Fin 0) = true) ->
  progress_from_out_time out d = Ret None.
Proof.
  intros [-> | [f [-> Hf]]]; [reflexivity |].
  unfold progress_from_out_time. rewrite Hf. reflexivity.
Qed.

(** Whatever is returned lies between 0 and 100. *)
Lemma progress_from_out_time_range out d p :
  progress_from_out_time out d = Ret (Some p) -> (0 <= p <= 100)%Z.
Proof.
  unfold progress_from_out_time.
  destruct d as [d |]; [| discriminate].
  destruct (fle d (Fin 0)); [discriminate |].
  destruct (fle (fmul d (Fin 1000000)) (Fin 0)); [discriminate |].
  destruct (of_int out) as [x |]; cbn; [| discriminate].
  destruct (fdiv x (fmul d (Fin 1000000))) as [q |]; cbn; [| discriminate].
  destruct (math_floor (fmul q (Fin 100))) as [f |]; cbn; [| discriminate].
  intros [= <-]. lia.
Qed.

Lemma round_1 : round 1 = Fin 1.
Proof. vm_compute. reflexivity. Qed.

Lemma round_2_1000 : round (inject_Z (2 ^ 1000)) = Fin (inject_Z (2 ^ 1000)).
Proof. vm_compute. reflexivity. Qed.

Lemma round_2_1007 : round (inject_Z (2 ^ 1007)) = Fin (inject_Z (2 ^ 1007)).
Proof. vm_compute. reflexivity. Qed.

Lemma round_10_300 : exists v, round (inject_Z (10 ^ 306)) = Fin v.
Proof. eexists. vm_compute. reflexivity. Qed.

(** For an elapsed time from 0 to [2^1000] and a duration from a
    microsecond to [10^300] seconds the mapping returns a percentage,
    computed by rounding each of the three operations to binary64. *)
Lemma progress_from_out_time_returns out d :
  (0 <= out <= 2 ^ 1000)%Z -> 1 # 1000000 <= d -> d <= inject_Z (10 ^ 300) ->
  exists t x q r,
    round (d * 1000000) = Fin t /\ 1 <= t /\
    round (inject_Z out) = Fin x /\
    round (x / t) = Fin q /\
    round (q * 100) = Fin r /\
    progress_from_out_time out (Some (Fin d))
    = Ret (Some (Z.max 0 (Z.min 100 (Qfloor r)))).
Proof.
  intros [Ho1 Ho2] Hd1 Hd2.
  destruct round_10_300 as [v300 H300].
  destruct (round_below (d * 1000000) (inject_Z (10 ^ 306)) v300) as [t Ht];
    [lra | | exact H300 |].
  { replace (10 ^ 306)%Z with (10 ^ 300 * 1000000)%Z by reflexivity.
    rewrite inject_Z_mult. apply Qmult_le_compat_r; [exact Hd2 | discriminate]. }
  assert (Ht1 : 1 <= t).
  { apply (round_mono 1 (d * 1000000)); [lra | exact round_1 | exact Ht]. }
  destruct (round_below (inject_Z out) (inject_Z (2 ^ 1000)) (inject_Z (2 ^ 1000)))
    as [x Hx]; [| | exact round_2_1000 |].
  { change 0 with (inject_Z 0). rewrite <- Zle_Qle. exact Ho1. }
  { rewrite <- Zle_Qle. exact Ho2. }
  assert (Hx0 : 0 <= x).
  { apply (round_nonneg (inject_Z out)); [| exact Hx].
    change 0 with (inject_Z 0). rewrite <- Zle_Qle. exact Ho1. }
  assert (Hx1 : x <= inject_Z (2 ^ 1000)).
  { apply (round_mono (inject_Z out) (inject_Z (2 ^ 1000)));
      [| exact Hx | exact round_2_1000].
    rewrite <- Zle_Qle. exact Ho2. }
  assert (Hdiv0 : 0 <= x / t).
  { apply Qle_shift_div_l; lra. }
  assert (Hdiv1 : x / t <= inject_Z (2 ^ 1000)).
  { apply Qle_shift_div_r; [lra |].
    set (b := inject_Z (2 ^ 1000)) in *.
    assert (0 <= b) by lra. clearbody b.
    assert (b * 1 <= b * t) by (apply Qmult_le_compat_nonneg; split; lra || exact Ht1).
    lra. }
  destruct (round_below (x / t) (inject_Z (2 ^ 1000)) (inject_Z (2 ^ 1000))
              Hdiv0 Hdiv1 round_2_1000) as [q Hq].
  assert (Hq0 : 0 <= q) by (apply (round_nonneg (x / t)); assumption).
  assert (Hq1 : q <= inject_Z (2 ^ 1000)).
  { apply (round_mono (x / t) (inject_Z (2 ^ 1000)));
      [exact Hdiv1 | exact Hq | exact round_2_1000]. }
  assert (Hm1 : q * 100 <= inject_Z (2 ^ 1007)).
  { replace (2 ^ 1007)%Z with (2 ^ 1000 * 128)%Z by reflexivity.
    rewrite inject_Z_mult.
    set (b := inject_Z (2 ^ 1000)) in *. clearbody b.
    change (inject_Z 128) with 128. lra. }
  destruct (round_below (q * 100) (inject_Z (2 ^ 1007)) (inject_Z (2 ^ 1007)))
    as [r Hr]; [lra | exact Hm1 | exact round_2_1007 |].
  exists t, x, q, r. repeat split; try assumption.
  unfold progress_from_out_time.
  assert (Hfle : fle (Fin d) (Fin 0) = false).
  { cbn. destruct (Qle_bool d 0) eqn:E; [| reflexivity].
    apply Qle_bool_iff in E. exfalso. lra. }
  rewrite Hfle. cbn [fmul]. rewrite Ht.
  assert (Hfle' : fle (Fin t) (Fin 0) = false).
  { cbn. destruct (Qle_bool t 0) eqn:E; [| reflexivity].
    apply Qle_bool_iff in E. exfalso. lra. }
  rewrite Hfle'. unfold of_int. rewrite Hx. cbn.
  rewrite (Qzero_false_pos t) by lra. cbn.
  rewrite Hq. cbn. rewrite Hr. reflexivity.
Qed.

End FfmpegFacts.

(** ** Python strings *)

Module PyStrFacts.
Import PyStr Spec.

(** The string operations on sample texts, as Python evaluates them. *)

Example int_ex1 : int " 1_000 " = Some 1000%Z. Proof. reflexivity. Qed.
Example int_ex2 : int "-42" = Some (-42)%Z. Proof. reflexivity. Qed.
Example int_ex3 : int "N/A" = None. Proof. reflexivity. Qed.
Example int_ex4 : int "1__0" = None. Proof. reflexivity. Qed.
Example int_ex5 : int "" = None. Proof. reflexivity. Qed.
Example strip_ex : strip "  a b  " = "a b". Proof. reflexivity. Qed.
Example split_ex : split_eq "a=b=c" = Some ("a", "b=c"). Proof. reflexivity. Qed.
Example lower_ex : lower "Invalid Data" = "invalid data". Proof. reflexivity. Qed.
Example contains_ex : contains "val" "Invalid Data" = true. Proof. reflexivity. Qed.
Example join_ex : join "; " ["a"; "b"] = "a; b". Proof. reflexivity. Qed.


Lemma prefix_cons a s1 b s2 :
  String.prefix (String a s1) (String b s2) = true <->
  a = b /\ String.prefix s1 s2 = true.
Proof.
  cbn. destruct (ascii_dec a b) as [-> | Hne]; split.
  - auto.
  - intros [_ H]. exact H.
  - discriminate.
  - intros [H _]. contradiction.
Qed.

Lemma prefix_lower a b :
  String.prefix a b = true -> String.prefix (lower a) (lower b) = true.
Proof.
  revert b. induction a as [| c a IH]; intros b; [destruct b; reflexivity |].
  destruct b as [| d b]; [discriminate |].
  intros H. apply prefix_cons in H as [-> H].
  change (lower (String d a)) with (String (lower_char d) (lower a)).
  change (lower (String d b)) with (String (lower_char d) (lower b)).
  apply prefix_cons. split; [reflexivity | apply IH, H].
Qed.

Lemma contains_cons sub c s :
  contains sub (String c s) = String.prefix sub (String c s) || contains sub s.
Proof. reflexivity. Qed.

Lemma contains_lower sub s :
  contains sub s = true -> contains (lower sub) (lower s) = true.
Proof.
  induction s as [| c s IH].
  - cbn. rewrite !orb_false_r. apply (prefix_lower sub "").
  - rewrite contains_cons. intros H. apply orb_true_iff in H as [H | H].
    + change (lower (String c s)) with (String (lower_char c) (lower s)).
      rewrite contains_cons. apply orb_true_iff. left.
      apply (prefix_lower sub (String c s)), H.
    + change (lower (String c s)) with (String (lower_char c) (lower s)).
      rewrite contains_cons. apply orb_true_iff. right. apply IH, H.
Qed.

Lemma contains_lstrip sub s :
  starts_nonspace sub = true -> contains sub s = true ->
  contains sub (lstrip s) = true.
Proof.
  intros Hsub. induction s as [| c s IH]; [auto |].
  cbn [lstrip]. destruct (isspace c) eqn:Ec; [| auto].
  rewrite contains_cons. intros H. apply orb_true_iff in H as [H | H].
  - destruct sub as [| a sub]; [discriminate |].
    apply prefix_cons in H as [-> _]. cbn in Hsub. rewrite Ec in Hsub. discriminate.
  - apply IH, H.
Qed.

Lemma rstrip_cons c s :
  rstrip (String c s) =
  match rstrip s with
  | EmptyString => if isspace c then EmptyString else String c EmptyString
  | r => String c r
  end.
Proof. reflexivity. Qed.

Lemma prefix_rstrip sub s :
  ends_nonspace sub = true -> String.prefix sub s = true ->
  String.prefix sub (rstrip s) = true.
Proof.
  revert s. induction sub as [| a sub IH]; intros s Hsub; [discriminate |].
  destruct s as [| c s]; [discriminate |].
  intros H. apply prefix_cons in H as [-> H].
  rewrite rstrip_cons. destruct sub as [| b sub].
  - cbn in Hsub. apply negb_true_iff in Hsub. rewrite Hsub.
    destruct (rstrip s); apply prefix_cons; auto.
  - assert (Hs : ends_nonspace (String b sub) = true) by exact Hsub.
    specialize (IH s Hs H).
    destruct (rstrip s) as [| d r]; [discriminate |].
    apply prefix_cons. auto.
Qed.

Lemma contains_nonempty sub s :
  sub <> EmptyString -> contains sub s = true -> s <> EmptyString.
Proof.
  intros Hsub H ->. destruct sub; [contradiction | discriminate].
Qed.

Lemma contains_rstrip sub s :
  ends_nonspace sub = true -> contains sub s = true ->
  contains sub (rstrip s) = true.
Proof.
  intros Hsub. assert (Hne : sub <> EmptyString) by (intros ->; discriminate).
  induction s as [| c s IH]; [auto |].
  rewrite contains_cons. intros H. apply orb_true_iff in H as [H | H].
  - pose proof (prefix_rstrip sub (String c s) Hsub H) as Hp.
    destruct (rstrip (String c s)); cbn in *; rewrite Hp; reflexivity.
  - specialize (IH H). rewrite rstrip_cons.
    pose proof (contains_nonempty _ _ Hne IH) as Hr.
    destruct (rstrip s) as [| d r]; [contradiction |].
    rewrite contains_cons. apply orb_true_iff. right. exact IH.
Qed.

(** A text within [s] that neither starts nor ends with white space and
    has no capital letter is within the lowered, stripped [s]. *)
Lemma contains_lower_strip sub s :
  starts_nonspace sub = true -> ends_nonspace sub = true -> lower sub = sub ->
  contains sub s = true -> contains sub (lower (strip s)) = true.
Proof.
  intros H1 H2 H3 H. rewrite <- H3. apply contains_lower.
  unfold strip. apply contains_rstrip; [exact H2 |].
  apply contains_lstrip; assumption.
Qed.

Lemma isspace_lower_char c : isspace (lower_char c) = isspace c.
Proof. destruct c as [[] [] [] [] [] [] [] []]; reflexivity. Qed.

Lemma lower_lstrip s : lower (lstrip s) = lstrip (lower s).
Proof.
  induction s as [| c s IH]; [reflexivity |].
  cbn. rewrite isspace_lower_char. destruct (isspace c); [exact IH | reflexivity].
Qed.

Lemma lower_rstrip s : lower (rstrip s) = rstrip (lower s).
Proof.
  induction s as [| c s IH]; [reflexivity |].
  change (lower (String c s)) with (String (lower_char c) (lower s)).
  rewrite !rstrip_cons, <- IH, isspace_lower_char.
  destruct (rstrip s); cbn; [destruct (isspace c) |]; reflexivity.
Qed.

Lemma lower_strip s : lower (strip s) = strip (lower s).
Proof. unfold strip. rewrite lower_rstrip, lower_lstrip. reflexivity. Qed.

(** A text that neither starts nor ends with white space survives
    [strip]. *)
Lemma contains_strip sub s :
  starts_nonspace sub = true -> ends_nonspace sub = true ->
  contains sub s = true -> contains sub (strip s) = true.
Proof.
  intros H1 H2 H. unfold strip. apply contains_rstrip; [exact H2 |].
  apply contains_lstrip; assumption.
Qed.

End PyStrFacts.

(** ** The batch handle *)

Module EngineFacts.
Import Float64 Ffmpeg Engine Spec.

Lemma _terminate_process_eq p : _terminate_process p = (Ret tt, terminated p).
Proof.
  unfold _terminate_process, terminated, proc_terminate, proc_wait, proc_kill,
    exited_within.
  destruct (terminate_fails p) eqn:Et; cbn; [reflexivity |].
  destruct (exit_delay p) as [d |]; cbn.
  - destruct (d <=? 3)%nat; cbn; [reflexivity |].
    destruct (kill_fails p); reflexivity.
  - destruct (kill_fails p); reflexivity.
Qed.

Lemma signals_terminated p :
  signals (terminated p) =
    signals p ++ SIGTERM ::
      (if terminate_fails p || exited_within 3 p then [] else [SIGKILL]).
Proof.
  unfold terminated. destruct (terminate_fails p || exited_within 3 p); cbn.
  - reflexivity.
  - rewrite <- app_assoc. reflexivity.
Qed.

Lemma terminate_all_eq r :
  terminate_all r = (Ret tt, prod_map Datatypes.id terminated <$> r).
Proof.
  induction r as [| [k p] r IH]; [reflexivity |].
  cbn. rewrite _terminate_process_eq, IH. reflexivity.
Qed.

Lemma positions_of_spec st l n i :
  i ∈ positions_of st n l <->
  exists j it, i = (n + j)%nat /\ l !! j = Some it /\ status it = st.
Proof.
  revert n. induction l as [| a l IH]; intros n; cbn.
  - split; [intros H; inversion H | intros (j & it & _ & H & _); discriminate].
  - unfold status_eqb. case_bool_decide as Hs.
    + rewrite elem_of_cons, IH. split.
      * intros [-> | (j & it & -> & Hj & Hit)].
        -- exists 0%nat, a. split; [lia | split; [reflexivity | exact Hs]].
        -- exists (S j), it. split; [lia | split; assumption].
      * intros (j & it & -> & Hj & Hit). destruct j as [| j].
        -- left. lia.
        -- right. exists j, it. split; [lia | split; assumption].
    + rewrite IH. split.
      * intros (j & it & -> & Hj & Hit). exists (S j), it.
        split; [lia | split; assumption].
      * intros (j & it & -> & Hj & Hit). destruct j as [| j].
        -- cbn in Hj. injection Hj as ->. contradiction.
        -- exists j, it. split; [lia | split; assumption].
Qed.

Lemma sweep_item_status it : status (sweep_item it) <> STATUS_QUEUED.
Proof.
  unfold sweep_item, status_eqb. case_bool_decide; cbn; congruence.
Qed.

Lemma sweep_item_idem it : sweep_item (sweep_item it) = sweep_item it.
Proof.
  unfold sweep_item at 1. unfold status_eqb.
  case_bool_decide as H; [| reflexivity].
  exfalso. exact (sweep_item_status it H).
Qed.

Lemma report_spec l updated ev :
  ev ∈ report true l updated <->
  exists i it, i ∈ updated /\ l !! i = Some it /\ ev = EvItemUpdate it.
Proof.
  unfold report. rewrite list_elem_of_omap. split.
  - intros (i & Hi & Hev). destruct (l !! i) as [it |] eqn:E; [| discriminate].
    cbn in Hev. injection Hev as <-. eauto.
  - intros (i & it & Hi & Hl & ->). exists i. split; [exact Hi |].
    rewrite Hl. reflexivity.
Qed.

Lemma join_all_ge now ts t : join_all now ts = Some t -> (now <= t)%nat.
Proof.
  revert now. induction ts as [| a ts IH]; intros now; cbn.
  - intros [= ->]. lia.
  - destruct (finishes_at a) as [f |]; [| discriminate].
    intros H. apply IH in H. lia.
Qed.

Lemma join_all_finished now ts t th :
  join_all now ts = Some t -> th ∈ ts -> thread_alive t th = false.
Proof.
  revert now. induction ts as [| a ts IH]; intros now; cbn.
  - intros _ H. inversion H.
  - destruct (finishes_at a) as [f |] eqn:Ef; [| discriminate].
    intros Hj Hin. apply elem_of_cons in Hin as [-> | Hin].
    + unfold thread_alive. rewrite Ef. apply join_all_ge in Hj.
      apply Nat.ltb_ge. lia.
    + eapply IH; eassumption.
Qed.

Lemma join_all_again now ts t :
  join_all now ts = Some t -> join_all t ts = Some t.
Proof.
  revert now. induction ts as [| a ts IH]; intros now; cbn.
  - reflexivity.
  - destruct (finishes_at a) as [f |] eqn:Ef; [| discriminate].
    intros Hj. pose proof (join_all_ge _ _ _ Hj) as Hge.
    replace (Nat.max t f) with t by lia. eapply IH. exact Hj.
Qed.

Lemma join_all_none now ts :
  join_all now ts = None <-> exists th, th ∈ ts /\ finishes_at th = None.
Proof.
  revert now. induction ts as [| a ts IH]; intros now; cbn.
  - split; [discriminate | intros (th & H & _); inversion H].
  - destruct (finishes_at a) as [f |] eqn:Ef.
    + rewrite IH. split.
      * intros (th & Hin & Hth). exists th. rewrite elem_of_cons. auto.
      * intros (th & Hin & Hth). apply elem_of_cons in Hin as [-> | Hin].
        -- congruence.
        -- eauto.
    + split; [intros _ | reflexivity]. exists a. rewrite elem_of_cons. auto.
Qed.

End EngineFacts.

(** ** Destination names *)

Module PathFacts.
Import Engine Spec.

Lemma string_length_app (a b : string) :
  String.length (a +:+ b) = (String.length a + String.length b)%nat.
Proof.
  induction a as [| c a IH]; [reflexivity |].
  change (String c a +:+ b) with (String c (a +:+ b)). cbn. rewrite IH. reflexivity.
Qed.

Lemma string_app_inj_r (a b t : string) : a +:+ t = b +:+ t -> a = b.
Proof.
  revert b. induction a as [| c a IH]; intros [| d b] H.
  - reflexivity.
  - apply (f_equal String.length) in H.
    rewrite !string_length_app in H. cbn in H. lia.
  - apply (f_equal String.length) in H.
    rewrite !string_length_app in H. cbn in H. lia.
  - change (String c (a +:+ t) = String d (b +:+ t)) in H.
    injection H as -> H. f_equal. apply IH, H.
Qed.

Lemma path_str_with_name_inj p n m :
  path_str (with_name p n) = path_str (with_name p m) -> n = m.
Proof.
  unfold path_str, with_name. cbn.
  destruct (decide (dir p = "")); [tauto |].
  intros H. apply String.app_inj in H. apply String.app_inj in H. exact H.
Qed.

(** Two counters give two candidate names. *)
Lemma suffix_candidate_inj p n m :
  path_str (suffix_candidate p n) = path_str (suffix_candidate p m) -> n = m.
Proof.
  intros H. apply path_str_with_name_inj in H.
  apply String.app_inj in H. apply String.app_inj in H.
  apply string_app_inj_r in H. apply (inj pretty) in H. exact H.
Qed.

Lemma temp_candidate_inj p n m :
  path_str (temp_candidate p n) = path_str (temp_candidate p m) -> n = m.
Proof.
  unfold temp_candidate. destruct (decide (suffix p = "")); intros H;
    apply path_str_with_name_inj in H;
    apply String.app_inj in H; apply String.app_inj in H.
  - apply (inj pretty) in H. exact H.
  - apply string_app_inj_r in H. apply (inj pretty) in H. exact H.
Qed.

(** Among [size fs + 1] consecutive candidates of an injective family one
    is not in [fs]. *)
Lemma free_candidate (cand : nat -> string) (fs : gset string) (c : nat) :
  (forall n m, cand n = cand m -> n = m) ->
  exists k, (k < S (size fs))%nat /\ cand (c + k)%nat ∉ fs.
Proof.
  intros Hinj.
  set (l := (fun k => cand (c + k)%nat) <$> seq 0 (S (size fs))).
  assert (Hnd : NoDup l).
  { apply NoDup_fmap_2; [| apply NoDup_seq].
    intros a b Hab. apply Hinj in Hab. lia. }
  destruct (decide (Forall (fun s => s ∈ fs) l)) as [Hall | Hnot].
  - exfalso.
    assert (Hsub : list_to_set (C := gset string) l ⊆ fs).
    { intros s Hs. apply elem_of_list_to_set in Hs.
      rewrite Forall_forall in Hall. apply Hall, Hs. }
    apply subseteq_size in Hsub.
    rewrite size_list_to_set in Hsub by exact Hnd.
    unfold l in Hsub. rewrite length_fmap, length_seq in Hsub. lia.
  - apply not_Forall_Exists in Hnot; [| intros s; apply _].
    apply Exists_exists in Hnot as (s & Hs & Hfree).
    unfold l in Hs. apply list_elem_of_fmap in Hs as (k & -> & Hk).
    apply elem_of_seq in Hk. exists k. split; [lia | exact Hfree].
Qed.

(** The loop returns the first free candidate from [counter] on, when
    there is one within [fuel] steps. *)
Lemma suffix_loop_spec fuel fs p c :
  (exists k, (k < fuel)%nat /\ path_str (suffix_candidate p (c + k)) ∉ fs) ->
  exists N,
    (suffix_loop fuel fs p c = Some (suffix_candidate p N)) /\
    (c <= N)%nat /\
    (path_str (suffix_candidate p N) ∉ fs) /\
    forall k, (c <= k < N)%nat -> path_str (suffix_candidate p k) ∈ fs.
Proof.
  revert c. induction fuel as [| fuel IH]; intros c (k & Hk & Hfree); [lia |].
  cbn. unfold exists_. case_bool_decide as Hc.
  - destruct k as [| k].
    { rewrite Nat.add_0_r in Hfree. contradiction. }
    destruct (IH (S c)) as (N & HN & Hle & HNfree & Hbelow).
    { exists k. split; [lia |]. replace (S c + k)%nat with (c + S k)%nat by lia.
      exact Hfree. }
    exists N. split; [exact HN |]. split; [lia |]. split; [exact HNfree |].
    intros j Hj. destruct (decide (j = c)) as [-> | Hne]; [exact Hc |].
    apply Hbelow. lia.
  - exists c. split; [reflexivity |]. split; [lia |]. split; [exact Hc |].
    intros j Hj. lia.
Qed.

(** [_suffix_path] returns, and what it returns. *)
Lemma _suffix_path_spec fs p :
  exists N,
    (_suffix_path fs p = Some (suffix_candidate p N)) /\
    (1 <= N)%nat /\
    (path_str (suffix_candidate p N) ∉ fs) /\
    forall k, (1 <= k < N)%nat -> path_str (suffix_candidate p k) ∈ fs.
Proof.
  apply suffix_loop_spec.
  apply (free_candidate (fun n => path_str (suffix_candidate p n)) fs 1).
  intros n m. apply suffix_candidate_inj.
Qed.

Lemma temp_loop_total fuel fs p c :
  (exists k, (k < fuel)%nat /\ path_str (temp_candidate p (c + k)) ∉ fs) ->
  exists t, temp_loop fuel fs p c = Some t.
Proof.
  revert c. induction fuel as [| fuel IH]; intros c (k & Hk & Hfree); [lia |].
  cbn. unfold exists_. case_bool_decide as Hc; [| eauto].
  destruct k as [| k].
  { rewrite Nat.add_0_r in Hfree. contradiction. }
  apply IH. exists k. split; [lia |].
  replace (S c + k)%nat with (c + S k)%nat by lia. exact Hfree.
Qed.

(** On a path with a name, [_temp_output_path] returns a path. *)
Lemma _temp_output_path_total fs p :
  name p <> "" -> exists t, _temp_output_path fs p = Ret (Some t).
Proof.
  intros Hn.
  assert (Hloop : exists t, temp_loop (S (size fs)) fs p 1 = Some t).
  { apply temp_loop_total.
    apply (free_candidate (fun n => path_str (temp_candidate p n)) fs 1).
    intros n m. apply temp_candidate_inj. }
  destruct Hloop as [t Ht].
  unfold _temp_output_path.
  destruct (decide (suffix p = "")).
  - destruct (decide (name p = "")); [contradiction |].
    destruct (exists_ fs _); [rewrite Ht |]; eauto.
  - destruct (exists_ fs _); [rewrite Ht |]; eauto.
Qed.

#[local] Arguments _suffix_path : simpl never.

Lemma scan_file_total config fs stat item_id w :
  exists r, scan_file config fs stat item_id w = Some r.
Proof.
  unfold scan_file. case_bool_decide; [| eauto].
  destruct (decide (output_dir config = "")); cbn; [eauto |].
  destruct (exists_ fs _); cbn; [| eauto].
  destruct (decide (collision_policy config = "skip")); cbn; [eauto |].
  destruct (decide (collision_policy config = "suffix")); cbn; [| eauto].
  destruct (_suffix_path_spec fs
              (mkPath (join_dir (output_dir config) (rel_dir w)) (file_name w)))
    as (N & -> & _). cbn. eauto.
Qed.

Lemma scan_loop_total config fs stat item_id files :
  exists l, scan_loop config fs stat item_id files = Some l.
Proof.
  revert item_id. induction files as [| w files IH]; intros item_id; cbn; [eauto |].
  destruct (scan_file_total config fs stat item_id w) as [r ->]. cbn.
  destruct r as [it |].
  - destruct (IH (item_id + 1)%Z) as [l ->]. cbn. eauto.
  - apply IH.
Qed.

(** Every item of a scan is the item of one of the walked files. *)
Lemma scan_loop_elem config fs stat item_id files l it :
  scan_loop config fs stat item_id files = Some l -> it ∈ l ->
  exists i w, w ∈ files /\ scan_file config fs stat i w = Some (Some it).
Proof.
  revert item_id l. induction files as [| w files IH]; intros item_id l; cbn.
  - intros [= <-] H. inversion H.
  - destruct (scan_file config fs stat item_id w) as [r |] eqn:E; cbn; [| discriminate].
    destruct r as [it0 |].
    + destruct (scan_loop config fs stat (item_id + 1) files) as [rest |] eqn:E2;
        cbn; [| discriminate].
      intros [= <-] Hin. apply elem_of_cons in Hin as [-> | Hin].
      * exists item_id, w. split; [apply elem_of_cons; auto | exact E].
      * destruct (IH _ _ E2 Hin) as (i & w' & Hw' & Hsf).
        exists i, w'. split; [apply elem_of_cons; auto | exact Hsf].
    + intros Hl Hin. destruct (IH _ _ Hl Hin) as (i & w' & Hw' & Hsf).
      exists i, w'. split; [apply elem_of_cons; auto | exact Hsf].
Qed.

(** Under the policy [suffix], with an output directory, the destination
    of an item is the destination of its file when that is free, and the
    first free numbered candidate otherwise. *)
Lemma scan_file_suffix config fs stat item_id w it :
  collision_policy config = "suffix" -> output_dir config <> "" ->
  scan_file config fs stat item_id w = Some (Some it) ->
  ((path_str (destination config w) ∉ fs) /\
   output_path it = path_str (destination config w)) \/
  (path_str (destination config w) ∈ fs /\
   exists N, (1 <= N)%nat /\
     output_path it = path_str (suffix_candidate (destination config w) N) /\
     (path_str (suffix_candidate (destination config w) N) ∉ fs) /\
     forall k, (1 <= k < N)%nat ->
       path_str (suffix_candidate (destination config w) k) ∈ fs).
Proof.
  intros Hpol Hout. unfold scan_file, destination.
  case_bool_decide; [| discriminate].
  destruct (decide (output_dir config = "")); [contradiction |]. cbn.
  unfold exists_. case_bool_decide as Hex; cbn.
  - destruct (decide (collision_policy config = "skip")) as [Hs | _];
      [rewrite Hpol in Hs; discriminate |].
    destruct (decide (collision_policy config = "suffix")); [| contradiction].
    destruct (_suffix_path_spec fs
                (mkPath (join_dir (output_dir config) (rel_dir w)) (file_name w)))
      as (N & HN & Hle & Hfree & Hbelow).
    rewrite HN. cbn. intros [= <-]. right. split; [exact Hex |].
    exists N. cbn. auto.
  - intros [= <-]. left. cbn. auto.
Qed.

(** The destinations of a scan do not depend on what [stat()] answers. *)
Lemma scan_file_stat config fs stat1 stat2 item_id w :
  fmap (M := option) (fmap (M := option) output_path)
    (scan_file config fs stat1 item_id w)
  = fmap (M := option) (fmap (M := option) output_path)
      (scan_file config fs stat2 item_id w).
Proof.
  unfold scan_file. case_bool_decide; [| reflexivity].
  destruct (decide (output_dir config = "")); cbn; [reflexivity |].
  destruct (exists_ fs _); cbn; [| reflexivity].
  destruct (decide (collision_policy config = "skip")); cbn; [reflexivity |].
  destruct (decide (collision_policy config = "suffix")); cbn; [| reflexivity].
  destruct (_suffix_path fs _); reflexivity.
Qed.

Lemma scan_loop_stat config fs stat1 stat2 item_id files :
  fmap (M := option) (fmap (M := list) output_path)
    (scan_loop config fs stat1 item_id files)
  = fmap (M := option) (fmap (M := list) output_path)
      (scan_loop config fs stat2 item_id files).
Proof.
  revert item_id. induction files as [| w files IH]; intros item_id; cbn;
    [reflexivity |].
  pose proof (scan_file_stat config fs stat1 stat2 item_id w) as E.
  destruct (scan_file config fs stat1 item_id w) as [[it1 |] |];
    destruct (scan_file config fs stat2 item_id w) as [[it2 |] |];
    cbn in E; try congruence; cbn.
  - specialize (IH (item_id + 1)%Z).
    destruct (scan_loop config fs stat1 (item_id + 1) files);
      destruct (scan_loop config fs stat2 (item_id + 1) files);
      cbn in *; congruence.
  - apply IH.
  - reflexivity.
Qed.

(** [_temp_output_path] returns a path or raises: its loop ends. *)
Lemma _temp_output_path_returns fs p : _temp_output_path fs p <> Ret None.
Proof.
  destruct (decide (name p = "")) as [Hn | Hn].
  - unfold _temp_output_path, suffix. rewrite Hn. cbn. discriminate.
  - destruct (_temp_output_path_total fs p Hn) as [t ->]. discriminate.
Qed.

End PathFacts.

(** ** One run of the worker body *)

Module RunFacts.
Import Float64 Ffmpeg Engine Spec EngineFacts PathFacts FfmpegFacts.

Lemma _emit_item_eq cb w : _emit_item cb w = Some (Ret tt, w_emit cb w).
Proof.
  unfold _emit_item, w_emit. destruct cb; cbn; [reflexivity |].
  rewrite app_nil_r. destruct w; reflexivity.
Qed.

(** The end marker sets the progress to 100 and reports it, whatever the
    item holds. *)
Lemma on_line_end cb line w :
  line_event line = Some (inr tt) ->
  on_line cb line w = Some (Ret tt, w_emit cb (w_progress (Some 100%Z) w)).
Proof.
  unfold line_event, on_line.
  destruct (PyStr.split_eq (PyStr.strip line)) as [[key value] |]; [| discriminate].
  destruct (decide (key = "out_time_ms")).
  { destruct (PyStr.int value); discriminate. }
  destruct (decide (key = "progress" ∧ value = "end")); [| discriminate].
  intros _. unfold mbind, M_bind. cbn. apply _emit_item_eq.
Qed.

Lemma on_line_none cb line w :
  line_event line = None -> on_line cb line w = Some (Ret tt, w).
Proof.
  unfold line_event, on_line.
  destruct (PyStr.split_eq (PyStr.strip line)) as [[key value] |]; [| reflexivity].
  destruct (decide (key = "out_time_ms")).
  { destruct (PyStr.int value); [discriminate | reflexivity]. }
  destruct (decide (key = "progress" ∧ value = "end")); [discriminate | reflexivity].
Qed.

(** An elapsed time: the mapping decides. *)
Lemma on_line_elapsed cb line z w :
  line_event line = Some (inl z) ->
  on_line cb line w =
  match progress_from_out_time z (item_duration (w_item w)) with
  | Raise e => Some (Raise e, w)
  | Ret None => Some (Ret tt, w)
  | Ret (Some v) =>
      if decide (Some v = progress (w_item w)) then Some (Ret tt, w)
      else Some (Ret tt, w_emit cb (w_progress (Some v) w))
  end.
Proof.
  unfold line_event, on_line.
  destruct (PyStr.split_eq (PyStr.strip line)) as [[key value] |]; [| discriminate].
  destruct (decide (key = "out_time_ms")).
  - destruct (PyStr.int value) as [z' |]; [| discriminate].
    intros [= ->]. unfold mbind, M_bind, lift_res. cbn.
    destruct (progress_from_out_time z (item_duration (w_item w))) as [[v |] |];
      try reflexivity.
    destruct (decide (Some v = progress (w_item w))); [reflexivity |].
    cbn. apply _emit_item_eq.
  - destruct (decide (key = "progress" ∧ value = "end")); discriminate.
Qed.

Lemma read_stdout_cons env cb line rest w :
  read_stdout env cb (line :: rest) w =
  if cancel_seen env w then terminate_current (w_check w)
  else match on_line cb line (w_check w) with
       | Some (Ret _, w1) => read_stdout env cb rest w1
       | Some (Raise e, w1) => Some (Raise e, w1)
       | None => None
       end.
Proof.
  cbn. unfold mbind, M_bind, cancel_is_set, cancel_seen, w_check.
  destruct (cancel_after env) as [k |]; [| reflexivity].
  destruct (k <=? w_checks w)%nat; reflexivity.
Qed.

Lemma terminate_current_eq w :
  exists w', terminate_current w = Some (Ret tt, w') /\
    w_item w' = w_item w /\ w_trace w' = w_trace w.
Proof.
  unfold terminate_current. destruct (w_proc w) as [p |]; [| eauto].
  rewrite _terminate_process_eq. eauto.
Qed.

Lemma last_progress_cons it v vals :
  last_progress (set_progress (Some v) it) vals = last_progress it (v :: vals).
Proof.
  unfold last_progress. rewrite last_cons. destruct (last vals); reflexivity.
Qed.

(** The loop over the progress stream returns; it changes nothing of the
    item but its progress, and reports a chain of values. *)
Lemma read_stdout_chain env cb lines :
  forall w ended prev,
    stream_ok ended prev (omap line_event lines) ->
    good_cur ended (item_duration (w_item w)) prev (progress (w_item w)) ->
    exists r w' vals,
      read_stdout env cb lines w = Some (r, w') /\
      w_trace w' = w_trace w ++ reported cb (w_item w) vals /\
      w_item w' = last_progress (w_item w) vals /\
      chain (progress (w_item w)) vals.
Proof.
  induction lines as [| line rest IH]; intros w ended prev Hs Hg.
  - exists (Ret tt), w, []. cbn. unfold reported. destruct cb; cbn;
      rewrite ?app_nil_r; auto.
  - rewrite read_stdout_cons. destruct (cancel_seen env w).
    { destruct (terminate_current_eq (w_check w)) as (w' & -> & Hi & Ht).
      exists (Ret tt), w', []. unfold reported. destruct cb; cbn;
        rewrite ?app_nil_r; auto. }
    change (omap line_event (line :: rest))
      with (match line_event line with
            | Some y => y :: omap line_event rest
            | None => omap line_event rest
            end) in Hs.
    destruct (line_event line) as [[z | []] |] eqn:Ev.
    + (* an elapsed time *)
      cbn in Hs. destruct Hs as (-> & Hprev & Hs).
      rewrite (on_line_elapsed cb line z _ Ev). cbn [w_check w_item].
      destruct (progress_from_out_time z (item_duration (w_item w)))
        as [[v |] |] eqn:Ep.
      * pose proof (progress_from_out_time_range _ _ _ Ep) as Hv.
        assert (Hnext : good_cur false (item_duration (w_item w)) (Some z) (Some v)).
        { split; [lia |]. intros _ z' p Hz Hp.
          eapply progress_from_out_time_mono; eassumption. }
        destruct (decide (Some v = progress (w_item w))) as [Heq | Hne].
        -- destruct (IH (w_check w) false (Some z) Hs) as (r & w' & vals & H).
           { cbn. rewrite <- Heq. exact Hnext. }
           exists r, w', vals. exact H.
        -- destruct (IH (w_emit cb (w_progress (Some v) (w_check w))) false (Some z) Hs)
             as (r & w' & vals & Hr & Ht & Hi & Hc).
           { exact Hnext. }
           exists r, w', (v :: vals). split; [exact Hr |].
           split; [| split].
           ++ rewrite Ht. cbn. unfold reported. destruct cb; cbn;
                rewrite <- ?app_assoc; reflexivity.
           ++ rewrite Hi. cbn. apply last_progress_cons.
           ++ cbn. split; [lia |]. split; [| exact Hc].
              destruct (progress (w_item w)) as [c |]; [| exact I].
              destruct Hg as [_ Hlb]. apply (Hlb eq_refl z v Hprev Ep).
      * destruct (IH (w_check w) false (Some z) Hs) as (r & w' & vals & H).
        { cbn. unfold good_cur in *.
          destruct (progress (w_item w)) as [c |]; [| exact I].
          destruct Hg as [Hc Hlb]. split; [exact Hc |].
          intros _ z' p Hz Hp. apply (Hlb eq_refl z' p); [| exact Hp].
          destruct prev; [lia | exact I]. }
        exists r, w', vals. exact H.
      * exists (Raise e), (w_check w), []. unfold reported. destruct cb; cbn;
          rewrite ?app_nil_r; auto.
    + (* the end marker *)
      cbn in Hs. rewrite (on_line_end cb line _ Ev).
      destruct (IH (w_emit cb (w_progress (Some 100%Z) (w_check w))) true prev Hs)
        as (r & w' & vals & Hr & Ht & Hi & Hc).
      { cbn. split; [lia | discriminate]. }
      exists r, w', (100%Z :: vals). split; [exact Hr |].
      split; [| split].
      * rewrite Ht. cbn. unfold reported. destruct cb; cbn;
          rewrite <- ?app_assoc; reflexivity.
      * rewrite Hi. cbn. apply last_progress_cons.
      * cbn. split; [lia |]. split; [| exact Hc].
        destruct (progress (w_item w)) as [c |]; [| exact I].
        destruct Hg as [Hle _]. exact Hle.
    + (* a line the loop does not read *)
      rewrite (on_line_none cb line _ Ev).
      destruct (IH (w_check w) ended prev Hs Hg) as (r & w' & vals & H).
      exists r, w', vals. exact H.
Qed.

(** A dry run, when no cancellation is seen at its start, the output
    directory can be made and the output path has a file name. *)
Lemma _process_item_dry_run config cb env w :
  dry_run config = true ->
  cancel_seen env w = false ->
  mkdir_error env = None ->
  name (Path_of (output_path (w_item w))) <> "" ->
  exists w',
    _process_item config cb env w = Some (Ret tt, w') /\
    w_item w' = dry_ended env (w_item w) /\
    w_reg w' = w_reg w /\
    w_proc w' = w_proc w /\
    w_trace w' =
      w_trace w ++ update cb (started env (w_item w))
        ++ [EvMkdir (dir (Path_of (output_path (w_item w))))]
        ++ update cb (dry_ended env (w_item w))
        ++ [EvLogItem (dry_ended env (w_item w))].
Proof.
  intros Hdry Hc Hmk Hname.
  destruct (_temp_output_path_total (fs env) _ Hname) as [t Ht].
  unfold _process_item, mbind, M_bind, cancel_is_set.
  unfold cancel_seen in Hc. rewrite Hc. cbn.
  rewrite _emit_item_eq. cbn. rewrite Hmk. cbn.
  unfold lift_res. rewrite Ht. cbn. rewrite Hdry. cbn.
  rewrite _emit_item_eq. cbn.
  eexists. split; [reflexivity |]. cbn.
  unfold update. destruct cb; cbn; rewrite <- ?app_assoc; cbn; auto.
Qed.

Lemma updates_app a b : updates (a ++ b) = updates a ++ updates b.
Proof. apply omap_app. Qed.

Lemma updates_update cb it : updates (update cb it) = if cb then [it] else [].
Proof. destruct cb; reflexivity. Qed.

Ltac eval_status :=
  repeat match goal with
    | |- context [status_eqb ?a ?b] =>
        let v := eval vm_compute in (status_eqb a b) in
        change (status_eqb a b) with v
    end.

Ltac run := repeat progress (cbn; eval_status).

(** [finish] returns without an exception; it reports the item once, as it
    leaves it, in a terminal status. *)
Lemma finish_spec config cb env out temp w :
  exists w' new,
    finish config cb env out temp w = Some (Ret tt, w') /\
    w_trace w' = w_trace w ++ new /\
    updates new = (if cb then [w_item w'] else []) /\
    terminal (status (w_item w')) /\
    (cancel_seen env w = false -> returncode env <> 0%Z ->
     w_item w' = set_end_time (Some (t_end env))
                   (set_error (encode_error env)
                      (set_status STATUS_FAILED (w_item w)))).
Proof.
  unfold finish, publish, _cleanup_partial, encode_error, terminal.
  unfold mbind, M_bind, mret, M_ret, cancel_is_set, cancel_seen.
  destruct (match cancel_after env with
            | Some k => (k <=? w_checks w)%nat
            | None => false
            end); cbn.
  - destruct (temp_exists env); cbn; rewrite _emit_item_eq; cbn;
      eexists; eexists; (split; [reflexivity |]); cbn;
      (split; [rewrite <- ?app_assoc; reflexivity |]);
      destruct cb; cbn; (split; [reflexivity |]); (split; [auto | discriminate]).
  - case_bool_decide as Hrc; run.
    + destruct (temp_exists env); run; rewrite _emit_item_eq; cbn;
        eexists; eexists; (split; [reflexivity |]); cbn;
        (split; [rewrite <- ?app_assoc; reflexivity |]);
        destruct cb; cbn; (split; [reflexivity |]); (split; [auto | reflexivity]).
    + unfold mret, M_ret. destruct (finalize_error env) as [msg |]; cbn.
      * destruct (temp_exists env); run; rewrite _emit_item_eq; cbn;
          eexists; eexists; (split; [reflexivity |]); cbn;
          (split; [rewrite <- ?app_assoc; reflexivity |]);
          destruct cb; cbn; (split; [reflexivity |]);
          (split; [auto | intros _ Hn; contradiction]).
      * destruct (output_exists env && bool_decide (collision_policy config = "overwrite"));
          run; rewrite _emit_item_eq; cbn;
          eexists; eexists; (split; [reflexivity |]); cbn;
          (split; [rewrite <- ?app_assoc; reflexivity |]);
          destruct cb; cbn; (split; [reflexivity |]);
          (split; [auto | intros _ Hn; contradiction]).
Qed.

Lemma chain_from_zero c vals : chain c vals -> chain (Some 0%Z) vals.
Proof.
  destruct vals as [| v vs]; cbn; [auto |].
  intros (Hv & _ & Hc). split; [exact Hv |]. split; [lia | exact Hc].
Qed.

Lemma run_reports_final new final :
  updates new = [final] \/ updates new = [] -> terminal (status final) ->
  run_reports new final.
Proof.
  intros Hu Ht. exists [], [].
  destruct Hu as [-> | ->].
  - exists [final]. cbn. repeat split; auto.
  - exists []. cbn. repeat split; auto.
Qed.

Lemma updates_reported cb it vals :
  omap as_update (reported cb it vals)
  = if cb then (fun v => set_progress (Some v) it) <$> vals else [].
Proof.
  unfold reported. destruct cb; [| reflexivity].
  induction vals as [| v vs IH]; [reflexivity |]. cbn. f_equal. exact IH.
Qed.

#[local] Arguments reported : simpl never.

Ltac solve_updates :=
  unfold updates; cbn; rewrite ?omap_app; cbn;
  rewrite ?updates_reported; cbn; rewrite ?omap_app; cbn;
  repeat match goal with H : omap as_update _ = _ |- _ => rewrite H end;
  rewrite ?app_nil_r; try reflexivity.

(** Reports of a run that started: the started item, the values of the
    loop on an item [it] that is Running, and [fin]. *)
Lemma run_reports_started (cb : bool) new final it0 it vals fin :
  updates new
  = (if cb then it0 :: ((fun v => set_progress (Some v) it) <$> vals) ++ fin else []) ->
  status it0 = STATUS_RUNNING -> progress it0 = Some 0%Z ->
  status it = STATUS_RUNNING ->
  chain (Some 0%Z) vals ->
  (fin = [] \/ (fin = [final] /\ terminal (status final))) ->
  run_reports new final.
Proof.
  intros Hu Hs0 Hp0 Hs Hc Hfin. destruct cb.
  - exists (it0 :: ((fun v => set_progress (Some v) it) <$> vals)), (0%Z :: vals), fin.
    split; [rewrite Hu; reflexivity |]. split; [| split; [| split]].
    + constructor; [exact Hs0 |]. apply Forall_fmap, Forall_forall.
      intros v _. exact Hs.
    + cbn. rewrite Hp0. f_equal. rewrite <- list_fmap_compose.
      apply list_fmap_ext. intros i v _. reflexivity.
    + cbn. split; [lia |]. split; [exact I | exact Hc].
    + exact Hfin.
  - exists [], [], []. rewrite Hu. cbn. repeat split; auto.
Qed.

Lemma _process_item_reports config cb env w r w' :
  ordered_stream (stdout_lines env) ->
  _process_item config cb env w = Some (r, w') ->
  exists new, w_trace w' = w_trace w ++ new /\ run_reports new (w_item w').
Proof.
  intros Hs. unfold _process_item, encode.
  unfold mbind, M_bind, mret, M_ret, cancel_is_set, raise, lift_res, lift_loop.
  destruct (match cancel_after env with
            | Some k => (k <=? w_checks w)%nat
            | None => false
            end); cbn.
  { rewrite _emit_item_eq. intros [= <- <-]. cbn.
    eexists. split; [reflexivity |].
    apply run_reports_final; [destruct cb; cbn; auto | cbn; unfold terminal; auto]. }
  rewrite _emit_item_eq. cbn.
  set (it0 := set_progress (Some 0%Z)
                (set_start_time (Some (t_start env))
                   (set_status STATUS_RUNNING (w_item w)))).
  destruct (mkdir_error env) as [msg |]; cbn.
  { intros [= <- <-]. cbn. eexists. split; [reflexivity |].
    apply (run_reports_started cb _ _ it0 it0 [] []); cbn; auto.
    destruct cb; reflexivity. }
  destruct (_temp_output_path (fs env) (Path_of (output_path (w_item w))))
    as [[t |] | e]; cbn; [| discriminate |].
  2: { intros [= <- <-]. cbn. eexists. split; [rewrite <- app_assoc; reflexivity |].
       apply (run_reports_started cb _ _ it0 it0 [] []); cbn; auto.
       rewrite updates_app. destruct cb; reflexivity. }
  destruct (dry_run config); cbn.
  { rewrite _emit_item_eq. cbn. intros [= <- <-]. cbn.
    eexists. split; [rewrite <- !app_assoc; reflexivity |].
    match goal with
    | |- run_reports _ ?f => apply (run_reports_started cb _ f it0 it0 [] [f])
    end; cbn; auto.
    - rewrite !updates_app. destruct cb; reflexivity.
    - right. split; [reflexivity |]. unfold terminal. auto. }
  destruct (probe_media (probe env)) as [msg | info]; cbn.
  { destruct (PyStr.contains "moov atom not found" (PyStr.lower msg)
              || PyStr.contains "invalid data found when processing input"
                   (PyStr.lower msg)); cbn;
      rewrite _emit_item_eq; cbn; intros [= <- <-]; cbn;
      (eexists; split; [rewrite <- !app_assoc; reflexivity |]);
      (match goal with
       | |- run_reports _ ?f => apply (run_reports_started cb _ f it0 it0 [] [f])
       end; cbn; auto;
       [rewrite !updates_app; destruct cb; reflexivity
       | right; split; [reflexivity |]; unfold terminal; auto]). }
  unfold popen, finally.
  assert (Hgood : forall d c, c = Some 0%Z \/ c = None ->
                    good_cur false d None c).
  { intros d c [-> | ->]; [| exact I]. split; [lia |].
    intros _ z p _ Hp. apply progress_from_out_time_range in Hp. lia. }
  destruct (match duration info with
            | Some d => truthy d
            | None => false
            end); cbn;
    (destruct (popen_error env) as [msg |]; cbn;
     [ intros [= <- <-]; cbn;
       (eexists; split; [rewrite <- !app_assoc; reflexivity |]);
       apply (run_reports_started cb _ _ it0 it0 [] []); cbn; auto;
       rewrite !updates_app; destruct cb; reflexivity
     | ]).
  all: match goal with
       | Hs : ordered_stream ?l |- context [read_stdout ?e ?c ?l ?W] =>
           destruct (read_stdout_chain e c l W false None Hs)
             as (r2 & w3 & vals & Hr & Ht & Hi & Hc);
             [apply Hgood; cbn; auto | rewrite Hr; cbn in Ht, Hi, Hc]
       end.
  all: apply chain_from_zero in Hc.
  all: destruct r2 as [[] | e]; unfold pop_current; cbn.
  all: try (intros [= <- <-]; cbn; rewrite Ht;
            (eexists; split; [rewrite <- !app_assoc; reflexivity |]);
            match goal with
            | Hi : _ = last_progress ?it ?vs, Hr : read_stdout _ ?c _ _ = _
              |- run_reports _ _ =>
                apply (run_reports_started c _ _ it0 it vs []); cbn; auto;
                destruct c; solve_updates
            end).
  all: match goal with
       | |- context [finish ?cf ?c ?e ?o ?tmp ?W] =>
           destruct (finish_spec cf c e o tmp W)
             as (w5 & newf & Hf & Htf & Huf & Hterm & _); rewrite Hf
       end.
  all: intros [= <- <-]; rewrite Htf; cbn; rewrite Ht.
  all: (eexists; split; [rewrite <- !app_assoc; reflexivity |]).
  all: match goal with
       | Hi : _ = last_progress ?it ?vs, Hr : read_stdout _ ?c _ _ = _
         |- run_reports _ (w_item ?wf) =>
           apply (run_reports_started c _ _ it0 it vs
                    (if c then [w_item wf] else [])); cbn; auto;
           unfold updates in *; destruct c; solve_updates; auto
       end.
Qed.

(** The loop over the progress stream returns on every stream. *)
Lemma read_stdout_returns env cb lines w :
  exists r w', read_stdout env cb lines w = Some (r, w').
Proof.
  revert w. induction lines as [| line rest IH]; intros w; [cbn; eauto |].
  rewrite read_stdout_cons. destruct (cancel_seen env w).
  { destruct (terminate_current_eq (w_check w)) as (w' & -> & _). eauto. }
  destruct (line_event line) as [[z | []] |] eqn:Ev.
  - rewrite (on_line_elapsed cb line z _ Ev).
    destruct (progress_from_out_time z _) as [[v |] |]; [| apply IH | eauto].
    destruct (decide (Some v = _)); apply IH.
  - rewrite (on_line_end cb line _ Ev). apply IH.
  - rewrite (on_line_none cb line _ Ev). apply IH.
Qed.

(** A run of [_process_item] returns, normally or with an exception. *)
Lemma _process_item_returns config cb env w :
  exists r w', _process_item config cb env w = Some (r, w').
Proof.
  unfold _process_item, encode.
  unfold mbind, M_bind, mret, M_ret, cancel_is_set, raise, lift_res, lift_loop.
  destruct (match cancel_after env with
            | Some k => (k <=? w_checks w)%nat
            | None => false
            end); cbn; rewrite _emit_item_eq; cbn; [eauto |].
  destruct (mkdir_error env) as [msg |]; cbn; [eauto |].
  pose proof (_temp_output_path_returns (fs env) (Path_of (output_path (w_item w))))
    as Htmp.
  destruct (_temp_output_path (fs env) (Path_of (output_path (w_item w))))
    as [[t |] | e]; cbn; [| contradiction | eauto].
  destruct (dry_run config); cbn; [rewrite _emit_item_eq; cbn; eauto |].
  destruct (probe_media (probe env)) as [msg | info]; cbn.
  { destruct (PyStr.contains "moov atom not found" (PyStr.lower msg)
              || PyStr.contains "invalid data found when processing input"
                   (PyStr.lower msg)); cbn; rewrite _emit_item_eq; cbn; eauto. }
  unfold popen, finally.
  destruct (match duration info with
            | Some d => truthy d
            | None => false
            end); cbn;
    (destruct (popen_error env) as [msg |]; cbn; [eauto |]).
  all: match goal with
       | |- context [read_stdout ?e ?c ?l ?W] =>
           destruct (read_stdout_returns e c l W) as (r2 & w3 & ->)
       end.
  all: destruct r2 as [[] | e]; unfold pop_current; cbn; [| eauto].
  all: match goal with
       | |- context [finish ?cf ?c ?e ?o ?tmp ?W] =>
           destruct (finish_spec cf c e o tmp W) as (w5 & newf & -> & _)
       end; eauto.
Qed.

(** A run whose probe raises: the job ends Failed with [probe_error]. *)
Lemma _process_item_probe_failed config cb env w error_msg :
  dry_run config = false ->
  cancel_seen env w = false ->
  mkdir_error env = None ->
  name (Path_of (output_path (w_item w))) <> "" ->
  probe_media (probe env) = inl error_msg ->
  exists w',
    _process_item config cb env w = Some (Ret tt, w') /\
    status (w_item w') = STATUS_FAILED /\
    error (w_item w') = probe_error error_msg /\
    updates (drop (length (w_trace w)) (w_trace w'))
    = (if cb then [started env (w_item w); w_item w'] else []) /\
    EvLogItem (w_item w') ∈ w_trace w'.
Proof.
  intros Hdry Hc Hmk Hname Hprobe.
  destruct (_temp_output_path_total (fs env) _ Hname) as [t Ht].
  unfold _process_item, encode, mbind, M_bind, cancel_is_set.
  unfold cancel_seen in Hc. rewrite Hc. cbn.
  rewrite _emit_item_eq. cbn. rewrite Hmk. cbn.
  unfold lift_res. rewrite Ht. cbn. rewrite Hdry. cbn. rewrite Hprobe.
  unfold probe_error.
  destruct (PyStr.contains "moov atom not found" (PyStr.lower error_msg)
            || PyStr.contains "invalid data found when processing input"
                 (PyStr.lower error_msg)); cbn;
    rewrite _emit_item_eq; cbn;
    (eexists; split; [reflexivity |]); cbn;
    (split; [reflexivity |]); (split; [reflexivity |]);
    rewrite <- !app_assoc, drop_app_length;
    (split; [destruct cb; reflexivity |]);
    set_solver.
Qed.

(** The probe of a file ffprobe rejects with the signature of a corrupted
    input. *)
Lemma probe_media_invalid_data r :
  ffprobe_found r = true -> probe_returncode r <> 0%Z ->
  PyStr.contains "invalid data found when processing input"
    (PyStr.lower (probe_stderr r)) = true ->
  probe_media r = inl (PyStr.strip (probe_stderr r)) /\
  probe_error (PyStr.strip (probe_stderr r))
  = "File is corrupted or incomplete: " +:+ PyStr.strip (probe_stderr r).
Proof.
  intros Hf Hrc Hc.
  assert (Hin : PyStr.contains "invalid data found when processing input"
                  (PyStr.lower (PyStr.strip (probe_stderr r))) = true).
  { rewrite PyStrFacts.lower_strip.
    apply PyStrFacts.contains_strip; [reflexivity | reflexivity | exact Hc]. }
  split.
  - unfold probe_media. rewrite Hf. case_bool_decide; [| contradiction].
    destruct (decide (PyStr.strip (probe_stderr r) = "")) as [He |]; [| reflexivity].
    rewrite He in Hin. discriminate.
  - unfold probe_error. rewrite Hin, orb_true_r. reflexivity.
Qed.

(** A run whose encoding process exits with a non-zero status, when no
    cancellation is seen: the job ends Failed with the joined diagnostic
    lines. *)
Lemma _process_item_encode_failed config cb env w w' info :
  dry_run config = false ->
  cancel_after env = None ->
  probe_media (probe env) = inr info ->
  returncode env <> 0%Z ->
  _process_item config cb env w = Some (Ret tt, w') ->
  status (w_item w') = STATUS_FAILED /\ error (w_item w') = encode_error env.
Proof.
  intros Hdry Hcancel Hprobe Hrc.
  unfold _process_item, encode.
  unfold mbind, M_bind, mret, M_ret, cancel_is_set, raise, lift_res, lift_loop.
  rewrite Hcancel. cbn. rewrite _emit_item_eq. cbn.
  destruct (mkdir_error env) as [msg |]; cbn; [discriminate |].
  destruct (_temp_output_path (fs env) (Path_of (output_path (w_item w))))
    as [[t |] | e]; cbn; [| discriminate | discriminate].
  rewrite Hdry, Hprobe. cbn. unfold popen, finally.
  destruct (match duration info with
            | Some d => truthy d
            | None => false
            end); cbn;
    (destruct (popen_error env) as [msg |]; cbn; [discriminate |]).
  all: match goal with
       | |- context [read_stdout ?e ?c ?l ?W] =>
           destruct (read_stdout_returns e c l W) as (r2 & w3 & ->)
       end.
  all: destruct r2 as [[] | e]; unfold pop_current; cbn; [| discriminate].
  all: match goal with
       | |- context [finish ?cf ?c ?e ?o ?tmp ?W] =>
           destruct (finish_spec cf c e o tmp W)
             as (w5 & newf & -> & _ & _ & _ & Hitem)
       end.
  all: intros [= <-]; rewrite Hitem;
    [split; reflexivity | unfold cancel_seen; rewrite Hcancel; reflexivity
    | exact Hrc].
Qed.

End RunFacts.

Import Float64 Ffmpeg Engine Spec.
Import Float64Facts FfmpegFacts PyStrFacts EngineFacts PathFacts RunFacts.
Import Obs.

(** ** Temporary paths *)

Module PathMore.

Lemma string_app_nil_r (s : string) : s +:+ "" = s.
Proof.
  induction s as [| c s IH]; [reflexivity |].
  change (String c s +:+ "") with (String c (s +:+ "")). rewrite IH. reflexivity.
Qed.

Lemma string_app_assoc (a b c : string) : (a +:+ b) +:+ c = a +:+ (b +:+ c).
Proof.
  induction a as [| x a IH]; [reflexivity |].
  change ((String x a +:+ b) +:+ c) with (String x ((a +:+ b) +:+ c)).
  change (String x a +:+ (b +:+ c)) with (String x (a +:+ (b +:+ c))).
  rewrite IH. reflexivity.
Qed.

Lemma substring_length (i n : nat) (s : string) :
  (i + n <= String.length s)%nat -> String.length (String.substring i n s) = n.
Proof.
  revert i n. induction s as [| c s IH]; intros i n H; cbn in *.
  - destruct i, n; cbn; lia.
  - destruct i as [| i]; cbn.
    + destruct n as [| n]; cbn; [reflexivity |]. rewrite IH; lia.
    + apply IH. lia.
Qed.

Lemma substring_0_app (a b : string) :
  String.substring 0 (String.length a) (a +:+ b) = a.
Proof.
  induction a as [| c a IH].
  - change ("" +:+ b) with b. destruct b; reflexivity.
  - change (String c a +:+ b) with (String c (a +:+ b)). cbn. rewrite IH. reflexivity.
Qed.

Lemma substring_all (s : string) : String.substring 0 (String.length s) s = s.
Proof. induction s as [| c s IH]; cbn; [reflexivity | rewrite IH; reflexivity]. Qed.

Lemma substring_app_r (a b : string) :
  String.substring (String.length a) (String.length b) (a +:+ b) = b.
Proof.
  induction a as [| c a IH].
  - change ("" +:+ b) with b. apply substring_all.
  - change (String c a +:+ b) with (String c (a +:+ b)). cbn. exact IH.
Qed.

(** The last dot of a name cuts it in two, with no dot in the second
    part. *)
Lemma rfind_dot_split s i :
  rfind_dot s = Some i ->
  exists a r, s = a +:+ String "." r /\ String.length a = i /\ rfind_dot r = None.
Proof.
  revert i. induction s as [| c s IH]; intros i; cbn; [discriminate |].
  destruct (rfind_dot s) as [j |] eqn:E.
  - intros [= <-]. destruct (IH j eq_refl) as (a & r & -> & Ha & Hr).
    exists (String c a), r. cbn. rewrite Ha. auto.
  - destruct (Ascii.eqb c ".") eqn:Ec; [| discriminate].
    intros [= <-]. apply Ascii.eqb_eq in Ec. subst c.
    exists "", s. auto.
Qed.

Lemma rfind_dot_app a r :
  rfind_dot r = None -> rfind_dot (a +:+ String "." r) = Some (String.length a).
Proof.
  intros Hr. induction a as [| c a IH].
  - change ("" +:+ String "." r) with (String "." r). cbn. rewrite Hr. reflexivity.
  - change (String c a +:+ String "." r) with (String c (a +:+ String "." r)).
    cbn. rewrite IH. reflexivity.
Qed.

(** A name with a suffix is its stem, a dot and a dot-free rest. *)
Lemma suffix_split p :
  suffix p <> "" ->
  exists a r,
    name p = a +:+ String "." r /\ a <> "" /\ r <> "" /\ rfind_dot r = None /\
    stem p = a /\ suffix p = String "." r.
Proof.
  unfold suffix, stem. destruct (rfind_dot (name p)) as [i |] eqn:E; [| congruence].
  destruct (rfind_dot_split _ _ E) as (a & r & Hn & Ha & Hr).
  destruct ((0 <? i)%nat && (i <? String.length (name p) - 1)%nat) eqn:Hb;
    [| congruence].
  intros _. apply andb_true_iff in Hb as [H0 H1].
  apply Nat.ltb_lt in H0. apply Nat.ltb_lt in H1.
  rewrite Hn in *. rewrite string_length_app in H1. cbn in H1.
  exists a, r. split; [reflexivity |].
  split; [intros ->; cbn in Ha; lia |].
  split; [intros ->; cbn in H1; lia |].
  split; [exact Hr |]. subst i. split.
  - apply substring_0_app.
  - replace (String.length (a +:+ String "." r) - String.length a)%nat
      with (String.length (String "." r)).
    + apply substring_app_r.
    + rewrite string_length_app. lia.
Qed.

Lemma suffix_of_split a r :
  a <> "" -> r <> "" -> rfind_dot r = None ->
  forall d, suffix (mkPath d (a +:+ String "." r)) = String "." r.
Proof.
  intros Ha Hr Hnd d. unfold suffix. cbn [name].
  rewrite (rfind_dot_app a r Hnd).
  assert (0 < String.length a)%nat by (destruct a; [congruence | cbn; lia]).
  assert (0 < String.length r)%nat by (destruct r; [congruence | cbn; lia]).
  rewrite string_length_app. cbn [String.length].
  replace ((0 <? String.length a)%nat) with true by (symmetry; apply Nat.ltb_lt; lia).
  replace ((String.length a <? String.length a + S (String.length r) - 1)%nat)
    with true by (symmetry; apply Nat.ltb_lt; lia).
  cbn [andb].
  replace (String.length a + S (String.length r) - String.length a)%nat
    with (String.length (String "." r)) by (cbn; lia).
  apply substring_app_r.
Qed.

Lemma name_stem_suffix p : name p = stem p +:+ suffix p.
Proof.
  destruct (decide (suffix p = "")) as [E | E].
  - rewrite E. unfold suffix, stem in *.
    destruct (rfind_dot (name p)) as [i |]; [| rewrite string_app_nil_r; reflexivity].
    destruct ((0 <? i)%nat && (i <? String.length (name p) - 1)%nat) eqn:Hb;
      [| rewrite string_app_nil_r; reflexivity].
    exfalso. apply andb_true_iff in Hb as [H0 H1].
    apply Nat.ltb_lt in H0. apply Nat.ltb_lt in H1.
    apply (f_equal String.length) in E. rewrite substring_length in E by lia.
    cbn in E. lia.
  - destruct (suffix_split p E) as (a & r & Hn & _ & _ & _ & -> & ->). exact Hn.
Qed.

(** The temporary name keeps the suffix of the path. *)
Lemma temp_try_suffix p n : suffix p <> "" -> suffix (temp_try p n) = suffix p.
Proof.
  intros E. destruct (suffix_split p E) as (a & r & Hn & Ha & Hr & Hnd & Hs & Hx).
  assert (Hgen : forall mid,
    suffix (with_name p (stem p +:+ mid +:+ suffix p)) = suffix p).
  { intros mid. rewrite Hs, Hx. unfold with_name.
    rewrite <- string_app_assoc. apply suffix_of_split; auto.
    destruct a; [congruence | discriminate]. }
  destruct n as [| n]; cbn [temp_try]; unfold temp_candidate;
    destruct (decide (suffix p = "")); try contradiction.
  - apply Hgen.
  - rewrite <- (string_app_assoc ".partial"). apply Hgen.
Qed.

Lemma temp_try_dir p n : dir (temp_try p n) = dir p.
Proof.
  destruct n; cbn; unfold temp_candidate; destruct (decide (suffix p = ""));
    reflexivity.
Qed.

(** A temporary name is longer than the name of the path. *)
Lemma temp_try_name p n :
  exists m, temp_try p n = with_name p m /\
    (String.length (name p) < String.length m)%nat.
Proof.
  destruct n; cbn [temp_try]; unfold temp_candidate;
    destruct (decide (suffix p = "")) as [E | E]; eexists; (split; [reflexivity |]);
    rewrite (name_stem_suffix p) at 1; rewrite ?E, ?string_app_nil_r;
    try (rewrite (name_stem_suffix p) at 1; rewrite E, string_app_nil_r);
    rewrite !string_length_app; cbn; lia.
Qed.

(** No temporary name is the name of the path. *)
Lemma temp_try_fresh_name p n : path_str (temp_try p n) <> path_str p.
Proof.
  destruct (temp_try_name p n) as (m & -> & Hlen). intros H.
  assert (Hp : p = with_name p (name p)) by (destruct p; reflexivity).
  rewrite Hp in H at 2. apply path_str_with_name_inj in H. subst m. lia.
Qed.

Lemma temp_loop_spec fuel fs p c :
  (exists k, (k < fuel)%nat /\ path_str (temp_candidate p (c + k)) ∉ fs) ->
  exists N,
    (temp_loop fuel fs p c = Some (temp_candidate p N)) /\
    (c <= N)%nat /\
    (path_str (temp_candidate p N) ∉ fs) /\
    forall k, (c <= k < N)%nat -> path_str (temp_candidate p k) ∈ fs.
Proof.
  revert c. induction fuel as [| fuel IH]; intros c (k & Hk & Hfree); [lia |].
  cbn. unfold exists_. case_bool_decide as Hc.
  - destruct k as [| k].
    { rewrite Nat.add_0_r in Hfree. contradiction. }
    destruct (IH (S c)) as (N & HN & Hle & HNfree & Hbelow).
    { exists k. split; [lia |]. replace (S c + k)%nat with (c + S k)%nat by lia.
      exact Hfree. }
    exists N. split; [exact HN |]. split; [lia |]. split; [exact HNfree |].
    intros j Hj. destruct (decide (j = c)) as [-> | Hne]; [exact Hc |].
    apply Hbelow. lia.
  - exists c. split; [reflexivity |]. split; [lia |]. split; [exact Hc |].
    intros j Hj. lia.
Qed.

(** What [_temp_output_path] returns on a path with a name: the first of
    its candidates that does not exist. *)
Lemma _temp_output_path_spec fs p :
  name p <> "" ->
  exists N,
    _temp_output_path fs p = Ret (Some (temp_try p N)) /\
    (path_str (temp_try p N) ∉ fs) /\
    forall k, (k < N)%nat -> path_str (temp_try p k) ∈ fs.
Proof.
  intros Hn.
  destruct (temp_loop_spec (S (size fs)) fs p 1) as (N & HN & Hle & Hfree & Hbelow).
  { apply (free_candidate (fun n => path_str (temp_candidate p n)) fs 1).
    intros n m. apply temp_candidate_inj. }
  assert (Hcand : forall k, (1 <= k)%nat -> temp_candidate p k = temp_try p k).
  { intros [| k] Hk; [lia | reflexivity]. }
  unfold _temp_output_path.
  destruct (decide (suffix p = "")) as [E | E].
  - destruct (decide (name p = "")); [contradiction |].
    unfold exists_. case_bool_decide as H0.
    + exists N. rewrite HN, Hcand by lia. split; [reflexivity |].
      split; [rewrite <- Hcand by lia; exact Hfree |].
      intros [| k] Hk.
      * cbn. destruct (decide (suffix p = "")); [exact H0 | contradiction].
      * rewrite <- Hcand by lia. apply Hbelow. lia.
    + exists 0%nat. cbn. destruct (decide (suffix p = "")); [| contradiction].
      split; [reflexivity |]. split; [exact H0 | intros k Hk; lia].
  - unfold exists_. case_bool_decide as H0.
    + exists N. rewrite HN, Hcand by lia. split; [reflexivity |].
      split; [rewrite <- Hcand by lia; exact Hfree |].
      intros [| k] Hk.
      * cbn. destruct (decide (suffix p = "")); [contradiction | exact H0].
      * rewrite <- Hcand by lia. apply Hbelow. lia.
    + exists 0%nat. cbn. destruct (decide (suffix p = "")); [contradiction |].
      split; [reflexivity |]. split; [exact H0 | intros k Hk; lia].
Qed.

Lemma _temp_output_path_empty fs p :
  name p = "" -> _temp_output_path fs p = Raise ValueError.
Proof.
  intros Hn. unfold _temp_output_path.
  assert (E : suffix p = "") by (unfold suffix; rewrite Hn; reflexivity).
  destruct (decide (suffix p = "")); [| contradiction].
  destruct (decide (name p = "")); [reflexivity | contradiction].
Qed.

End PathMore.
Import PathMore.

(** ** The ways through [_process_item] *)

Module RunMore.

Lemma reg_pop_set k p r : reg_pop k (reg_set k p r) = reg_pop k r.
Proof.
  unfold reg_pop, registry in *. induction r as [| [k' p'] r IH]; cbn [reg_set].
  - rewrite filter_cons. cbn. rewrite Z.eqb_refl. reflexivity.
  - destruct (Z.eqb k k') eqn:E; rewrite !filter_cons; cbn [fst];
      rewrite ?E, ?Z.eqb_refl; cbn; [reflexivity |].
    rewrite IH. reflexivity.
Qed.

(** The progress mapping raises nothing but OverflowError, and ValueError
    on a NaN duration. *)
Lemma progress_from_out_time_raises out d e :
  progress_from_out_time out d = Raise e ->
  e = OverflowError \/ (e = ValueError /\ d = Some NaN).
Proof.
  unfold progress_from_out_time. destruct d as [d |]; [| discriminate].
  destruct (fle d (Fin 0)) eqn:Hd; [discriminate |].
  destruct (fle (fmul d (Fin 1000000)) (Fin 0)) eqn:Ht; [discriminate |].
  unfold of_int. destruct (round (inject_Z out)) as [| s | x] eqn:Hx; cbn;
    [intros [= <-]; auto | intros [= <-]; auto |].
  destruct d as [| s | v]; cbn in *.
  - intros [= <-]. auto.
  - intros H. discriminate H.
  - destruct (round (v * 1000000)) as [| s | t] eqn:Hr; cbn.
    + exfalso. exact (round_not_nan _ Hr).
    + intros H. discriminate H.
    + apply fle_fin_false in Ht. rewrite (Qzero_false_pos t Ht). cbn.
      destruct (round (x / t)) as [| s | q] eqn:Hq; cbn.
      * exfalso. exact (round_not_nan _ Hq).
      * destruct (Qzero 100) eqn:Hz; [discriminate Hz |]. cbn. intros [= <-]. auto.
      * destruct (round (q * 100)) as [| s | f] eqn:Hf; cbn.
        -- exfalso. exact (round_not_nan _ Hf).
        -- intros [= <-]. auto.
        -- discriminate.
Qed.

Lemma on_line_frame cb line w :
  exists r w' us,
    on_line cb line w = Some (r, w') /\
    w_trace w' = w_trace w ++ us /\
    Forall (fun ev => is_update ev = true) us /\
    w_item w' = set_progress (progress (w_item w')) (w_item w) /\
    w_reg w' = w_reg w /\ w_proc w' = w_proc w /\ w_checks w' = w_checks w /\
    (forall e, r = Raise e -> e = OverflowError \/ e = ValueError).
Proof.
  assert (Hself : forall it, it = set_progress (progress it) it) by (intros []; reflexivity).
  destruct (line_event line) as [[z | []] |] eqn:E.
  - rewrite (on_line_elapsed _ _ _ _ E).
    destruct (progress_from_out_time z (item_duration (w_item w))) as [[v |] | e] eqn:Ep.
    + destruct (decide (Some v = progress (w_item w))).
      * exists (Ret tt), w, []. rewrite app_nil_r. repeat split; auto; try (intros ? [=]).
      * exists (Ret tt), (w_emit cb (w_progress (Some v) w)),
          (if cb then [EvItemUpdate (set_progress (Some v) (w_item w))] else []).
        cbn. repeat split; auto; try (intros ? [=]). destruct cb; repeat constructor.
    + exists (Ret tt), w, []. rewrite app_nil_r. repeat split; auto; try (intros ? [=]).
    + exists (Raise e), w, []. rewrite app_nil_r. repeat split; auto.
      intros e' [= <-].
      destruct (progress_from_out_time_raises _ _ _ Ep) as [-> | [-> _]]; auto.
  - rewrite (on_line_end _ _ _ E).
    exists (Ret tt), (w_emit cb (w_progress (Some 100%Z) w)),
      (if cb then [EvItemUpdate (set_progress (Some 100%Z) (w_item w))] else []).
    cbn. repeat split; auto; try (intros ? [=]). destruct cb; repeat constructor.
  - rewrite (on_line_none _ _ _ E).
    exists (Ret tt), w, []. rewrite app_nil_r. repeat split; auto; try (intros ? [=]).
Qed.

Lemma set_progress_twice a b it :
  set_progress a (set_progress b it) = set_progress a it.
Proof. reflexivity. Qed.

(** The progress loop on any lines: it ends; it reports the item and
    changes nothing of it but its progress; it leaves the registry entries
    of the other jobs alone; and when it returns, either every line was
    read and no cancellation seen, or a cancellation was seen and the
    process asked to terminate. *)
Lemma read_stdout_frame env cb lines : forall w,
  exists r w' us,
    read_stdout env cb lines w = Some (r, w') /\
    w_trace w' = w_trace w ++ us /\
    Forall (fun ev => is_update ev = true) us /\
    w_item w' = set_progress (progress (w_item w')) (w_item w) /\
    reg_pop (id (w_item w)) (w_reg w') = reg_pop (id (w_item w)) (w_reg w) /\
    (r = Ret tt ->
     (w_checks w' = (w_checks w + length lines)%nat /\ w_proc w' = w_proc w /\
      (forall k, cancel_after env = Some k -> lines <> [] ->
         (w_checks w + length lines <= k)%nat)) \/
     (cancel_seen env w' = true /\ (w_checks w' <= w_checks w + length lines)%nat /\
      w_proc w' = terminated <$> w_proc w)) /\
    (forall e, r = Raise e -> e = OverflowError \/ e = ValueError).
Proof.
  assert (Hself : forall it, it = set_progress (progress it) it) by (intros []; reflexivity).
  induction lines as [| line rest IH]; intros w.
  - exists (Ret tt), w, []. cbn. rewrite app_nil_r.
    repeat split; auto; try (intros ? [=]).
    intros _. left. repeat split; auto. intros k _ Hne. congruence.
  - rewrite read_stdout_cons.
    destruct (cancel_seen env w) eqn:Hc.
    + assert (Hseen : forall w1, w_checks w1 = S (w_checks w) -> cancel_seen env w1 = true).
      { intros w1 Hw1. unfold cancel_seen in *. rewrite Hw1.
        destruct (cancel_after env) as [k |]; [| discriminate].
        apply Nat.leb_le in Hc. apply Nat.leb_le. lia. }
      unfold terminate_current. cbn.
      destruct (w_proc w) as [p |] eqn:Hp; cbn.
      * rewrite _terminate_process_eq.
        eexists _, _, []. split; [reflexivity |]. cbn. rewrite app_nil_r.
        split; [reflexivity |]. split; [constructor |]. split; [apply Hself |].
        split; [apply reg_pop_set |]. split; [| intros ? [=]].
        intros _. right. split; [apply Hseen; reflexivity |]. split; [lia | reflexivity].
      * eexists _, _, []. split; [reflexivity |]. cbn. rewrite app_nil_r.
        split; [reflexivity |]. split; [constructor |]. split; [apply Hself |].
        split; [reflexivity |]. split; [| intros ? [=]].
        intros _. right. split; [apply Hseen; reflexivity |].
        split; [lia | rewrite Hp; reflexivity].
    + destruct (on_line_frame cb line (w_check w))
        as (r1 & w1 & us1 & -> & Ht1 & Hu1 & Hi1 & Hr1 & Hp1 & Hc1 & He1).
      destruct r1 as [[] | e].
      * destruct (IH w1) as (r & w' & us & -> & Ht & Hu & Hi & Hr & Hret & He).
        exists r, w', (us1 ++ us). split; [reflexivity |].
        cbn in *. rewrite Ht, Ht1, app_assoc.
        split; [reflexivity |]. split; [apply Forall_app; auto |].
        split; [rewrite Hi at 1; rewrite Hi1; reflexivity |].
        assert (Hid : id (w_item w1) = id (w_item w)) by (rewrite Hi1; reflexivity).
        rewrite Hid, Hr1 in Hr. split; [exact Hr |]. split; [| exact He].
        intros Hret'. destruct (Hret Hret') as [(Hn & Hpp & Hun) | (Hs & Hn & Hpp)].
        -- left. rewrite Hn, Hc1, Hpp, Hp1. split; [lia |]. split; [reflexivity |].
           intros k Hk _. unfold cancel_seen in Hc. rewrite Hk in Hc.
           apply Nat.leb_gt in Hc.
           destruct rest as [| l2 rest2]; [cbn; lia |].
           specialize (Hun k Hk ltac:(discriminate)). rewrite Hc1 in Hun. cbn in *. lia.
        -- right. rewrite Hpp, Hp1. split; [exact Hs |]. split; [lia | reflexivity].
      * exists (Raise e), w1, us1. split; [reflexivity |].
        cbn in *. split; [exact Ht1 |]. split; [exact Hu1 |].
        split; [exact Hi1 |]. rewrite Hr1. split; [reflexivity |].
        split; [discriminate | exact He1].
Qed.

Lemma finish_eq config cb env out temp w :
  let seen := cancel_seen env w in
  let final := finished env seen (w_item w) in
  finish config cb env out temp w =
  Some (Ret tt,
        mkWorld final (w_reg w) (w_proc w)
          (w_trace w ++ finish_calls config env seen out temp
             ++ update cb final ++ [EvLogItem final])
          (S (w_checks w))).
Proof.
  unfold finish, publish, _cleanup_partial, finish_calls, finished, publishes,
    encode_error, update.
  unfold mbind, M_bind, mret, M_ret, cancel_is_set, cancel_seen.
  destruct (match cancel_after env with
            | Some k => (k <=? w_checks w)%nat
            | None => false
            end); cbn.
  - destruct (temp_exists env); cbn; rewrite _emit_item_eq;
      unfold _log_item, w_emit, mbind, M_bind, get_item, tell; cbn;
      destruct cb; cbn; rewrite <- ?app_assoc; reflexivity.
  - destruct (decide (returncode env = 0%Z)) as [Hrc | Hrc].
    + rewrite (bool_decide_eq_false_2 (returncode env ≠ 0%Z)) by tauto.
      rewrite (bool_decide_eq_true_2 (returncode env = 0%Z)) by exact Hrc.
      run. unfold mret, M_ret. destruct (finalize_error env) as [msg |]; cbn.
      * destruct (temp_exists env); run; rewrite _emit_item_eq;
          unfold _log_item, w_emit, mbind, M_bind, get_item, tell; cbn;
          destruct cb; cbn; rewrite <- ?app_assoc; reflexivity.
      * destruct (output_exists env && bool_decide (collision_policy config = "overwrite"));
          run; rewrite _emit_item_eq;
          unfold _log_item, w_emit, mbind, M_bind, get_item, tell; cbn;
          destruct cb; cbn; rewrite <- ?app_assoc; reflexivity.
    + rewrite (bool_decide_eq_true_2 (returncode env ≠ 0%Z)) by exact Hrc.
      rewrite (bool_decide_eq_false_2 (returncode env = 0%Z)) by exact Hrc.
      run. destruct (temp_exists env); run; rewrite _emit_item_eq;
        unfold _log_item, w_emit, mbind, M_bind, get_item, tell; cbn;
        destruct cb; cbn; rewrite <- ?app_assoc; reflexivity.
Qed.

Lemma run_canceled_at_entry config cb env w :
  cancel_seen env w = true ->
  _process_item config cb env w =
  Some (Ret tt,
        mkWorld (set_status STATUS_CANCELED (w_item w)) (w_reg w) (w_proc w)
          (w_trace w ++ update cb (set_status STATUS_CANCELED (w_item w)))
          (S (w_checks w))).
Proof.
  intros Hc. unfold _process_item, mbind, M_bind, cancel_is_set.
  unfold cancel_seen in Hc. rewrite Hc. cbn. rewrite _emit_item_eq.
  destruct cb; reflexivity.
Qed.

Lemma run_mkdir_failed config cb env w msg :
  cancel_seen env w = false -> mkdir_error env = Some msg ->
  _process_item config cb env w =
  Some (Raise (OSError msg),
        mkWorld (started env (w_item w)) (w_reg w) (w_proc w)
          (w_trace w ++ update cb (started env (w_item w))) (S (w_checks w))).
Proof.
  intros Hc Hm. unfold _process_item, mbind, M_bind, cancel_is_set.
  unfold cancel_seen in Hc. rewrite Hc. cbn. rewrite _emit_item_eq.
  cbn. rewrite Hm. destruct cb; reflexivity.
Qed.

Lemma run_no_name config cb env w :
  cancel_seen env w = false -> mkdir_error env = None ->
  name (Path_of (output_path (w_item w))) = "" ->
  _process_item config cb env w =
  Some (Raise ValueError,
        mkWorld (started env (w_item w)) (w_reg w) (w_proc w)
          (w_trace w ++ update cb (started env (w_item w))
             ++ [EvMkdir (dir (Path_of (output_path (w_item w))))])
          (S (w_checks w))).
Proof.
  intros Hc Hm Hn. unfold _process_item, mbind, M_bind, cancel_is_set.
  unfold cancel_seen in Hc. rewrite Hc. cbn. rewrite _emit_item_eq.
  cbn. rewrite Hm. cbn. unfold lift_res.
  rewrite (PathMore._temp_output_path_empty _ _ Hn).
  destruct cb; cbn; rewrite <- ?app_assoc; reflexivity.
Qed.

Lemma run_prepared config cb env w t :
  cancel_seen env w = false -> mkdir_error env = None ->
  _temp_output_path (fs env) (Path_of (output_path (w_item w))) = Ret (Some t) ->
  _process_item config cb env w =
  if dry_run config then
    Some (Ret tt,
          mkWorld (dry_ended env (w_item w)) (w_reg w) (w_proc w)
            (w_trace (w_prepared cb env w) ++ update cb (dry_ended env (w_item w))
               ++ [EvLogItem (dry_ended env (w_item w))])
            (S (w_checks w)))
  else
    encode config cb env (input_path (w_item w)) (Path_of (output_path (w_item w))) t
      (w_prepared cb env w).
Proof.
  intros Hc Hm Ht. unfold _process_item, mbind, M_bind, cancel_is_set.
  unfold cancel_seen in Hc. rewrite Hc. cbn. rewrite _emit_item_eq.
  cbn. rewrite Hm. cbn. unfold lift_res. rewrite Ht. cbn.
  unfold w_prepared, update.
  destruct (dry_run config); cbn.
  - rewrite _emit_item_eq. unfold _log_item, w_emit, mbind, M_bind, get_item, tell.
    cbn. destruct cb; cbn; rewrite <- ?app_assoc; reflexivity.
  - destruct cb; cbn; rewrite <- ?app_assoc; reflexivity.
Qed.

Lemma encode_probe_failed config cb env input out temp w msg :
  probe_media (probe env) = inl msg ->
  let final := set_end_time (Some (t_end env))
                 (set_error (probe_error msg) (set_status STATUS_FAILED (w_item w))) in
  encode config cb env input out temp w =
  Some (Ret tt,
        mkWorld final (w_reg w) (w_proc w)
          (w_trace w ++ [EvProbe input] ++ update cb final ++ [EvLogItem final])
          (w_checks w)).
Proof.
  intros Hp. unfold encode, mbind, M_bind, probe_error. cbn. rewrite Hp.
  destruct (PyStr.contains "moov atom not found" (PyStr.lower msg)
            || PyStr.contains "invalid data found when processing input"
                 (PyStr.lower msg)); cbn;
    rewrite _emit_item_eq; unfold _log_item, w_emit, mbind, M_bind, get_item, tell;
    cbn; destruct cb; cbn; rewrite <- ?app_assoc; reflexivity.
Qed.

Lemma encode_popen_failed config cb env input out temp w info msg :
  probe_media (probe env) = inr info -> popen_error env = Some msg ->
  encode config cb env input out temp w =
  Some (Raise (OSError msg),
        mkWorld (before_encode info (w_item w)) (w_reg w) (w_proc w)
          (w_trace w ++ [EvProbe input]) (w_checks w)).
Proof.
  intros Hp Hm. unfold encode, mbind, M_bind, before_encode, popen. cbn.
  rewrite Hp, Hm.
  destruct (match duration info with Some d => truthy d | None => false end);
    reflexivity.
Qed.

Lemma encode_started config cb env input out temp w info :
  probe_media (probe env) = inr info -> popen_error env = None ->
  encode config cb env input out temp w =
  match read_stdout env cb (stdout_lines env)
          (w_encoding env info input (path_str temp) w) with
  | Some (Ret _, w1) =>
      finish config cb env out temp (w_cleaned [EvProcWait; EvClosePipes] w1)
  | Some (Raise e, w1) => Some (Raise e, w_cleaned [EvClosePipes] w1)
  | None => None
  end.
Proof.
  intros Hp Hm. unfold w_encoding, w_cleaned.
  unfold encode, mbind, M_bind, before_encode, popen, finally, pop_current, tell,
    reg_pop. cbn.
  rewrite Hp, Hm.
  destruct (match duration info with Some d => truthy d | None => false end); cbn;
    rewrite <- ?app_assoc; cbn;
    match goal with |- context [read_stdout ?e ?c ?l ?W] =>
      destruct (read_stdout e c l W) as [[[[] | e0] w1] |] end;
    cbn; rewrite <- ?app_assoc; reflexivity.
Qed.

(** The ways through [_process_item].  In each the call ends, and the
    world it ends in is given. *)
Lemma _process_item_routes config cb env w :
  let it := w_item w in
  let out := Path_of (output_path it) in
  let run := _process_item config cb env w in
  (cancel_seen env w = true /\
   run = Some (Ret tt,
               mkWorld (set_status STATUS_CANCELED it) (w_reg w) (w_proc w)
                 (w_trace w ++ update cb (set_status STATUS_CANCELED it))
                 (S (w_checks w)))) \/
  (cancel_seen env w = false /\ exists msg,
     mkdir_error env = Some msg /\
     run = Some (Raise (OSError msg),
                 mkWorld (started env it) (w_reg w) (w_proc w)
                   (w_trace w ++ update cb (started env it)) (S (w_checks w)))) \/
  (cancel_seen env w = false /\ mkdir_error env = None /\ name out = "" /\
   run = Some (Raise ValueError,
               mkWorld (started env it) (w_reg w) (w_proc w)
                 (w_trace w ++ update cb (started env it) ++ [EvMkdir (dir out)])
                 (S (w_checks w)))) \/
  (cancel_seen env w = false /\ mkdir_error env = None /\ name out <> "" /\
   exists t,
     _temp_output_path (fs env) out = Ret (Some t) /\
     ((dry_run config = true /\
       run = Some (Ret tt,
                   mkWorld (dry_ended env it) (w_reg w) (w_proc w)
                     (w_trace (w_prepared cb env w) ++ update cb (dry_ended env it)
                        ++ [EvLogItem (dry_ended env it)])
                     (S (w_checks w)))) \/
      (dry_run config = false /\ exists msg,
         probe_media (probe env) = inl msg /\
         let final := set_end_time (Some (t_end env))
                        (set_error (probe_error msg)
                           (set_status STATUS_FAILED (w_item (w_prepared cb env w)))) in
         run = Some (Ret tt,
                     mkWorld final (w_reg w) (w_proc w)
                       (w_trace (w_prepared cb env w) ++ [EvProbe (input_path it)]
                          ++ update cb final ++ [EvLogItem final])
                       (S (w_checks w)))) \/
      (dry_run config = false /\ exists info msg,
         probe_media (probe env) = inr info /\ popen_error env = Some msg /\
         run = Some (Raise (OSError msg),
                     mkWorld (before_encode info (w_item (w_prepared cb env w)))
                       (w_reg w) (w_proc w)
                       (w_trace (w_prepared cb env w) ++ [EvProbe (input_path it)])
                       (S (w_checks w)))) \/
      (dry_run config = false /\ exists info r1 w1 us,
         probe_media (probe env) = inr info /\ popen_error env = None /\
         let w0 := w_encoding env info (input_path it) (path_str t)
                     (w_prepared cb env w) in
         read_stdout env cb (stdout_lines env) w0 = Some (r1, w1) /\
         w_trace w1 = w_trace w0 ++ us /\
         Forall (fun ev => is_update ev = true) us /\
         w_item w1 = set_progress (progress (w_item w1)) (w_item w0) /\
         reg_pop (id it) (w_reg w1) = reg_pop (id it) (w_reg w) /\
         match r1 with
         | Ret _ =>
             ((w_checks w1 = (S (w_checks w) + length (stdout_lines env))%nat /\
               w_proc w1 = Some (proc env) /\
               (forall k, cancel_after env = Some k -> stdout_lines env <> [] ->
                  (S (w_checks w) + length (stdout_lines env) <= k)%nat)) \/
              (cancel_seen env w1 = true /\
               (w_checks w1 <= S (w_checks w) + length (stdout_lines env))%nat /\
               w_proc w1 = Some (terminated (proc env)))) /\
             let seen := cancel_seen env w1 in
             let final := finished env seen (w_item w1) in
             run = Some (Ret tt,
                         mkWorld final (reg_pop (id it) (w_reg w)) (w_proc w1)
                           (w_trace w1 ++ [EvProcWait; EvClosePipes]
                              ++ finish_calls config env seen out t
                              ++ update cb final ++ [EvLogItem final])
                           (S (w_checks w1)))
         | Raise e =>
             (e = OverflowError \/ e = ValueError) /\
             run = Some (Raise e,
                         mkWorld (w_item w1) (reg_pop (id it) (w_reg w)) (w_proc w1)
                           (w_trace w1 ++ [EvClosePipes]) (w_checks w1))
         end))).
Proof.
  intros it out run. subst run.
  destruct (cancel_seen env w) eqn:Hc.
  { left. split; [reflexivity |]. apply run_canceled_at_entry, Hc. }
  right. destruct (mkdir_error env) as [msg |] eqn:Hm.
  { left. split; [reflexivity |]. exists msg. split; [reflexivity |].
    apply run_mkdir_failed; assumption. }
  right. destruct (decide (name out = "")) as [Hn | Hn].
  { left. repeat (split; [reflexivity || assumption |]).
    apply run_no_name; assumption. }
  right. repeat (split; [reflexivity || assumption |]).
  destruct (PathMore._temp_output_path_spec (fs env) out Hn) as (N & Ht & _).
  exists (temp_try out N). split; [exact Ht |].
  rewrite (run_prepared config cb env w _ Hc Hm Ht).
  destruct (dry_run config).
  { left. split; reflexivity. }
  right. destruct (probe_media (probe env)) as [msg | info] eqn:Hp.
  { left. split; [reflexivity |]. exists msg. split; [reflexivity |].
    rewrite (encode_probe_failed _ _ _ _ _ _ _ _ Hp). reflexivity. }
  right. destruct (popen_error env) as [msg |] eqn:Hpo.
  { left. split; [reflexivity |]. exists info, msg.
    split; [reflexivity |]. split; [reflexivity |].
    rewrite (encode_popen_failed _ _ _ _ _ _ _ _ _ Hp Hpo). reflexivity. }
  right. split; [reflexivity |].
  rewrite (encode_started _ _ _ _ _ _ _ _ Hp Hpo).
  set (w0 := w_encoding env info (input_path (w_item w)) _ (w_prepared cb env w)).
  destruct (read_stdout_frame env cb (stdout_lines env) w0)
    as (r1 & w1 & us & Hrun & Htr & Hus & Hit & Hreg & Hret & Hexn).
  assert (Hid0 : id (w_item w0) = id it).
  { unfold w0, w_encoding, before_encode, w_prepared. cbn.
    destruct (match duration info with Some d => truthy d | None => false end);
      reflexivity. }
  assert (Hid1 : id (w_item w1) = id it) by (rewrite Hit; exact Hid0).
  assert (Hreg0 : reg_pop (id it) (w_reg w0) = reg_pop (id it) (w_reg w)).
  { unfold w0, w_encoding, w_prepared. cbn. apply reg_pop_set. }
  rewrite Hid0, Hreg0 in Hreg.
  exists info, r1, w1, us. fold w0. rewrite Hrun.
  repeat (split; [reflexivity || assumption |]).
  destruct r1 as [[] | e].
  - split.
    + destruct (Hret eq_refl) as [(Hn1 & Hp1 & Hun) | (Hs1 & Hn1 & Hp1)].
      * left. rewrite Hn1, Hp1. split; [reflexivity |]. split; [reflexivity | exact Hun].
      * right. rewrite Hp1. split; [exact Hs1 |]. split; [exact Hn1 | reflexivity].
    + rewrite finish_eq. unfold w_cleaned. cbn.
      unfold cancel_seen. cbn. rewrite Hid1, Hreg, <- !app_assoc. reflexivity.
  - split; [apply Hexn; reflexivity |].
    unfold w_cleaned. rewrite Hid1, Hreg. reflexivity.
Qed.

End RunMore.
Import RunMore.

Module RunMore2.

Lemma logged_app a b : logged (a ++ b) = logged a ++ logged b.
Proof. apply omap_app. Qed.

Lemma replaced_app a b : replaced (a ++ b) = replaced a ++ replaced b.
Proof. apply omap_app. Qed.

Lemma logged_update cb it : logged (update cb it) = [].
Proof. destruct cb; reflexivity. Qed.

Lemma replaced_update cb it : replaced (update cb it) = [].
Proof. destruct cb; reflexivity. Qed.

Lemma logged_updates us : Forall (fun ev => is_update ev = true) us -> logged us = [].
Proof.
  induction 1 as [| ev us Hev _ IH]; [reflexivity |].
  destruct ev; try discriminate. exact IH.
Qed.

Lemma replaced_updates us : Forall (fun ev => is_update ev = true) us -> replaced us = [].
Proof.
  induction 1 as [| ev us Hev _ IH]; [reflexivity |].
  destruct ev; try discriminate. exact IH.
Qed.

Lemma popen_updates us i t :
  Forall (fun ev => is_update ev = true) us -> EvPopen i t ∉ us.
Proof.
  intros H Hin. rewrite Forall_forall in H. specialize (H _ Hin). discriminate.
Qed.

Lemma logged_finish_calls config env seen out t :
  logged (finish_calls config env seen out t) = [].
Proof.
  unfold finish_calls. destruct (publishes env seen).
  - destruct (output_exists env && _); reflexivity.
  - destruct (temp_exists env); reflexivity.
Qed.

Lemma replaced_finish_calls config env seen out t :
  replaced (finish_calls config env seen out t)
  = if publishes env seen then [(path_str t, path_str out)] else [].
Proof.
  unfold finish_calls. destruct (publishes env seen).
  - destruct (output_exists env && _); reflexivity.
  - destruct (temp_exists env); reflexivity.
Qed.

Lemma finished_terminal env seen it : terminal (status (finished env seen it)).
Proof.
  unfold finished, terminal. destruct seen; cbn; [auto |].
  case_bool_decide; cbn; [auto |].
  destruct (finalize_error env); cbn; auto.
Qed.

Lemma finished_status env seen it :
  status (finished env seen it) = STATUS_COMPLETED <-> publishes env seen = true.
Proof.
  unfold finished, publishes. destruct seen; cbn; [split; discriminate |].
  destruct (decide (returncode env = 0%Z)) as [Hrc | Hrc].
  - rewrite (bool_decide_eq_false_2 (returncode env ≠ 0%Z)) by tauto.
    rewrite (bool_decide_eq_true_2 (returncode env = 0%Z)) by exact Hrc.
    destruct (finalize_error env); cbn; split; (discriminate || reflexivity).
  - rewrite (bool_decide_eq_true_2 (returncode env ≠ 0%Z)) by exact Hrc.
    rewrite (bool_decide_eq_false_2 (returncode env = 0%Z)) by exact Hrc.
    cbn. split; discriminate.
Qed.

Lemma reg_get_pop k j r :
  reg_get k (reg_pop j r) = if decide (k = j) then None else reg_get k r.
Proof.
  unfold reg_get, reg_pop, registry in *.
  induction r as [| [k' p'] r IH].
  - cbn. destruct (decide (k = j)); reflexivity.
  - rewrite filter_cons. cbn [fst find].
    destruct (Z.eqb_spec j k') as [-> | Hjk]; cbn [negb].
    + destruct (decide (Is_true false)) as [[] | _]. rewrite IH.
      destruct (decide (k = k')) as [-> | Hk]; [reflexivity |].
      destruct (Z.eqb_spec k k'); [contradiction | reflexivity].
    + destruct (decide (Is_true true)) as [_ | H]; [| exfalso; apply H; exact I].
      cbn [find fst]. destruct (Z.eqb_spec k k') as [-> | Hk].
      * destruct (decide (k' = j)); [congruence | reflexivity].
      * exact IH.
Qed.

Lemma reg_get_other k j r r' :
  reg_pop j r' = reg_pop j r -> k <> j -> reg_get k r' = reg_get k r.
Proof.
  intros H Hk. pose proof (reg_get_pop k j r) as H1.
  pose proof (reg_get_pop k j r') as H2. rewrite H in H2.
  destruct (decide (k = j)); [contradiction | congruence].
Qed.

Lemma starts_encoder_app a b :
  starts_encoder (a ++ b) = starts_encoder a || starts_encoder b.
Proof. apply existsb_app. Qed.

Lemma starts_encoder_update cb it : starts_encoder (update cb it) = false.
Proof. destruct cb; reflexivity. Qed.

Lemma starts_encoder_updates us :
  Forall (fun ev => is_update ev = true) us -> starts_encoder us = false.
Proof.
  induction 1 as [| ev us Hev _ IH]; [reflexivity |].
  destruct ev; try discriminate. exact IH.
Qed.

Lemma starts_encoder_finish_calls config env seen out t :
  starts_encoder (finish_calls config env seen out t) = false.
Proof.
  unfold finish_calls. destruct (publishes env seen).
  - destruct (output_exists env && _); reflexivity.
  - destruct (temp_exists env); reflexivity.
Qed.

Lemma logged_cons ev l :
  logged (ev :: l) = match as_log ev with Some it => it :: logged l | None => logged l end.
Proof. reflexivity. Qed.

Lemma replaced_cons ev l :
  replaced (ev :: l)
  = match as_replace ev with Some x => x :: replaced l | None => replaced l end.
Proof. reflexivity. Qed.

Ltac observe :=
  repeat (rewrite logged_app || rewrite replaced_app || rewrite logged_cons
          || rewrite replaced_cons || rewrite logged_update || rewrite replaced_update
          || rewrite logged_finish_calls || rewrite replaced_finish_calls);
  cbn [as_log as_replace].

(** The world a run ends in, from the equation of the run, with the calls
    as the run lists them. *)
Ltac same_run H :=
  apply (inj Some) in H; apply pair_equal_spec in H; destruct H as [? <-].
Ltac same_result H :=
  apply (inj Some) in H; apply pair_equal_spec in H; destruct H as [<- <-].

(** A call that stands in a sequence of calls. *)
Ltac find_call :=
  cbn [app];
  repeat first [ apply list_elem_of_here | apply list_elem_of_further
               | apply elem_of_app; right ].

End RunMore2.
Import RunMore2.

(** ** Scans *)

Module ScanMore.

#[local] Arguments _suffix_path : simpl never.

Lemma scan_file_skipped config fs stat item_id w :
  accepted config w = false -> scan_file config fs stat item_id w = Some None.
Proof.
  unfold accepted, source, scan_file. intros ->. reflexivity.
Qed.

Lemma scan_file_accepted config fs stat item_id w :
  accepted config w = true ->
  exists st msg out,
    scan_file config fs stat item_id w
    = Some (Some (new_item item_id (path_str (source config w)) out st msg
                    (stat (path_str (source config w))))) /\
    ((st = STATUS_QUEUED /\ msg = "" /\ output_dir config <> "") \/
     (st = STATUS_QUEUED /\ msg = "output not set" /\ out = "" /\ output_dir config = "") \/
     (st = STATUS_SKIPPED /\ msg = "output exists" /\ collision_policy config = "skip" /\
      out = path_str (destination config w) /\ out ∈ fs /\ output_dir config <> "")).
Proof.
  unfold accepted, source, scan_file, destination. intros ->.
  destruct (decide (output_dir config = "")) as [Ho | Ho]; cbn.
  { eexists _, _, _. split; [reflexivity |]. right. left. auto. }
  unfold exists_. case_bool_decide as Hex; cbn.
  - destruct (decide (collision_policy config = "skip")); cbn.
    { eexists _, _, _. split; [reflexivity |]. right. right. repeat split; auto. }
    destruct (decide (collision_policy config = "suffix")); cbn.
    + destruct (_suffix_path_spec fs
                  (mkPath (join_dir (output_dir config) (rel_dir w)) (file_name w)))
        as (N & -> & _). cbn.
      eexists _, _, _. split; [reflexivity |]. left. auto.
    + eexists _, _, _. split; [reflexivity |]. left. auto.
  - eexists _, _, _. split; [reflexivity |]. left. auto.
Qed.

Lemma scan_loop_spec config fs stat files : forall n,
  exists l,
    scan_loop config fs stat n files = Some l /\
    input_path <$> l
    = (fun w => path_str (source config w))
        <$> filter (fun w => accepted config w = true) files /\
    (forall i it, l !! i = Some it -> id it = (n + Z.of_nat i)%Z) /\
    Forall (fun it =>
      progress it = Some 0%Z /\ error it = "" /\ start_time it = None /\
      end_time it = None /\
      (status it = STATUS_QUEUED \/
       (status it = STATUS_SKIPPED /\ message it = "output exists" /\
        collision_policy config = "skip" /\ output_path it ∈ fs))) l.
Proof.
  induction files as [| w files IH]; intros n.
  - exists []. cbn. repeat split; auto. intros i it H. discriminate.
  - cbn [scan_loop]. rewrite filter_cons.
    destruct (accepted config w) eqn:Ha.
    + destruct (scan_file_accepted config fs stat n w Ha) as (st & msg & out & -> & Hcase).
      destruct (IH (n + 1)%Z) as (l & -> & Hin & Hid & Hall). cbn.
      eexists. split; [reflexivity |].
      destruct (decide (true = true)); [| congruence]. cbn. rewrite Hin.
      split; [reflexivity |]. split.
      * intros [| i] it; cbn.
        -- intros [= <-]. cbn. lia.
        -- intros H. rewrite (Hid _ _ H). lia.
      * constructor; [| exact Hall]. cbn. repeat split; auto.
        destruct Hcase as [(-> & _) | [(-> & _) | (-> & -> & Hp & -> & Hi & _)]]; auto.
    + rewrite (scan_file_skipped _ _ _ _ _ Ha). cbn.
      destruct (decide (false = true)); [congruence |]. apply IH.
Qed.

End ScanMore.
Import ScanMore.

(** ** Summaries *)

Module SummaryFacts.
Import Summary.

Lemma count_status_cons st it l :
  count_status st (it :: l)
  = ((if status_eqb (status it) st then 1 else 0) + count_status st l)%Z.
Proof.
  unfold count_status, status_eqb. rewrite filter_cons.
  destruct (decide (status it = st)) as [E | E].
  - rewrite bool_decide_eq_true_2 by exact E. cbn [length]. lia.
  - rewrite bool_decide_eq_false_2 by exact E. lia.
Qed.

Lemma count_status_nonneg st l : (0 <= count_status st l)%Z.
Proof. unfold count_status. lia. Qed.

Lemma foldl_count_item l : forall s,
  foldl count_item s l =
  mkSummary (total s + Z.of_nat (length l))
    (completed s + count_status STATUS_COMPLETED l)
    (failed s + count_status STATUS_FAILED l)
    (skipped s + count_status STATUS_SKIPPED l)
    (canceled s + count_status STATUS_CANCELED l)
    (queued s + count_status STATUS_QUEUED l)
    (running s + count_status STATUS_RUNNING l).
Proof.
  induction l as [| it l IH]; intros s.
  - destruct s. cbn. unfold count_status. cbn. f_equal; lia.
  - cbn [foldl]. rewrite IH. rewrite !count_status_cons.
    unfold count_item. destruct (status it); vm_compute status_eqb; cbn;
      f_equal; cbn [length]; lia.
Qed.

Lemma count_status_total l :
  (count_status STATUS_COMPLETED l + count_status STATUS_FAILED l
   + count_status STATUS_SKIPPED l + count_status STATUS_CANCELED l
   + count_status STATUS_QUEUED l + count_status STATUS_RUNNING l
   = Z.of_nat (length l))%Z.
Proof.
  induction l as [| it l IH]; [reflexivity |].
  rewrite !count_status_cons. cbn [length].
  destruct (status it); vm_compute status_eqb; lia.
Qed.

Lemma count_status_sweep st l :
  count_status st (sweep_item <$> l)
  = match st with
    | STATUS_QUEUED => 0%Z
    | STATUS_CANCELED => (count_status STATUS_CANCELED l + count_status STATUS_QUEUED l)%Z
    | _ => count_status st l
    end.
Proof.
  induction l as [| it l IH]; [destruct st; reflexivity |].
  rewrite fmap_cons, !count_status_cons, IH. unfold sweep_item.
  destruct it as [? ? ? s ? ? ? ? ? ? ? ? ? ?]; cbn.
  destruct s, st; vm_compute status_eqb; cbn; lia.
Qed.

Lemma count_status_retry st l :
  count_status st (retry_item <$> l)
  = match st with
    | STATUS_FAILED => 0%Z
    | STATUS_QUEUED => (count_status STATUS_QUEUED l + count_status STATUS_FAILED l)%Z
    | _ => count_status st l
    end.
Proof.
  induction l as [| it l IH]; [destruct st; reflexivity |].
  rewrite fmap_cons, !count_status_cons, IH. unfold retry_item.
  destruct it as [? ? ? s ? ? ? ? ? ? ? ? ? ?]; cbn.
  destruct s, st; vm_compute status_eqb; cbn; lia.
Qed.

End SummaryFacts.
Import SummaryFacts.

(** ** Normal forms of texts and configurations *)

Module PyStrMore.
Import PyStr.

Lemma lower_char_idem c : lower_char (lower_char c) = lower_char c.
Proof. destruct c as [[] [] [] [] [] [] [] []]; reflexivity. Qed.

Lemma lower_idem s : lower (lower s) = lower s.
Proof.
  induction s as [| c s IH]; [reflexivity |]. cbn. rewrite lower_char_idem, IH.
  reflexivity.
Qed.

Lemma lower_app a b : lower (a +:+ b) = lower a +:+ lower b.
Proof.
  induction a as [| c a IH]; [reflexivity |].
  change (String c a +:+ b) with (String c (a +:+ b)). cbn. rewrite IH. reflexivity.
Qed.

Lemma lstrip_id s : starts_nonspace s = true -> lstrip s = s.
Proof.
  destruct s as [| c s]; [discriminate |]. cbn.
  destruct (isspace c); [discriminate | reflexivity].
Qed.

Lemma lstrip_starts s : lstrip s = "" \/ starts_nonspace (lstrip s) = true.
Proof.
  induction s as [| c s IH]; [left; reflexivity |]. cbn.
  destruct (isspace c) eqn:E; [exact IH |]. right. cbn. rewrite E. reflexivity.
Qed.

Lemma rstrip_idem s : rstrip (rstrip s) = rstrip s.
Proof.
  induction s as [| c s IH]; [reflexivity |].
  rewrite rstrip_cons. destruct (rstrip s) as [| d r] eqn:E.
  - destruct (isspace c) eqn:Ec; [reflexivity |]. cbn. rewrite Ec. reflexivity.
  - rewrite rstrip_cons, IH. reflexivity.
Qed.

Lemma rstrip_starts s : starts_nonspace s = true -> starts_nonspace (rstrip s) = true.
Proof.
  destruct s as [| c s]; [discriminate |]. cbn [starts_nonspace].
  intros Hc. rewrite rstrip_cons. destruct (rstrip s).
  - destruct (isspace c) eqn:Ec; [discriminate |]. cbn. rewrite Ec. reflexivity.
  - exact Hc.
Qed.

Lemma strip_idem s : strip (strip s) = strip s.
Proof.
  unfold strip. destruct (lstrip_starts s) as [E | E].
  - rewrite E. reflexivity.
  - rewrite (lstrip_id (rstrip (lstrip s))) by (apply rstrip_starts, E).
    apply rstrip_idem.
Qed.

Lemma strip_lower_idem s : strip (lower (strip (lower s))) = strip (lower s).
Proof. rewrite <- lower_strip, strip_idem, lower_strip, lower_idem. reflexivity. Qed.

Lemma lower_strip_idem s : lower (strip (lower (strip s))) = lower (strip s).
Proof. rewrite <- lower_strip, lower_idem, lower_strip, <- lower_strip, strip_idem. reflexivity. Qed.

Lemma strip_nonempty_rstrip s : strip s = s -> rstrip s = s.
Proof. intros E. rewrite <- E at 1. unfold strip. rewrite rstrip_idem. exact E. Qed.

Lemma strip_dot s : strip s = s -> s <> "" -> strip ("." +:+ s) = "." +:+ s.
Proof.
  intros E Hs. change ("." +:+ s) with (String "." s).
  unfold strip. cbn [lstrip]. change (isspace ".") with false. cbn iota.
  rewrite rstrip_cons, (strip_nonempty_rstrip s E).
  destruct s; [congruence | reflexivity].
Qed.

Lemma prefix_dot s : String.prefix "." s = true <-> exists r, s = String "." r.
Proof.
  destruct s as [| c s]; [split; [discriminate | intros [r H]; discriminate] |].
  rewrite prefix_cons. split.
  - intros [<- _]. eauto.
  - intros [r [= -> ->]]. split; [reflexivity |]. destruct r; reflexivity.
Qed.

Lemma lower_char_dot c : lower_char c = "."%char <-> c = "."%char.
Proof.
  split; [| intros ->; reflexivity].
  destruct c as [[] [] [] [] [] [] [] []]; vm_compute; intros H;
    try discriminate H; reflexivity.
Qed.

Lemma prefix_dot_lower s : String.prefix "." (lower s) = String.prefix "." s.
Proof.
  apply Bool.eq_true_iff_eq. rewrite !prefix_dot.
  destruct s as [| c s]; cbn.
  - split; intros [r H]; discriminate.
  - split.
    + intros [r [= Hc _]]. apply (proj1 (lower_char_dot c)) in Hc. subst c. eauto.
    + intros [r [= -> ->]]. eauto.
Qed.

End PyStrMore.
Import PyStrMore.

Module ConfigFacts.
Import Config.

Lemma dotted_canonical v :
  PyStr.strip v <> "" -> canonical (dotted (PyStr.lower (PyStr.strip v))).
Proof.
  intros Hv. unfold canonical, dotted.
  assert (Hne : PyStr.lower (PyStr.strip v) <> "").
  { destruct (PyStr.strip v); [congruence | discriminate]. }
  assert (Hs : PyStr.strip (PyStr.lower (PyStr.strip v)) = PyStr.lower (PyStr.strip v)).
  { rewrite <- lower_strip, strip_idem. reflexivity. }
  destruct (String.prefix "." (PyStr.lower (PyStr.strip v))) eqn:Hp.
  - rewrite lower_idem. auto.
  - rewrite lower_app, lower_idem. cbn [PyStr.lower].
    split; [reflexivity |]. split; [apply strip_dot; assumption |].
    apply prefix_dot. eexists. reflexivity.
Qed.

Lemma canonical_nonempty e : canonical e -> e <> "".
Proof. intros (_ & _ & H) ->. discriminate. Qed.

Lemma normalize_step_canonical acc e :
  canonical e -> normalize_step acc e = if bool_decide (e ∈ acc) then acc else acc ++ [e].
Proof.
  intros He. pose proof (canonical_nonempty e He) as Hne.
  destruct He as (Hl & Hs & Hp). unfold normalize_step.
  destruct (decide (e = "")); [contradiction |].
  rewrite Hs, Hl. destruct (decide (e = "")); [contradiction |].
  rewrite Hp. reflexivity.
Qed.

Lemma normalize_step_spec acc v :
  normalize_step acc v =
  if decide (PyStr.strip v = "") then acc
  else if bool_decide (dotted (PyStr.lower (PyStr.strip v)) ∈ acc) then acc
       else acc ++ [dotted (PyStr.lower (PyStr.strip v))].
Proof.
  unfold normalize_step, dotted.
  destruct (decide (v = "")) as [-> | Hv]; [reflexivity |].
  destruct (decide (PyStr.strip v = "")) as [E | E].
  - rewrite E. reflexivity.
  - destruct (decide (PyStr.lower (PyStr.strip v) = "")) as [E' | E']; [| reflexivity].
    destruct (PyStr.strip v); [congruence | discriminate].
Qed.

Lemma foldl_normalize_step values : forall acc,
  NoDup acc -> Forall canonical acc ->
  let res := foldl normalize_step acc values in
  NoDup res /\ Forall canonical res /\
  (forall e, e ∈ res <->
     e ∈ acc \/ exists v, v ∈ values /\ PyStr.strip v <> "" /\
                          e = dotted (PyStr.lower (PyStr.strip v))).
Proof.
  induction values as [| v values IH]; intros acc Hnd Hall; cbn.
  - split; [exact Hnd |]. split; [exact Hall |].
    intros e. split; [auto |]. intros [H | (v & Hv & _)]; [exact H | inversion Hv].
  - rewrite normalize_step_spec.
    destruct (decide (PyStr.strip v = "")) as [E | E].
    + destruct (IH acc Hnd Hall) as (H1 & H2 & H3).
      split; [exact H1 |]. split; [exact H2 |].
      intros e. rewrite H3. split.
      * intros [H | (v' & Hv' & Hs & He)]; [auto |].
        right. exists v'. split; [apply list_elem_of_further, Hv' | auto].
      * intros [H | (v' & Hv' & Hs & He)]; [auto |].
        apply elem_of_cons in Hv' as [-> | Hv']; [contradiction |].
        right. exists v'. auto.
    + case_bool_decide as Hin.
      * destruct (IH acc Hnd Hall) as (H1 & H2 & H3).
        split; [exact H1 |]. split; [exact H2 |].
        intros e. rewrite H3. split.
        -- intros [H | (v' & Hv' & Hs & He)]; [auto |].
           right. exists v'. split; [apply list_elem_of_further, Hv' | auto].
        -- intros [H | (v' & Hv' & Hs & He)]; [auto |].
           apply elem_of_cons in Hv' as [-> | Hv']; [subst e; auto |].
           right. exists v'. auto.
      * destruct (IH (acc ++ [dotted (PyStr.lower (PyStr.strip v))])) as (H1 & H2 & H3).
        { apply NoDup_app. split; [exact Hnd |]. split; [| apply NoDup_singleton].
          intros x Hx Hx'. apply list_elem_of_singleton in Hx'. subst x. contradiction. }
        { apply Forall_app. split; [exact Hall |]. constructor; [| constructor].
          apply dotted_canonical, E. }
        split; [exact H1 |]. split; [exact H2 |].
        intros e. rewrite H3, elem_of_app, list_elem_of_singleton. split.
        -- intros [[H | ->] | (v' & Hv' & Hs & He)]; [auto | |].
           ++ right. exists v. split; [apply list_elem_of_here | auto].
           ++ right. exists v'. split; [apply list_elem_of_further, Hv' | auto].
        -- intros [H | (v' & Hv' & Hs & He)]; [auto |].
           apply elem_of_cons in Hv' as [-> | Hv']; [subst e; auto |].
           right. exists v'. auto.
Qed.

Lemma foldl_normalize_canonical l : forall acc,
  NoDup (acc ++ l) -> Forall canonical l -> foldl normalize_step acc l = acc ++ l.
Proof.
  induction l as [| e l IH]; intros acc Hnd Hall; cbn.
  - rewrite app_nil_r. reflexivity.
  - inversion Hall as [| ? ? He Hl]; subst.
    rewrite (normalize_step_canonical acc e He).
    apply NoDup_app in Hnd as (Ha & Hdis & Hel).
    rewrite bool_decide_eq_false_2.
    + rewrite IH; [rewrite <- app_assoc; reflexivity | | exact Hl].
      rewrite <- app_assoc. cbn. apply NoDup_app. auto.
    + intros Hin. apply (Hdis e Hin). apply list_elem_of_here.
Qed.

Lemma _normalize_extensions_spec values :
  let res := _normalize_extensions values in
  NoDup res /\ Forall canonical res /\
  (forall e, e ∈ res <->
     exists v, v ∈ values /\ PyStr.strip v <> "" /\
               e = dotted (PyStr.lower (PyStr.strip v))).
Proof.
  destruct (foldl_normalize_step values [] (NoDup_nil_2) (Forall_nil_2 _))
    as (H1 & H2 & H3).
  split; [exact H1 |]. split; [exact H2 |].
  intros e. unfold _normalize_extensions. rewrite H3. split.
  - intros [H | H]; [inversion H | exact H].
  - auto.
Qed.

Lemma _normalize_extensions_idem values :
  _normalize_extensions (_normalize_extensions values) = _normalize_extensions values.
Proof.
  destruct (_normalize_extensions_spec values) as (H1 & H2 & _).
  unfold _normalize_extensions at 1.
  rewrite foldl_normalize_canonical; [reflexivity | exact H1 | exact H2].
Qed.

Lemma normalize_idem c : normalize (normalize c) = normalize c.
Proof.
  unfold normalize. cbn -[PyStr.strip PyStr.lower _normalize_extensions].
  rewrite !strip_lower_idem, _normalize_extensions_idem. reflexivity.
Qed.

End ConfigFacts.
Import ConfigFacts.

Module ValidateFacts.
Import Config.

Lemma check_valid c : check c = None <-> valid c.
Proof.
  unfold check, valid.
  case_bool_decide as H1; [split; [discriminate | intros (H & _); tauto] |].
  case_bool_decide as H2; [split; [discriminate | intros (_ & H & _); tauto] |].
  destruct ((0 <=? crf c)%Z && (crf c <=? 51)%Z) eqn:H3; cbn [negb];
    [| split; [discriminate |]; intros (_ & _ & H & _);
       apply andb_false_iff in H3 as [H3 | H3]; apply Z.leb_gt in H3; lia].
  apply andb_true_iff in H3 as [H3 H3']. apply Z.leb_le in H3, H3'.
  case_bool_decide as H4; [split; [discriminate | intros (_ & _ & _ & H & _); tauto] |].
  destruct (audio_bitrate_kbps c <=? 0)%Z eqn:H5;
    [split; [discriminate |]; intros (_ & _ & _ & _ & H & _);
     apply Z.leb_le in H5; lia |].
  apply Z.leb_gt in H5.
  destruct (match target_fps c with Some f => (f <=? 0)%Z | None => false end) eqn:H6.
  { split; [discriminate |]. intros (_ & _ & _ & _ & _ & H & _).
    destruct (target_fps c) as [f |]; [| discriminate].
    specialize (H f eq_refl). apply Z.leb_le in H6. lia. }
  destruct (workers c <? 1)%Z eqn:H7;
    [split; [discriminate |]; intros (_ & _ & _ & _ & _ & _ & H & _);
     apply Z.ltb_lt in H7; lia |].
  apply Z.ltb_ge in H7.
  case_bool_decide as H8;
    [split; [discriminate | intros (_ & _ & _ & _ & _ & _ & _ & H & _); tauto] |].
  case_bool_decide as H9;
    [split; [discriminate | intros (_ & _ & _ & _ & _ & _ & _ & _ & H); tauto] |].
  split; [| reflexivity]. intros _.
  repeat split; try lia;
    try (match goal with
         | |- ?x ∈ ?l => destruct (decide (x ∈ l)); [assumption | tauto]
         end).
  intros f Hf. rewrite Hf in H6. apply Z.leb_gt in H6. lia.
Qed.

End ValidateFacts.
Import ValidateFacts.

(** ** The encoder command *)

Module CommandFacts.
Import Command.

Lemma with_progress_snoc front out :
  with_progress (front ++ [out])
  = Some (front ++ ["-progress"; "pipe:1"; "-loglevel"; "error"; out]).
Proof.
  unfold with_progress. rewrite last_snoc, removelast_last. reflexivity.
Qed.

Lemma getitem_two a x b y key :
  getitem [(a, x); (b, y)] key = None <-> key ∉ [a; b].
Proof.
  cbn. destruct (decide (key = a)) as [-> | Ha]; [| destruct (decide (key = b)) as [-> | Hb]].
  - split; [discriminate | intros H; exfalso; apply H, list_elem_of_here].
  - split; [discriminate |].
    intros H; exfalso; apply H, list_elem_of_further, list_elem_of_here.
  - split; [| reflexivity]. intros _ H.
    apply elem_of_cons in H as [H | H]; [contradiction |].
    apply list_elem_of_singleton in H. contradiction.
Qed.

Lemma getitem_two_some a x b y key :
  key ∈ [a; b] -> exists v, getitem [(a, x); (b, y)] key = Some v.
Proof.
  intros H. destruct (getitem [(a, x); (b, y)] key) eqn:E; [eauto |].
  apply (proj1 (getitem_two a x b y key)) in E. contradiction.
Qed.

Section BuildCommand.
Variables (input output video_codec : string) (crf : Z) (preset audio_codec : string).
Variables (audio_bitrate_kbps : Z) (target_fps : option Z) (overwrite : bool).
Variables (gpu_type : string) (use_gpu use_hw_decode copy_audio skip_reencode : bool).

Let build : built :=
  build_ffmpeg_command input output video_codec crf preset audio_codec
    audio_bitrate_kbps target_fps overwrite gpu_type use_gpu use_hw_decode
    copy_audio skip_reencode.

Lemma build_shape (cmd : list string) :
  build = Cmd cmd ->
  exists hw rest,
    cmd = ["ffmpeg"; "-hide_banner"; "-nostats"; if overwrite then "-y" else "-n"]
            ++ hw ++ ["-i"; input] ++ rest ++ [output] /\
    (hw = [] \/
     (exists accel, hw = ["-hwaccel"; accel]) /\
     use_gpu = true /\ use_hw_decode = true /\ skip_reencode = false /\
     gpu_type ∈ known_gpus) /\
    with_progress cmd
    = Some (["ffmpeg"; "-hide_banner"; "-nostats"; if overwrite then "-y" else "-n"]
              ++ hw ++ ["-i"; input] ++ rest
              ++ ["-progress"; "pipe:1"; "-loglevel"; "error"; output]).
Proof.
  unfold build, build_ffmpeg_command. clear build.
  destruct skip_reencode.
  { intros [= <-]. exists [], ["-c"; "copy"; "-map_metadata"; "0"].
    split; [reflexivity |]. split; [auto | reflexivity]. }
  destruct (if use_gpu && negb (bool_decide (gpu_type = "none")) then _ else _)
    as [codec_map hwaccel] eqn:Hsel.
  assert (Hk : forall x, hwaccel = Some x -> use_gpu = true /\ gpu_type ∈ known_gpus).
  { intros x ->. revert Hsel. unfold known_gpus.
    destruct use_gpu; [| discriminate]. cbn [andb].
    destruct (negb (bool_decide (gpu_type = "none"))); [| discriminate].
    repeat (destruct (decide _) as [-> | _];
            [intros _; split; [reflexivity |];
             repeat first [apply list_elem_of_here | apply list_elem_of_further] |]).
    discriminate. }
  destruct (getitem codec_map video_codec) as [vcodec |]; [| discriminate].
  destruct (if copy_audio then Some "copy" else _) as [acodec |]; [| discriminate].
  intros [= <-].
  destruct hwaccel as [accel |]; [destruct use_hw_decode eqn:Hhd |];
    destruct (negb copy_audio); destruct target_fps as [f |];
    try destruct (f =? 0)%Z;
    destruct (bool_decide (audio_codec = "opus") && _);
    destruct (endswith ".mp4" (PyStr.lower output) || _);
    cbn [app];
    match goal with
    | |- exists hw rest, ?c = _ /\ _ =>
        first
          [ exists [], (removelast (drop 6 c));
            split; [reflexivity |]; split; [left; reflexivity | reflexivity]
          | exists (take 2 (drop 4 c)), (removelast (drop 8 c));
            split; [reflexivity |];
            split; [| reflexivity];
            right; destruct (Hk accel eq_refl); eauto 10 ]
    end.
Qed.

Lemma build_key_error (key : string) :
  build = KeyError key <->
  skip_reencode = false /\
  (((video_codec ∉ ["h264"; "h265"]) /\ key = video_codec) \/
   (video_codec ∈ ["h264"; "h265"] /\ copy_audio = false /\
    (audio_codec ∉ ["aac"; "opus"]) /\ key = audio_codec)).
Proof.
  unfold build, build_ffmpeg_command. clear build.
  destruct skip_reencode.
  { split; [discriminate | intros [H _]; discriminate]. }
  destruct (if use_gpu && negb (bool_decide (gpu_type = "none")) then _ else _)
    as [codec_map hwaccel] eqn:Hsel.
  assert (Hmap : exists x y, codec_map = [("h264", x); ("h265", y)]).
  { revert Hsel. destruct (use_gpu && negb (bool_decide (gpu_type = "none")));
      repeat (destruct (decide _) as [_ | _]); intros [= <- _]; eauto. }
  destruct Hmap as (x & y & ->).
  destruct (getitem [("h264", x); ("h265", y)] video_codec) as [vcodec |] eqn:Ev.
  - assert (Hv : video_codec ∈ ["h264"; "h265"]).
    { destruct (decide (video_codec ∈ ["h264"; "h265"])) as [H | H]; [exact H |].
      apply (proj2 (getitem_two _ x _ y _)) in H. congruence. }
    destruct copy_audio.
    + split; [discriminate |].
      intros [_ [[H _] | (_ & H & _)]]; [contradiction | discriminate].
    + destruct (getitem [("aac", "aac"); ("opus", "libopus")] audio_codec)
        as [acodec |] eqn:Ea.
      * split; [discriminate |].
        intros [_ [[H _] | (_ & _ & H & _)]]; [contradiction |].
        apply (proj2 (getitem_two _ "aac" _ "libopus" _)) in H. congruence.
      * apply (proj1 (getitem_two _ _ _ _ _)) in Ea. split.
        -- intros [= <-]. auto 10.
        -- intros [_ [[H _] | (_ & _ & _ & ->)]]; [contradiction | reflexivity].
  - apply (proj1 (getitem_two _ _ _ _ _)) in Ev. split.
    + intros [= <-]. auto.
    + intros [_ [[_ ->] | (H & _)]]; [reflexivity | contradiction].
Qed.

End BuildCommand.

End CommandFacts.
Import CommandFacts.

(** ** Statistics *)

Module LoggingFacts.
Import Logging.
Local Open Scope Z_scope.

Lemma count_calls_cons st c l :
  count_calls st (c :: l)
  = (if decide (call_status c = st) then 1 else 0) + count_calls st l.
Proof.
  unfold count_calls. rewrite filter_cons.
  destruct (decide (call_status c = st)); cbn [length]; lia.
Qed.

Lemma _update_summary_fields s st ib ob secs :
  let s' := _update_summary s st ib ob secs in
  total s' = total s + 1 /\
  completed s' = completed s + (if decide (st = "completed") then 1 else 0) /\
  failed s' = failed s + (if decide (st = "failed") then 1 else 0) /\
  skipped s' = skipped s + (if decide (st = "skipped") then 1 else 0) /\
  canceled s' = canceled s + (if decide (st = "canceled") then 1 else 0) /\
  total_input_bytes s' = total_input_bytes s + default 0 ib /\
  total_output_bytes s' = total_output_bytes s + default 0 ob.
Proof.
  unfold _update_summary.
  destruct (decide (st = "completed")) as [E1 | E1];
    destruct (decide (st = "failed")) as [E2 | E2];
    destruct (decide (st = "skipped")) as [E3 | E3];
    destruct (decide (st = "canceled")) as [E4 | E4];
    try congruence;
    destruct ib as [a |]; try (destruct (Z.eqb_spec a 0));
    destruct ob as [b |]; try (destruct (Z.eqb_spec b 0));
    destruct secs as [t |]; try destruct (truthy t);
    unfold set_total, set_completed, set_failed, set_skipped, set_canceled,
      set_total_input_bytes, set_total_output_bytes, set_total_seconds;
    cbn [total completed failed skipped canceled total_input_bytes
         total_output_bytes default from_option negb];
    unfold Datatypes.id; repeat split; lia.
Qed.

Lemma update_all_counts calls : forall s,
  let s' := update_all s calls in
  total s' = total s + Z.of_nat (length calls) /\
  completed s' = completed s + count_calls "completed" calls /\
  failed s' = failed s + count_calls "failed" calls /\
  skipped s' = skipped s + count_calls "skipped" calls /\
  canceled s' = canceled s + count_calls "canceled" calls /\
  total_input_bytes s' = total_input_bytes s + sum_sizes (call_input_bytes <$> calls) /\
  total_output_bytes s' = total_output_bytes s + sum_sizes (call_output_bytes <$> calls).
Proof.
  induction calls as [| c calls IH]; intros s.
  - cbn. unfold count_calls. cbn. lia.
  - cbn [update_all foldl].
    pose proof (_update_summary_fields s (call_status c) (call_input_bytes c)
                  (call_output_bytes c) (call_seconds c)) as Hstep.
    set (s1 := _update_summary s (call_status c) (call_input_bytes c)
                 (call_output_bytes c) (call_seconds c)) in *.
    cbn zeta in Hstep. destruct Hstep as (G1 & G2 & G3 & G4 & G5 & G6 & G7).
    fold (update_all s1 calls).
    destruct (IH s1) as (H1 & H2 & H3 & H4 & H5 & H6 & H7).
    cbn zeta. rewrite H1, H2, H3, H4, H5, H6, H7, G1, G2, G3, G4, G5, G6, G7.
    rewrite !count_calls_cons, !fmap_cons. cbn [sum_sizes foldr length].
    fold (sum_sizes (call_input_bytes <$> calls)).
    fold (sum_sizes (call_output_bytes <$> calls)).
    repeat split; lia.
Qed.

Lemma round_unit_interval q :
  (0 <= q)%Q -> (q <= 1)%Q -> exists v, round q = Fin v /\ (0 <= v)%Q /\ (v <= 1)%Q.
Proof.
  intros H0 H1.
  destruct (round_below q 1 1 H0 H1 round_1) as [v Hv].
  exists v. split; [exact Hv |]. split.
  - apply (round_nonneg q v H0 Hv).
  - apply (round_mono q 1 v 1 H1 Hv round_1).
Qed.

Lemma round_100 : round 100 = Fin 100.
Proof. vm_compute. reflexivity. Qed.

Lemma round_percent v :
  (0 <= v)%Q -> (v <= 1)%Q ->
  exists r, round (v * 100) = Fin r /\ (0 <= r)%Q /\ (r <= 100)%Q.
Proof.
  intros H0 H1.
  assert (Ha : (0 <= v * 100)%Q) by lra.
  assert (Hb : (v * 100 <= 100)%Q) by lra.
  destruct (round_below (v * 100) 100 100 Ha Hb round_100) as [r Hr].
  exists r. split; [exact Hr |]. split.
  - apply (round_nonneg _ r Ha Hr).
  - apply (round_mono _ 100 r 100 Hb Hr round_100).
Qed.

End LoggingFacts.
Import LoggingFacts.

(** ** The progress mapping at its edges *)

Module FfmpegMore.
Local Open Scope Q_scope.

Lemma scaled_ge_1 x : pow2 (-1074) <= x -> 1 <= x / pow2 (ulp_exp x).
Proof.
  intros Hx.
  assert (Hpos : 0 < x).
  { eapply Qlt_le_trans; [apply (pow2_pos (-1074)) | exact Hx]. }
  apply Qle_shift_div_l; [apply pow2_pos |]. rewrite Qmult_1_l.
  unfold ulp_exp. destruct (Z.max_spec (ilog2 x - 52) (-1074)) as [[_ ->] | [_ ->]].
  - exact Hx.
  - destruct (ilog2_spec x Hpos) as [Hlo _].
    eapply Qle_trans; [| exact Hlo]. apply pow2_le. lia.
Qed.

Lemma round_val_pos x : pow2 (-1074) <= x -> 0 < round_val x.
Proof.
  intros Hx. unfold round_val.
  pose proof (scaled_ge_1 x Hx) as H1.
  assert (Hk : (1 <= rne (x / pow2 (ulp_exp x)))%Z) by (apply rne_ge_inject; exact H1).
  pose proof (pow2_pos (ulp_exp x)) as Hp.
  assert (Hk' : 1 <= inject_Z (rne (x / pow2 (ulp_exp x)))).
  { change 1 with (inject_Z 1). rewrite <- Zle_Qle. exact Hk. }
  eapply Qlt_le_trans; [exact Hp |].
  rewrite <- (Qmult_1_l (pow2 (ulp_exp x))) at 1.
  apply Qmult_le_compat_r; [exact Hk' | apply Qlt_le_weak, Hp].
Qed.

(** A positive binary64 value is at least the least subnormal. *)
Lemma binary64_pos_ge v : round v = Fin v -> 0 < v -> pow2 (-1074) <= v.
Proof.
  intros Hr Hv.
  destruct (round_inv v v Hr) as [[H0 _] | [[_ Hm] | [Hneg _]]]; [lra | | lra].
  destruct (round_mag_inv v v Hm) as [Heq _].
  assert (G : pow2 (-1074) <= round_val v); [| lra].
  assert (Hpos : 0 < round_val v) by lra.
  unfold round_val in *.
  set (e := ulp_exp v) in *. set (k := rne (v / pow2 e)) in *.
  pose proof (pow2_pos e) as Hp.
  assert (Hk : (1 <= k)%Z).
  { destruct (Z_lt_le_dec k 1) as [Hlt | Hge]; [| exact Hge]. exfalso.
    assert (Hle : inject_Z k <= 0).
    { change 0 with (inject_Z 0). rewrite <- Zle_Qle. lia. }
    assert (inject_Z k * pow2 e <= 0 * pow2 e).
    { apply Qmult_le_compat_r; [exact Hle | apply Qlt_le_weak, Hp]. }
    lra. }
  assert (Hk' : 1 <= inject_Z k).
  { change 1 with (inject_Z 1). rewrite <- Zle_Qle. exact Hk. }
  eapply Qle_trans; [apply (pow2_le (-1074) e); unfold e, ulp_exp; lia |].
  rewrite <- (Qmult_1_l (pow2 e)) at 1.
  apply Qmult_le_compat_r; [exact Hk' | apply Qlt_le_weak, Hp].
Qed.

(** The product of a positive binary64 duration and a million does not
    round to zero. *)
Lemma total_us_pos v :
  round v = Fin v -> 0 < v -> fle (fmul (Fin v) (Fin 1000000)) (Fin 0) = false.
Proof.
  intros Hr Hv. pose proof (binary64_pos_ge v Hr Hv) as Hge.
  assert (Hx : pow2 (-1074) <= v * 1000000).
  { eapply Qle_trans; [exact Hge |]. lra. }
  assert (Hxpos : 0 < v * 1000000) by lra.
  cbn [fmul]. unfold round.
  destruct (Qcompare_spec (v * 1000000) 0) as [H | H | H]; [lra | lra |].
  destruct (round_mag (v * 1000000)) as [t |] eqn:Hm; [| reflexivity].
  destruct (round_mag_inv _ _ Hm) as [Heq _].
  pose proof (round_val_pos _ Hx) as Hp. cbn [fle].
  destruct (Qle_bool t 0) eqn:Hb; [| reflexivity].
  apply Qle_bool_iff in Hb. lra.
Qed.

Lemma progress_none_iff out d :
  binary64 d ->
  (progress_from_out_time out (Some d) = Ret None <-> fle d (Fin 0) = true).
Proof.
  intros Hb. split.
  - destruct (fle d (Fin 0)) eqn:Hd; [reflexivity |]. intros H. exfalso.
    revert H. unfold progress_from_out_time. rewrite Hd.
    assert (Ht : fle (fmul d (Fin 1000000)) (Fin 0) = false).
    { destruct d as [| [] | v]; try reflexivity; try discriminate.
      apply total_us_pos; [exact Hb |]. apply fle_fin_false in Hd. exact Hd. }
    rewrite Ht.
    destruct (of_int out) as [x | e]; cbn; [| discriminate].
    destruct (fdiv x (fmul d (Fin 1000000))) as [q | e]; cbn; [| discriminate].
    destruct (math_floor (fmul q (Fin 100))) as [f | e]; cbn; discriminate.
  - intros Hd. apply progress_from_out_time_unknown. right. eauto.
Qed.

Lemma progress_infinite out x :
  round (inject_Z out) = Fin x ->
  progress_from_out_time out (Some (Inf false)) = Ret (Some 0%Z).
Proof.
  intros Hx. unfold progress_from_out_time, of_int. cbn. rewrite Hx. cbn.
  reflexivity.
Qed.

End FfmpegMore.
Import FfmpegMore.

(** * The claims *)

(** [cancel()] returns, and leaves every job that is not Queued as it
    is. *)
Lemma cancel_sweeps_queued_items (h : BatchHandle) :
  exists h',
    cancel h = (Ret tt, h') /\
    forall i it, items h !! i = Some it -> status it <> STATUS_QUEUED ->
      items h' !! i = Some it.
Proof.
  unfold cancel. cbn. rewrite terminate_all_eq.
  eexists. split; [reflexivity |]. cbn.
  intros i it Hi Hq. rewrite list_lookup_fmap, Hi. cbn. f_equal.
  unfold sweep_item, status_eqb. case_bool_decide; [contradiction | reflexivity].
Qed.

(** C8: [_terminate_process] first calls [terminate()]; it calls [kill()]
    exactly when that call went through and the process has not exited
    within the grace period of 3 time units; and it never raises, whether
    [terminate()] fails, the wait times out or [kill()] fails. *)
Theorem terminate_process_graceful_then_kill (p : process) :
  exists p',
    _terminate_process p = (Ret tt, p') /\
    signals p' =
      signals p ++ SIGTERM ::
        (if terminate_fails p || exited_within 3 p then [] else [SIGKILL]).
Proof.
  exists (terminated p).
  split; [apply _terminate_process_eq | apply signals_terminated].
Qed.

(** C2: [cancel()] returns without an exception with the cancellation flag
    set; afterwards no job is Queued; every job that was Queued is Canceled
    and, when there is an item callback, was reported to it in that state;
    every other job is as it was; every registered process got a
    [terminate()] call; and a second [cancel()] leaves every job as the
    first left it. *)
Theorem cancel_sweeps_queued (h : BatchHandle) :
  exists h',
    cancel h = (Ret tt, h') /\
    _cancel_event h' = true /\
    (forall it, it ∈ items h' -> status it <> STATUS_QUEUED) /\
    (forall i it, items h !! i = Some it -> status it = STATUS_QUEUED ->
       exists it',
         items h' !! i = Some it' /\ status it' = STATUS_CANCELED /\
         (has_callback h = true ->
          EvItemUpdate it' ∈ drop (length (trace h)) (trace h'))) /\
    (forall i it, items h !! i = Some it -> status it <> STATUS_QUEUED ->
       items h' !! i = Some it) /\
    (forall j k p, _running_processes h !! j = Some (k, p) ->
       exists p' rest,
         _running_processes h' !! j = Some (k, p') /\
         signals p' = signals p ++ SIGTERM :: rest) /\
    (exists h'', cancel h' = (Ret tt, h'') /\ items h'' = items h').
Proof.
  unfold cancel. cbn. rewrite terminate_all_eq.
  eexists. split; [reflexivity |]. cbn.
  split; [reflexivity |]. split; [| split; [| split; [| split]]].
  - intros it Hin. apply list_elem_of_fmap in Hin as (it0 & -> & _).
    apply sweep_item_status.
  - intros i it Hi Hq. exists (sweep_item it).
    split; [rewrite list_lookup_fmap, Hi; reflexivity |].
    split; [unfold sweep_item, status_eqb; rewrite Hq; reflexivity |].
    intros Hcb. rewrite drop_app_length, Hcb. apply report_spec.
    exists i, (sweep_item it). split; [| split; [| reflexivity]].
    + apply positions_of_spec. exists i, it. auto.
    + rewrite list_lookup_fmap, Hi. reflexivity.
  - intros i it Hi Hq. rewrite list_lookup_fmap, Hi. cbn. f_equal.
    unfold sweep_item, status_eqb. case_bool_decide; [contradiction | reflexivity].
  - intros j k p Hj. unfold registry in *.
    rewrite (list_lookup_fmap (prod_map Datatypes.id terminated)), Hj. cbn.
    eexists. eexists. split; [reflexivity | apply signals_terminated].
  - rewrite terminate_all_eq. eexists. split; [reflexivity |]. cbn.
    rewrite <- list_fmap_compose. apply list_fmap_ext.
    intros i it _. apply sweep_item_idem.
Qed.


(** C9: [wait()] returns exactly when every worker thread ends; when it
    returns no thread is alive.  If no earlier call had closed the logging
    sink, the call closes it, once: it makes one [close()] call, after which
    neither log file is open, every file that had been opened is closed and
    a file that had not been opened still is not.  If an earlier call had
    closed the sink, the call makes no [close()] call and leaves the sink as
    it is.  A further [wait()] returns at once and changes nothing: it
    closes nothing again. *)
Theorem wait_closes_logger_once (h : BatchHandle) :
  (wait h = None <-> exists th, th ∈ _threads h /\ finishes_at th = None) /\
  (forall h', wait h = Some h' ->
     is_running h' = false /\
     _closed h' = true /\
     trace h' = trace h ++ (if _closed h then [] else [EvLogClose]) /\
     _logger h' = (if _closed h then _logger h else logger_close (_logger h)) /\
     (_closed h = false ->
      _csv_file (_logger h') <> Some FileOpen /\
      _json_file (_logger h') <> Some FileOpen /\
      (_csv_file (_logger h) <> None -> _csv_file (_logger h') = Some FileClosed) /\
      (_json_file (_logger h) <> None -> _json_file (_logger h') = Some FileClosed) /\
      (_csv_file (_logger h) = None -> _csv_file (_logger h') = None) /\
      (_json_file (_logger h) = None -> _json_file (_logger h') = None)) /\
     wait h' = Some h').
Proof.
  unfold wait. split.
  - rewrite <- (join_all_none (clock h)).
    destruct (join_all (clock h) (_threads h)); [| split; reflexivity].
    cbn. destruct (_closed h); split; discriminate.
  - intros h'. destruct (join_all (clock h) (_threads h)) as [now |] eqn:Ej;
      [| discriminate].
    assert (Hrun : existsb (thread_alive now) (_threads h) = false).
    { apply not_true_is_false. intros Hex.
      apply existsb_exists in Hex as (th & Hin & Halive).
      apply list_elem_of_In in Hin.
      rewrite (join_all_finished _ _ _ _ Ej Hin) in Halive. discriminate. }
    pose proof (join_all_again _ _ _ Ej) as Hagain.
    cbn. destruct (_closed h) eqn:Ec; intros [= <-]; cbn;
      unfold is_running; cbn; rewrite ?Ec, ?Hagain, ?app_nil_r; cbn.
    + repeat split; try assumption; try reflexivity; discriminate.
    + split; [exact Hrun |]. split; [reflexivity |]. split; [reflexivity |].
      split; [reflexivity |]. split; [| reflexivity].
      intros _. unfold close_file.
      destruct (_csv_file (_logger h)) as [c |], (_json_file (_logger h)) as [j |];
        repeat split; congruence.
Qed.

Lemma wait_closes_logger_once_witness :
  exists h',
    wait (mkHandle [sample_item] [] true false [] [mkThread (Some 5%nat)]
            (mkLogger true false (Some FileOpen) None) false false [] 0)
    = Some h' /\
    trace h' = [EvLogClose] /\
    _csv_file (_logger h') = Some FileClosed /\
    _json_file (_logger h') = None /\
    wait h' = Some h'.
Proof.
  set (h := mkHandle [sample_item] [] true false [] [mkThread (Some 5%nat)]
              (mkLogger true false (Some FileOpen) None) false false [] 0).
  destruct (wait h) as [h' |] eqn:E; [| vm_compute in E; discriminate].
  destruct (proj2 (wait_closes_logger_once h) h' E)
    as (_ & _ & Htrace & _ & Hfiles & Hagain).
  destruct (Hfiles eq_refl) as (_ & _ & Hcsv & _ & _ & Hjson).
  exists h'. split; [reflexivity |]. split; [exact Htrace |].
  split; [apply Hcsv; discriminate |]. split; [apply Hjson; reflexivity | exact Hagain].
Defined.


(** C10, as the code has it: with [dry_run] set, a job whose run sees no
    cancellation at its start, makes the output directory and has an output
    path with a file name is reported Running and then ends Skipped with the
    message "dry-run": the run makes the directory, reports the item to the
    callback and to the log, and does nothing else: no probe, no process,
    no output file, the registry untouched.  The other jobs do not end
    Skipped: a run that sees the cancellation at its start leaves the job
    Canceled, reported and not logged; when the output directory cannot be
    made the run raises the OSError, and when the output path has no file
    name it raises ValueError, and both leave the job Running, reported
    once and not logged. *)
Theorem dry_run_skips_without_encoding config cb env w :
  dry_run config = true ->
  (cancel_seen env w = false ->
   mkdir_error env = None ->
   name (Path_of (output_path (w_item w))) <> "" ->
   exists w',
     _process_item config cb env w = Some (Ret tt, w') /\
     status (started env (w_item w)) = STATUS_RUNNING /\
     status (w_item w') = STATUS_SKIPPED /\
     message (w_item w') = "dry-run" /\
     w_reg w' = w_reg w /\
     w_trace w' =
       w_trace w ++ update cb (started env (w_item w))
         ++ [EvMkdir (dir (Path_of (output_path (w_item w))))]
         ++ update cb (w_item w')
         ++ [EvLogItem (w_item w')]) /\
  (cancel_seen env w = true ->
   exists w',
     _process_item config cb env w = Some (Ret tt, w') /\
     status (w_item w') = STATUS_CANCELED /\
     w_reg w' = w_reg w /\
     w_trace w' = w_trace w ++ update cb (w_item w')) /\
  (cancel_seen env w = false ->
   forall msg, mkdir_error env = Some msg ->
   exists w',
     _process_item config cb env w = Some (Raise (OSError msg), w') /\
     status (w_item w') = STATUS_RUNNING /\
     w_reg w' = w_reg w /\
     w_trace w' = w_trace w ++ update cb (w_item w')) /\
  (cancel_seen env w = false ->
   mkdir_error env = None ->
   name (Path_of (output_path (w_item w))) = "" ->
   exists w',
     _process_item config cb env w = Some (Raise ValueError, w') /\
     status (w_item w') = STATUS_RUNNING /\
     w_reg w' = w_reg w /\
     w_trace w' =
       w_trace w ++ update cb (w_item w')
         ++ [EvMkdir (dir (Path_of (output_path (w_item w))))]).
Proof.
  intros Hdry. split; [| split; [| split]].
  - intros Hc Hmk Hname.
    destruct (_process_item_dry_run config cb env w Hdry Hc Hmk Hname)
      as (w' & Hrun & Hitem & Hreg & _ & Htrace).
    exists w'. rewrite Hitem in *. repeat split; assumption || reflexivity.
  - intros Hc. rewrite (run_canceled_at_entry config cb env w Hc).
    eexists. split; [reflexivity |]. cbn. auto.
  - intros Hc msg Hmk. rewrite (run_mkdir_failed config cb env w msg Hc Hmk).
    eexists. split; [reflexivity |]. cbn. auto.
  - intros Hc Hmk Hname. rewrite (run_no_name config cb env w Hc Hmk Hname).
    eexists. split; [reflexivity |]. cbn. auto.
Qed.

Lemma dry_run_skips_without_encoding_witness :
  exists w',
    _process_item (sample_config true "skip") true
      (sample_env (sample_probe None) [] [] 0) sample_world = Some (Ret tt, w') /\
    status (w_item w') = STATUS_SKIPPED.
Proof.
  destruct (dry_run_skips_without_encoding (sample_config true "skip") true
              (sample_env (sample_probe None) [] [] 0) sample_world eq_refl)
    as [Hskip _].
  destruct Hskip as (w' & Hrun & _ & Hst & _).
  - reflexivity.
  - reflexivity.
  - vm_compute. discriminate.
  - exists w'. split; assumption.
Defined.

(** C10 as stated fails: this job is dequeued with [dry_run] set, and its
    output directory cannot be made; the run reports the job Running and
    raises the OSError, so the job stays Running and is not logged. *)
Lemma dry_run_job_stays_running :
  dry_run (sample_config true "skip") = true /\
  exists w',
    _process_item (sample_config true "skip") true denied_env sample_world
    = Some (Raise (OSError "denied"), w') /\
    status (w_item w') = STATUS_RUNNING /\
    updates (w_trace w') = [w_item w'] /\
    logged (w_trace w') = [].
Proof. split; [reflexivity |]. eexists. repeat split; vm_compute; reflexivity. Qed.

(** C7: under the policy [suffix], with an output directory, the scan
    returns; the destination of every job is a path that does not exist;
    it is the destination of the job's file when that is free, and
    otherwise the name [stem_N] with the extension, for the least [N >= 1]
    whose name is free; and the destinations are the same whatever
    [stat()] answers, so a second scan of the same file system gives them
    again. *)
Theorem scan_suffix_destination config fs stat files :
  collision_policy config = "suffix" -> output_dir config <> "" ->
  exists jobs,
    scan_inputs config fs stat files = Some jobs /\
    (forall it, it ∈ jobs ->
       (output_path it ∉ fs) /\
       exists w, w ∈ files /\
         let out := destination config w in
         ((path_str out ∉ fs) /\ output_path it = path_str out) \/
         ((path_str out ∈ fs) /\
          exists N, (1 <= N)%nat /\
            output_path it
            = path_str (with_name out (stem out +:+ "_" +:+ pretty N +:+ suffix out)) /\
            forall k, (1 <= k < N)%nat ->
              path_str (with_name out (stem out +:+ "_" +:+ pretty k +:+ suffix out))
              ∈ fs)) /\
    (forall stat',
       fmap (M := option) (fmap (M := list) output_path)
         (scan_inputs config fs stat' files)
       = Some (output_path <$> jobs)).
Proof.
  intros Hpol Hout. unfold scan_inputs.
  destruct (scan_loop_total config fs stat 1 files) as [jobs Hjobs].
  exists jobs. split; [exact Hjobs |]. split.
  - intros it Hin.
    destruct (scan_loop_elem _ _ _ _ _ _ _ Hjobs Hin) as (i & w & Hw & Hsf).
    destruct (scan_file_suffix _ _ _ _ _ _ Hpol Hout Hsf)
      as [[Hfree ->] | [Hex (N & HN & -> & Hfree & Hbelow)]].
    + split; [exact Hfree |]. exists w. split; [exact Hw |]. left. auto.
    + split; [exact Hfree |]. exists w. split; [exact Hw |]. right.
      split; [exact Hex |]. exists N. auto.
  - intros stat'. rewrite (scan_loop_stat config fs stat' stat 1 files), Hjobs.
    reflexivity.
Qed.

Lemma scan_suffix_destination_witness :
  exists jobs,
    scan_inputs (sample_config false "suffix") {["out/a.mp4"; "out/a_1.mp4"]}
      (fun _ => None) [mkWalked "" "a.mp4"; mkWalked "" "b.mp4"; mkWalked "" "c.txt"]
    = Some jobs /\
    output_path <$> jobs = ["out/a_2.mp4"; "out/b.mp4"].
Proof.
  destruct (scan_suffix_destination (sample_config false "suffix")
              {["out/a.mp4"; "out/a_1.mp4"]} (fun _ => None)
              [mkWalked "" "a.mp4"; mkWalked "" "b.mp4"; mkWalked "" "c.txt"])
    as (jobs & Hjobs & _).
  - reflexivity.
  - discriminate.
  - exists jobs. split; [exact Hjobs |].
    vm_compute in Hjobs. injection Hjobs as <-. reflexivity.
Defined.

(** The loop on a job of unknown duration, over lines none of which is the
    end marker. *)
Lemma read_stdout_unknown env cb lines w :
  cancel_after env = None ->
  unknown_duration (item_duration (w_item w)) ->
  Forall (fun line => line_event line <> Some (inr tt)) lines ->
  exists w',
    read_stdout env cb lines w = Some (Ret tt, w') /\
    w_item w' = w_item w /\ w_trace w' = w_trace w.
Proof.
  intros Hcancel Hd Hlines. revert w Hd.
  induction Hlines as [| line rest Hline _ IH]; intros w Hd; [cbn; eauto |].
  rewrite read_stdout_cons. unfold cancel_seen. rewrite Hcancel.
  destruct (line_event line) as [[z | []] |] eqn:Ev; [| contradiction |].
  - rewrite (on_line_elapsed cb line z _ Ev). cbn [w_check w_item].
    rewrite (progress_from_out_time_unknown z _ Hd). apply (IH (w_check w)), Hd.
  - rewrite (on_line_none cb line _ Ev). apply (IH (w_check w)), Hd.
Qed.

(** C5, as the code has it: for a job of unknown duration (none, or not
    positive) the mapping gives no percentage, and over a progress stream
    without the end marker the loop neither changes the item nor reports
    it; the end marker sets the progress to 100 and reports it, whatever
    the duration. *)
Theorem unknown_duration_reports_only_end_marker env cb w :
  unknown_duration (item_duration (w_item w)) ->
  (forall out, progress_from_out_time out (item_duration (w_item w)) = Ret None) /\
  (forall lines,
     cancel_after env = None ->
     Forall (fun line => line_event line <> Some (inr tt)) lines ->
     exists w',
       read_stdout env cb lines w = Some (Ret tt, w') /\
       w_item w' = w_item w /\ w_trace w' = w_trace w) /\
  (forall line,
     line_event line = Some (inr tt) ->
     on_line cb line w = Some (Ret tt, w_emit cb (w_progress (Some 100%Z) w))).
Proof.
  intros Hd. split; [| split].
  - intros out. apply progress_from_out_time_unknown, Hd.
  - intros lines Hcancel Hlines. apply read_stdout_unknown; assumption.
  - intros line. apply on_line_end.
Qed.

Lemma unknown_duration_reports_only_end_marker_witness :
  exists w',
    read_stdout (sample_env (sample_probe None) [] [] 0) true
      ["out_time_ms=500000"; "progress=continue"] (loop_world None)
    = Some (Ret tt, w') /\
    w_trace w' = [].
Proof.
  destruct (unknown_duration_reports_only_end_marker
              (sample_env (sample_probe None) [] [] 0) true (loop_world None))
    as (_ & Hloop & _).
  - left. reflexivity.
  - destruct (Hloop ["out_time_ms=500000"; "progress=continue"])
      as (w' & Hrun & _ & Htrace).
    + reflexivity.
    + repeat constructor; vm_compute; discriminate.
    + exists w'. split; assumption.
Defined.

(** C5 as stated fails: a job whose probe gives no duration and whose
    stream is the end marker is reported Running with progress 0 and then
    with progress 100. *)
Lemma unknown_duration_end_marker_reports_100 :
  exists w',
    _process_item (sample_config false "skip") true
      (sample_env (sample_probe None) ["progress=end"] [] 0) sample_world
    = Some (Ret tt, w') /\
    running_values (w_trace w') = [Some 0%Z; Some 100%Z].
Proof. eexists. split; vm_compute; reflexivity. Qed.

(** C4, as the code has it, for a run that is no dry run.  A run makes one
    cancellation check at its start, one before each line of the progress
    stream and one after the stream.  When the run sees no cancellation at
    its start, makes the output directory and has an output path with a
    file name, and the probe of the input fails with an exit status that is
    not 0 and a diagnostic text that has "invalid data found when
    processing input" in any letter case, the job ends Failed, its error is
    "File is corrupted or incomplete: " followed by the stripped text, and
    it is logged.  When the probe goes through and the encoding process
    exits with a status that is not 0, a run that returns, raising nothing,
    leaves the job Failed with the joined, stripped diagnostic lines as its
    error, or "ffmpeg failed" when there are none, unless a cancellation is
    requested by the last check: then it leaves the job Canceled. *)
Theorem corrupted_input_classified_at_probe_only config cb env w :
  dry_run config = false ->
  (cancel_seen env w = false ->
   mkdir_error env = None ->
   name (Path_of (output_path (w_item w))) <> "" ->
   ffprobe_found (probe env) = true ->
   probe_returncode (probe env) <> 0%Z ->
   PyStr.contains "invalid data found when processing input"
     (PyStr.lower (probe_stderr (probe env))) = true ->
   exists w',
     _process_item config cb env w = Some (Ret tt, w') /\
     status (w_item w') = STATUS_FAILED /\
     error (w_item w')
     = "File is corrupted or incomplete: " +:+ PyStr.strip (probe_stderr (probe env)) /\
     EvLogItem (w_item w') ∈ w_trace w') /\
  (forall info,
     probe_media (probe env) = inr info ->
     returncode env <> 0%Z ->
     exists r w',
       _process_item config cb env w = Some (r, w') /\
       (r = Ret tt ->
        (forall k, cancel_after env = Some k ->
           (S (w_checks w) + length (stdout_lines env) < k)%nat) ->
        status (w_item w') = STATUS_FAILED /\
        error (w_item w')
        = (let text := PyStr.strip (PyStr.join "; " (PyStr.rstrip <$> stderr_lines env)) in
           if decide (text = "") then "ffmpeg failed" else text)) /\
       (r = Ret tt ->
        forall k, cancel_after env = Some k ->
          (k <= S (w_checks w) + length (stdout_lines env))%nat ->
          status (w_item w') = STATUS_CANCELED)).
Proof.
  intros Hdry. split.
  - intros Hc Hmk Hname Hfound Hrc Htext.
    destruct (probe_media_invalid_data (probe env) Hfound Hrc Htext) as [Hp He].
    destruct (_process_item_probe_failed config cb env w _ Hdry Hc Hmk Hname Hp)
      as (w' & Hrun & Hst & Herr & _ & Hlog).
    exists w'. rewrite Herr, He. auto.
  - intros info Hp Hrc.
    destruct (_process_item_routes config cb env w)
      as [[Hc ->] | [(Hc & msg & Hm & ->) | [(Hc & Hm & Hn & ->) |
          (Hc & Hm & Hn & t & Ht &
           [[Hd _] | [(Hd & msg & Hp' & _) | [(Hd & info' & msg & Hp' & Hpo & ->) |
            (Hd & info' & r1 & w1 & us & Hp' & Hpo & Hrun & Htr & Hus & Hit & Hreg & Hr1)]]])]]];
      try congruence.
    + eexists _, _. split; [reflexivity |]. cbn [w_item]. split.
      * intros _ Hlate. exfalso. unfold cancel_seen in Hc.
        destruct (cancel_after env) as [k |]; [| discriminate].
        apply Nat.leb_le in Hc. specialize (Hlate k eq_refl). lia.
      * intros _ k _ _. reflexivity.
    + eexists _, _. split; [reflexivity |]. split; intros [=].
    + eexists _, _. split; [reflexivity |]. split; intros [=].
    + eexists _, _. split; [reflexivity |]. split; intros [=].
    + destruct r1 as [[] | e]; destruct Hr1 as [Hcase ->];
        (eexists _, _; split; [reflexivity |]); [| split; intros [=]].
      cbn [w_item]. split.
      * intros _ Hlate.
        assert (Hseen : cancel_seen env w1 = false).
        { unfold cancel_seen in *.
          destruct (cancel_after env) as [k |]; [| reflexivity].
          specialize (Hlate k eq_refl).
          destruct Hcase as [(Hn1 & _) | (Hs & Hle & _)].
          - rewrite Hn1. apply Nat.leb_gt. lia.
          - apply Nat.leb_le in Hs. lia. }
        rewrite Hseen. unfold finished.
        rewrite (bool_decide_eq_true_2 (returncode env ≠ 0%Z)) by exact Hrc.
        split; reflexivity.
      * intros _ k Hk Hle.
        assert (Hseen : cancel_seen env w1 = true).
        { destruct Hcase as [(Hn1 & _) | (Hs & _)]; [| exact Hs].
          unfold cancel_seen. rewrite Hk, Hn1. apply Nat.leb_le. lia. }
        rewrite Hseen. reflexivity.
Qed.

Lemma corrupted_input_classified_at_probe_only_witness :
  (exists w',
     _process_item (sample_config false "skip") true
       (sample_env (mkProbe true 1 "a.mp4: Invalid data found when processing input"
                      (inl "not read"))
          [] [] 0) sample_world
     = Some (Ret tt, w') /\
     classified (error (w_item w')) = true) /\
  (exists w',
     _process_item (sample_config false "skip") true
       (sample_env (sample_probe (Some (Fin 10))) [] [] 1) sample_world
     = Some (Ret tt, w') /\
     status (w_item w') = STATUS_FAILED /\
     error (w_item w') = "ffmpeg failed").
Proof.
  split.
  - destruct (corrupted_input_classified_at_probe_only (sample_config false "skip") true
                (sample_env (mkProbe true 1 "a.mp4: Invalid data found when processing input"
                               (inl "not read"))
                   [] [] 0) sample_world) as [Hprobe _].
    + reflexivity.
    + destruct Hprobe as (w' & Hrun & _ & Herr & _).
      * reflexivity.
      * reflexivity.
      * vm_compute. discriminate.
      * reflexivity.
      * discriminate.
      * reflexivity.
      * exists w'. split; [exact Hrun |]. rewrite Herr. reflexivity.
  - destruct (proj2 (corrupted_input_classified_at_probe_only
                       (sample_config false "skip") true
                       (sample_env (sample_probe (Some (Fin 10))) [] [] 1) sample_world
                       eq_refl) (sample_media (Some (Fin 10))) eq_refl)
      as (r & w' & Hrun & Hfailed & _); [discriminate |].
    assert (Hr : r = Ret tt).
    { pose proof Hrun as H. vm_compute in H. injection H as <- _. reflexivity. }
    subst r. exists w'. split; [exact Hrun |].
    apply Hfailed; [reflexivity | intros k Hk; discriminate Hk].
Defined.

(** C4 as stated fails: the encoding process of this job exits with status
    1, its diagnostic stream is "invalid data found when processing input",
    and the job ends Failed with exactly that text as its error, which does
    not name the file as corrupted or incomplete. *)
Lemma encode_failure_is_not_classified :
  exists w',
    _process_item (sample_config false "skip") true
      (sample_env (sample_probe (Some (Fin 10))) []
         ["invalid data found when processing input"] 1) sample_world
    = Some (Ret tt, w') /\
    status (w_item w') = STATUS_FAILED /\
    error (w_item w') = "invalid data found when processing input" /\
    classified (error (w_item w')) = false.
Proof. eexists. repeat split; vm_compute; reflexivity. Qed.

Lemma chain_lower_bound v vs j b :
  chain (Some v) vs -> vs !! j = Some b -> (v <= b <= 100)%Z.
Proof.
  revert v j. induction vs as [| x vs IH]; intros v j; [discriminate |].
  cbn. intros (Hx & Hvx & Hc). destruct j as [| j]; cbn.
  - intros [= <-]. lia.
  - intros Hj. specialize (IH x j Hc Hj). lia.
Qed.

Lemma chain_sorted c vals i j a b :
  chain c vals -> (i <= j)%nat -> vals !! i = Some a -> vals !! j = Some b ->
  (0 <= a <= b)%Z /\ (b <= 100)%Z.
Proof.
  revert c i j. induction vals as [| x vs IH]; intros c i j; [discriminate |].
  cbn. intros (Hx & _ & Hc) Hij. destruct i as [| i]; cbn.
  - intros [= <-]. destruct j as [| j]; cbn.
    + intros [= <-]. lia.
    + intros Hj. pose proof (chain_lower_bound _ _ _ _ Hc Hj). lia.
  - destruct j as [| j]; [lia |]. cbn. apply (IH (Some x)); [exact Hc | lia].
Qed.

Lemma filter_running_all (l : list WorkItem) :
  Forall (fun it => status it = STATUS_RUNNING) l ->
  filter (fun it => status it = STATUS_RUNNING) l = l.
Proof.
  induction 1 as [| it l Hit _ IH]; [reflexivity |].
  rewrite filter_cons_True by exact Hit. f_equal. exact IH.
Qed.

(** The Running items a run reports carry the values of the chain. *)
Lemma run_reports_running_values new final :
  run_reports new final ->
  exists vals, running_values new = Some <$> vals /\ chain None vals.
Proof.
  intros (runs & vals & fin & Hu & Hruns & Hvals & Hc & Hfin).
  exists vals. split; [| exact Hc].
  unfold running_values. rewrite Hu, filter_app, filter_running_all by exact Hruns.
  destruct Hfin as [-> | [-> Hterm]].
  - cbn. rewrite app_nil_r. exact Hvals.
  - rewrite filter_cons_False, filter_nil, app_nil_r; [exact Hvals |].
    intros Hst. rewrite Hst in Hterm.
    destruct Hterm as [H | [H | [H | H]]]; discriminate.
Qed.

(** C6, as the code has it: for a fixed duration the mapping does not
    decrease with the elapsed time; the progress values that a run over a
    progress stream in order (elapsed times that do not decrease, and no
    elapsed time after an end-of-stream marker) reports while the job is
    Running are numbers from 0 to 100 that do not decrease; a report
    in a terminal status is the last report of the run and shows the item
    as the run leaves it; and of the operations of the batch handle only
    [retry_failed()] changes a job in a terminal status, a Failed one, whose
    progress it resets to 0. *)
Theorem progress_non_decreasing_and_frozen :
  (forall d o1 o2 p1 p2,
     (o1 <= o2)%Z ->
     progress_from_out_time o1 d = Ret (Some p1) ->
     progress_from_out_time o2 d = Ret (Some p2) ->
     (p1 <= p2)%Z) /\
  (forall config cb env w,
     ordered_stream (stdout_lines env) ->
     exists r w' new,
       _process_item config cb env w = Some (r, w') /\
       w_trace w' = w_trace w ++ new /\
       (forall i j a b,
          (i <= j)%nat ->
          running_values new !! i = Some a -> running_values new !! j = Some b ->
          exists x y, a = Some x /\ b = Some y /\ (0 <= x <= y)%Z /\ (y <= 100)%Z) /\
       (exists runs fin,
          updates new = runs ++ fin /\
          Forall (fun it => status it = STATUS_RUNNING) runs /\
          (fin = [] \/ (fin = [w_item w'] /\ terminal (status (w_item w')))))) /\
  (forall h i it,
     items h !! i = Some it -> terminal (status it) ->
     items (cancel h).2 !! i = Some it /\
     items (pause h) !! i = Some it /\
     items (resume h) !! i = Some it /\
     (forall h', wait h = Some h' -> items h' !! i = Some it) /\
     (status it <> STATUS_FAILED -> items (retry_failed h) !! i = Some it) /\
     (status it = STATUS_FAILED ->
      progress <$> items (retry_failed h) !! i = Some (Some 0%Z))).
Proof.
  split; [| split].
  - intros d o1 o2 p1 p2. apply progress_from_out_time_mono.
  - intros config cb env w Hs.
    destruct (_process_item_returns config cb env w) as (r & w' & Hrun).
    destruct (_process_item_reports config cb env w r w' Hs Hrun)
      as (new & Htrace & Hrep).
    exists r, w', new. split; [exact Hrun |]. split; [exact Htrace |]. split.
    + destruct (run_reports_running_values _ _ Hrep) as (vals & -> & Hc).
      intros i j a b Hij Ha Hb.
      rewrite list_lookup_fmap in Ha, Hb.
      destruct (vals !! i) as [x |] eqn:Ex; [| discriminate].
      destruct (vals !! j) as [y |] eqn:Ey; [| discriminate].
      cbn in Ha, Hb. injection Ha as <-. injection Hb as <-.
      exists x, y. pose proof (chain_sorted _ _ _ _ _ _ Hc Hij Ex Ey). tauto.
    + destruct Hrep as (runs & vals & fin & Hu & Hruns & _ & _ & Hfin).
      exists runs, fin. auto.
  - intros h i it Hi Hterm.
    assert (Hq : status it <> STATUS_QUEUED).
    { intros Hst. rewrite Hst in Hterm.
      destruct Hterm as [H | [H | [H | H]]]; discriminate. }
    destruct (cancel_sweeps_queued_items h) as (h' & Hc & Hkeep).
    split; [rewrite Hc; cbn; apply Hkeep; assumption |].
    split; [exact Hi |]. split; [exact Hi |]. split; [| split].
    + unfold wait. intros h2.
      destruct (join_all (clock h) (_threads h)); [| discriminate].
      cbn. destruct (_closed h); intros [= <-]; exact Hi.
    + intros Hs. cbn. rewrite list_lookup_fmap, Hi. cbn. f_equal.
      unfold retry_item, status_eqb. case_bool_decide; [contradiction | reflexivity].
    + intros Hs. cbn. rewrite list_lookup_fmap, Hi. cbn.
      unfold retry_item, status_eqb. rewrite Hs. reflexivity.
Qed.

Lemma progress_non_decreasing_and_frozen_witness :
  (5 <= 10)%Z /\
  (exists r w' new,
     _process_item (sample_config false "skip") true
       (sample_env (sample_probe (Some (Fin 10)))
          ["out_time_ms=500000"; "out_time_ms=1000000"; "progress=end"] [] 0)
       sample_world
     = Some (r, w') /\
     w_trace w' = w_trace sample_world ++ new /\
     running_values new = [Some 0%Z; Some 5%Z; Some 10%Z; Some 100%Z]) /\
  (let failed := set_progress (Some 40%Z) (set_status STATUS_FAILED sample_item) in
   let h := mkHandle [failed] [] true false [] [] (mkLogger false false None None)
              false false [] 0 in
   items (cancel h).2 !! 0%nat = Some failed /\
   progress <$> items (retry_failed h) !! 0%nat = Some (Some 0%Z)).
Proof.
  destruct progress_non_decreasing_and_frozen as (Hmono & Hrun & Hfrozen).
  split; [| split].
  - apply (Hmono (Some (Fin 10)) 500000%Z 1000000%Z 5%Z 10%Z).
    + lia.
    + vm_compute. reflexivity.
    + vm_compute. reflexivity.
  - destruct (Hrun (sample_config false "skip") true
                (sample_env (sample_probe (Some (Fin 10)))
                   ["out_time_ms=500000"; "out_time_ms=1000000"; "progress=end"] [] 0)
                sample_world) as (r & w' & new & Hr & Htr & _ & _).
    + assert (E : omap line_event
                    ["out_time_ms=500000"; "out_time_ms=1000000"; "progress=end"]
                  = [inl 500000%Z; inl 1000000%Z; inr tt]) by (vm_compute; reflexivity).
      unfold ordered_stream. cbn [stdout_lines sample_env]. rewrite E. cbn.
      repeat split; lia.
    + exists r, w', new. split; [exact Hr |]. split; [exact Htr |].
      pose proof Hr as H. vm_compute in H. injection H as _ <-.
      cbn in Htr. rewrite <- Htr. vm_compute. reflexivity.
  - intros failed h.
    destruct (Hfrozen h 0%nat failed eq_refl) as (Hc & _ & _ & _ & _ & Hretry).
    + right. left. reflexivity.
    + split; [exact Hc | apply Hretry; reflexivity].
Defined.

(** C6 as stated fails: the elapsed times of this progress stream do not
    decrease, and the job, of 10 seconds, is reported Running with the
    progress values 0, 5, 100 and then 6: the elapsed time that follows the
    end marker lowers the progress the marker had set. *)
Lemma progress_drops_after_end_marker :
  omap line_event ["out_time_ms=500000"; "progress=end"; "out_time_ms=600000"]
  = [inl 500000%Z; inr tt; inl 600000%Z] /\
  exists w',
    _process_item (sample_config false "skip") true
      (sample_env (sample_probe (Some (Fin 10)))
         ["out_time_ms=500000"; "progress=end"; "out_time_ms=600000"] [] 0)
      sample_world
    = Some (Ret tt, w') /\
    running_values (w_trace w') = [Some 0%Z; Some 5%Z; Some 100%Z; Some 6%Z].
Proof. split; [vm_compute; reflexivity |]. eexists. split; vm_compute; reflexivity. Qed.

(** C1, as the code has it: for an elapsed time from 0 to [2^1000]
    microseconds and a known duration from a microsecond to [10^300]
    seconds, the extractor returns [max(0, min(100, floor(r)))] where [r]
    is [(elapsed_us / (duration * 1_000_000)) * 100] computed in binary64,
    each of the conversion, the product, the quotient and the last product
    rounded to nearest, ties to even.  For the events 500000 and 1000000
    of a job of 10 seconds followed by the end marker the loop reports 5,
    10, 100, and the end marker sets 100 whatever the item holds. *)
Theorem progress_is_binary64_floor :
  (forall out d,
     (0 <= out <= 2 ^ 1000)%Z ->
     (1 # 1000000 <= d)%Q -> (d <= inject_Z (10 ^ 300))%Q ->
     exists t x q r,
       round (d * 1000000) = Fin t /\
       round (inject_Z out) = Fin x /\
       round (x / t) = Fin q /\
       round (q * 100) = Fin r /\
       progress_from_out_time out (Some (Fin d))
       = Ret (Some (Z.max 0 (Z.min 100 (Qfloor r))))) /\
  (exists w',
     read_stdout (sample_env (sample_probe (Some (Fin 10))) [] [] 0) true
       ["out_time_ms=500000"; "out_time_ms=1000000"; "progress=end"]
       (loop_world (Some (Fin 10)))
     = Some (Ret tt, w') /\
     progress <$> updates (w_trace w') = [Some 5%Z; Some 10%Z; Some 100%Z]) /\
  (forall cb line w,
     line_event line = Some (inr tt) ->
     on_line cb line w = Some (Ret tt, w_emit cb (w_progress (Some 100%Z) w))).
Proof.
  split; [| split].
  - intros out d Ho Hd1 Hd2.
    destruct (progress_from_out_time_returns out d Ho Hd1 Hd2)
      as (t & x & q & r & Ht & _ & Hx & Hq & Hr & Hp).
    exists t, x, q, r. auto.
  - eexists. split; vm_compute; reflexivity.
  - intros cb line w. apply on_line_end.
Qed.

Lemma progress_is_binary64_floor_witness :
  exists p, progress_from_out_time 500000 (Some (Fin 10)) = Ret (Some p).
Proof.
  destruct (proj1 progress_is_binary64_floor 500000%Z 10%Q)
    as (t & x & q & r & _ & _ & _ & _ & Hp).
  - split; [lia |]. apply Z.leb_le. vm_compute. reflexivity.
  - apply Qle_bool_iff. vm_compute. reflexivity.
  - apply Qle_bool_iff. vm_compute. reflexivity.
  - eexists. exact Hp.
Defined.

(** C1 as stated fails: for 2,900,000 microseconds of a duration of 10
    seconds the extractor returns 28, and the formula gives 29. *)
Lemma exact_formula_fails_at_29_percent :
  progress_from_out_time 2900000 (Some (Fin 10)) = Ret (Some 28%Z) /\
  exact_percent 2900000 10 = 29%Z.
Proof. split; vm_compute; reflexivity. Qed.


(** ** The rounding model against the Standard Library's binary64

    [SpecFloat] implements the IEEE 754 operations on mantissa and
    exponent; on the values below it gives what [round] gives. *)

Module Float64Check.

Example div_29_percent :
  feqb (of_spec (SpecFloat.SFdiv 53 1024 (b64 2900000 0) (b64 10000000 0)))
       (round (2900000 # 10000000)) = true.
Proof. vm_compute. reflexivity. Qed.

Example mul_29_percent :
  feqb (of_spec (SpecFloat.SFmul 53 1024
                   (SpecFloat.SFdiv 53 1024 (b64 2900000 0) (b64 10000000 0))
                   (b64 100 0)))
       (fmul (round (2900000 # 10000000)) (Fin 100)) = true.
Proof. vm_compute. reflexivity. Qed.

Example div_third :
  feqb (of_spec (SpecFloat.SFdiv 53 1024 (b64 1 0) (b64 3 0))) (round (1 # 3)) = true.
Proof. vm_compute. reflexivity. Qed.

Example subnormal_tie_down :
  feqb (of_spec (SpecFloat.SFdiv 53 1024 (b64 1 (-1074)) (b64 2 0)))
       (round ((1 # 2) * pow2 (-1074))) = true.
Proof. vm_compute. reflexivity. Qed.

Example subnormal_tie_up :
  feqb (of_spec (SpecFloat.SFdiv 53 1024 (b64 3 (-1074)) (b64 2 0)))
       (round ((3 # 2) * pow2 (-1074))) = true.
Proof. vm_compute. reflexivity. Qed.

Example mul_overflow :
  feqb (of_spec (SpecFloat.SFmul 53 1024 (b64 1 1000) (b64 1 100)))
       (round (pow2 1000 * pow2 100)) = true.
Proof. vm_compute. reflexivity. Qed.

Example int_tie_even :
  feqb (of_spec (b64 (2 ^ 53 + 1) 0)) (round (inject_Z (2 ^ 53 + 1))) = true /\
  feqb (of_spec (b64 (2 ^ 53 + 3) 0)) (round (inject_Z (2 ^ 53 + 3))) = true.
Proof. split; vm_compute; reflexivity. Qed.

End Float64Check.

(** * Further properties *)

(** X1: on a path with an empty name [_temp_output_path] raises ValueError.
    On any other path it returns: the result is the first path that does not
    exist among [stem.partial.ext], [stem.partial1.ext], [stem.partial2.ext],
    ... (the name followed by [.partial], [.partial1], ... when the path has
    no suffix); it lies in the directory of the path, is not the path
    itself, and has the suffix of the path when the path has one. *)
Theorem temp_output_path_is_fresh (fs : gset string) (p : Path) :
  (name p = "" -> _temp_output_path fs p = Raise ValueError) /\
  (name p <> "" ->
   exists N,
     _temp_output_path fs p = Ret (Some (temp_try p N)) /\
     (path_str (temp_try p N) ∉ fs) /\
     (forall k, (k < N)%nat -> path_str (temp_try p k) ∈ fs) /\
     dir (temp_try p N) = dir p /\
     path_str (temp_try p N) <> path_str p /\
     (suffix p <> "" -> suffix (temp_try p N) = suffix p)).
Proof.
  split; [apply _temp_output_path_empty |].
  intros Hn. destruct (_temp_output_path_spec fs p Hn) as (N & H1 & H2 & H3).
  exists N. split; [exact H1 |]. split; [exact H2 |]. split; [exact H3 |].
  split; [apply temp_try_dir |]. split; [apply temp_try_fresh_name |].
  apply temp_try_suffix.
Qed.

Lemma temp_output_path_is_fresh_witness :
  _temp_output_path {["out/a.partial.mp4"]} (mkPath "out" "a.mp4")
  = Ret (Some (mkPath "out" "a.partial1.mp4")).
Proof.
  destruct (proj2 (temp_output_path_is_fresh {["out/a.partial.mp4"]} (mkPath "out" "a.mp4")))
    as (N & H & Hfree & Hbelow & _); [discriminate |].
  rewrite H. do 2 f_equal.
  destruct N as [| [| N]].
  - exfalso. apply Hfree. vm_compute. reflexivity.
  - reflexivity.
  - exfalso. assert (Hin : path_str (temp_try (mkPath "out" "a.mp4") 1) ∈
                      ({["out/a.partial.mp4"]} : gset string)) by (apply Hbelow; lia).
    vm_compute in Hin. discriminate.
Defined.

(** X2: a call of [_process_item] that returns, raising nothing, has
    passed the job to the logger exactly once, as its last call and in the
    state it leaves the job in, which is a terminal one, unless it saw the
    cancellation at its start: then it has logged nothing. *)
Theorem process_item_logs_once config cb env w w' :
  _process_item config cb env w = Some (Ret tt, w') ->
  exists new,
    w_trace w' = w_trace w ++ new /\
    if cancel_seen env w then logged new = []
    else (exists calls,
            new = calls ++ [EvLogItem (w_item w')] /\ logged calls = []) /\
         terminal (status (w_item w')).
Proof.
  destruct (_process_item_routes config cb env w)
    as [[Hc ->] | [(Hc & msg & Hm & ->) | [(Hc & Hm & Hn & ->) |
        (Hc & Hm & Hn & t & Ht &
         [[Hd ->] | [(Hd & msg & Hp & ->) | [(Hd & info & msg & Hp & Hpo & ->) |
          (Hd & info & r1 & w1 & us & Hp & Hpo & Hrun & Htr & Hus & Hit & Hreg & Hr1)]]])]]];
    rewrite ?Hc; try discriminate.
  - intros Heq; same_run Heq. eexists. split; [reflexivity |]. apply logged_update.
  - intros Heq; same_run Heq. eexists. cbn [w_trace w_item w_prepared].
    split; [rewrite <- !app_assoc; reflexivity |].
    split; [| cbn; unfold terminal; auto].
    eexists. split; [rewrite !app_assoc; reflexivity |].
    rewrite !logged_app, !logged_update. reflexivity.
  - intros Heq; same_run Heq. eexists. cbn [w_trace w_item w_prepared].
    split; [rewrite <- !app_assoc; reflexivity |].
    split; [| cbn; unfold terminal; auto].
    eexists. split; [rewrite !app_assoc; reflexivity |].
    rewrite !logged_app, !logged_update. reflexivity.
  - destruct r1 as [[] | e]; destruct Hr1 as [_ ->]; [| discriminate].
    intros Heq; same_run Heq. eexists. cbn [w_trace w_item].
    rewrite Htr. cbn [w_trace w_encoding w_prepared].
    split; [rewrite <- !app_assoc; reflexivity |].
    split; [| apply finished_terminal].
    eexists. split; [rewrite !app_assoc; reflexivity |].
    rewrite !logged_app, !logged_update, logged_finish_calls,
      (logged_updates us Hus). reflexivity.
Qed.

Lemma process_item_logs_once_witness :
  exists w',
    _process_item (sample_config false "skip") true
      (sample_env (sample_probe (Some (Fin 10))) ["progress=end"] [] 0) sample_world
    = Some (Ret tt, w') /\
    logged (w_trace w') = [w_item w'].
Proof.
  assert (H : exists w',
            _process_item (sample_config false "skip") true
              (sample_env (sample_probe (Some (Fin 10))) ["progress=end"] [] 0)
              sample_world
            = Some (Ret tt, w')) by (vm_compute; eauto).
  destruct H as [w' H]. exists w'. split; [exact H |].
  destruct (process_item_logs_once _ _ _ _ _ H) as (new & Htr & (calls & -> & Hcalls) & _).
  rewrite Htr. cbn [w_trace sample_world app].
  unfold logged in *. rewrite omap_app, Hcalls. reflexivity.
Defined.

(** X3: a call of [_process_item] leaves the registry entries of the other
    jobs as they are; when it has started an encoder, the registry holds no
    process for the job once the call has ended, whether it returns or
    raises; when it has started none, the registry is as it was. *)
Theorem process_item_clears_registry config cb env w :
  exists r w' new,
    _process_item config cb env w = Some (r, w') /\
    w_trace w' = w_trace w ++ new /\
    (forall k, k <> id (w_item w) -> reg_get k (w_reg w') = reg_get k (w_reg w)) /\
    (if starts_encoder new then reg_get (id (w_item w)) (w_reg w') = None
     else w_reg w' = w_reg w).
Proof.
  destruct (_process_item_routes config cb env w)
    as [[Hc ->] | [(Hc & msg & Hm & ->) | [(Hc & Hm & Hn & ->) |
        (Hc & Hm & Hn & t & Ht &
         [[Hd ->] | [(Hd & msg & Hp & ->) | [(Hd & info & msg & Hp & Hpo & ->) |
          (Hd & info & r1 & w1 & us & Hp & Hpo & Hrun & Htr & Hus & Hit & Hreg & Hr1)]]])]]].
  1-6: eexists _, _, _; (split; [reflexivity |]); cbn [w_trace w_reg w_prepared];
    (split; [rewrite <- ?app_assoc; reflexivity |]);
    (split; [reflexivity |]);
    rewrite ?starts_encoder_app, ?starts_encoder_update; reflexivity.
  destruct r1 as [[] | e]; destruct Hr1 as [_ ->];
    eexists _, _, _; (split; [reflexivity |]); cbn [w_trace w_reg];
    rewrite Htr; cbn [w_trace w_encoding w_prepared];
    (split; [rewrite <- !app_assoc; reflexivity |]);
    (split; [intros k Hk; rewrite reg_get_pop;
             destruct (decide (k = id (w_item w))); [contradiction | reflexivity] |]);
    rewrite !starts_encoder_app, !starts_encoder_update; cbn;
    rewrite reg_get_pop; destruct (decide (id (w_item w) = id (w_item w)));
    [reflexivity | contradiction | reflexivity | contradiction].
Qed.

(** X4: nothing catches the OSError of making the output directory, nor
    that of starting the encoder: when the output directory cannot be made,
    or when, in a run that is no dry run, the probe goes through and the
    encoder cannot be started, a call of [_process_item] that sees no
    cancellation at its start raises the OSError; the job is left Running,
    nothing was logged or renamed, no encoder was started and the registry
    is as it was. *)
Theorem process_item_raise_leaves_running config cb env w msg :
  cancel_seen env w = false ->
  mkdir_error env = Some msg \/
  (mkdir_error env = None /\
   name (Path_of (output_path (w_item w))) <> "" /\
   dry_run config = false /\
   (exists info, probe_media (probe env) = inr info) /\
   popen_error env = Some msg) ->
  exists w' new,
    _process_item config cb env w = Some (Raise (OSError msg), w') /\
    status (w_item w') = STATUS_RUNNING /\
    w_reg w' = w_reg w /\
    w_trace w' = w_trace w ++ new /\
    logged new = [] /\ replaced new = [] /\ starts_encoder new = false.
Proof.
  intros Hc [Hm | (Hm & Hn & Hd & (info & Hp) & Hpo)].
  - rewrite (run_mkdir_failed config cb env w msg Hc Hm).
    eexists _, (update cb (started env (w_item w))). split; [reflexivity |]. cbn.
    rewrite logged_update, replaced_update, starts_encoder_update.
    repeat split; reflexivity.
  - destruct (_temp_output_path_spec (fs env) _ Hn) as (N & Ht & _).
    rewrite (run_prepared config cb env w _ Hc Hm Ht), Hd.
    rewrite (encode_popen_failed config cb env _ _ _ _ info msg Hp Hpo).
    eexists _, _. split; [reflexivity |]. cbn [w_item w_reg w_trace w_prepared].
    split.
    { unfold before_encode.
      destruct (match duration info with Some d => truthy d | None => false end);
        reflexivity. }
    split; [reflexivity |]. split; [rewrite <- !app_assoc; reflexivity |].
    rewrite !logged_app, !replaced_app, !starts_encoder_app, logged_update,
      replaced_update, starts_encoder_update. auto.
Qed.

Lemma process_item_raise_leaves_running_witness :
  exists w',
    _process_item (sample_config false "skip") true denied_env sample_world
    = Some (Raise (OSError "denied"), w') /\
    status (w_item w') = STATUS_RUNNING.
Proof.
  destruct (process_item_raise_leaves_running (sample_config false "skip") true
              denied_env sample_world "denied" eq_refl (or_introl eq_refl))
    as (w' & new & H & Hst & _).
  exists w'. split; [exact H | exact Hst].
Defined.

(** X5: a call of [_process_item] that ends, returning or raising, has
    renamed at most once, and only the temporary file to the output path of
    the job.  It leaves the job Completed exactly when it has made this
    rename; then the run was no dry run, the encoder has exited with status
    0, the progress is 100, the size of the output is recorded, and the
    temporary path is one that did not exist when the call started and is
    not the output path. *)
Theorem process_item_completed_iff_published config cb env w r w' :
  _process_item config cb env w = Some (r, w') ->
  exists new,
    w_trace w' = w_trace w ++ new /\
    ((replaced new = [] /\ status (w_item w') <> STATUS_COMPLETED) \/
     (exists t,
        _temp_output_path (fs env) (Path_of (output_path (w_item w))) = Ret (Some t) /\
        (path_str t ∉ fs env) /\
        path_str t <> path_str (Path_of (output_path (w_item w))) /\
        replaced new = [(path_str t, path_str (Path_of (output_path (w_item w))))] /\
        status (w_item w') = STATUS_COMPLETED /\
        progress (w_item w') = Some 100%Z /\
        output_bytes (w_item w') = output_size env /\
        returncode env = 0%Z /\ dry_run config = false)).
Proof.
  destruct (_process_item_routes config cb env w)
    as [[Hc ->] | [(Hc & msg & Hm & ->) | [(Hc & Hm & Hn & ->) |
        (Hc & Hm & Hn & t & Ht &
         [[Hd ->] | [(Hd & msg & Hp & ->) | [(Hd & info & msg & Hp & Hpo & ->) |
          (Hd & info & r1 & w1 & us & Hp & Hpo & Hrun & Htr & Hus & Hit & Hreg & Hr1)]]])]]].
  1-6: intros Heq; same_result Heq; eexists; cbn [w_trace w_item w_prepared];
    (split; [rewrite <- ?app_assoc; reflexivity |]); left;
    rewrite ?replaced_app, ?replaced_update; (split; [reflexivity |]);
    try discriminate.
  - unfold before_encode.
    destruct (match duration info with Some d => truthy d | None => false end);
      discriminate.
  - destruct r1 as [[] | e]; destruct Hr1 as [_ ->];
      intros Heq; same_result Heq; eexists; cbn [w_trace w_item];
      rewrite Htr; cbn [w_trace w_encoding w_prepared];
      (split; [rewrite <- !app_assoc; reflexivity |]);
      rewrite ?replaced_app, ?replaced_update, ?replaced_finish_calls,
        ?(replaced_updates us Hus); cbn [replaced omap as_replace app].
    + destruct (publishes env (cancel_seen env w1)) eqn:Hpub.
      * right. exists t.
        destruct (_temp_output_path_spec (fs env) _ Hn) as (N & Ht' & Hfree & _).
        rewrite Ht in Ht'. injection Ht' as ->.
        split; [exact Ht |]. split; [exact Hfree |].
        split; [apply temp_try_fresh_name |]. split; [reflexivity |].
        unfold publishes in Hpub. apply andb_true_iff in Hpub as [Hpub Hf].
        apply andb_true_iff in Hpub as [Hs Hrc].
        apply negb_true_iff in Hs. apply bool_decide_eq_true in Hrc, Hf.
        unfold finished. rewrite Hs, Hf.
        rewrite (bool_decide_eq_false_2 (returncode env ≠ 0%Z)) by tauto.
        cbn. auto.
      * left. split; [reflexivity |]. intros Hst.
        apply finished_status in Hst. congruence.
    + left. split; [reflexivity |]. rewrite Hit. cbn. unfold before_encode.
      destruct (match duration info with Some d => truthy d | None => false end);
        discriminate.
Qed.

Lemma process_item_completed_iff_published_witness :
  exists w',
    _process_item (sample_config false "skip") true
      (sample_env (sample_probe (Some (Fin 10))) ["progress=end"] [] 0) sample_world
    = Some (Ret tt, w') /\
    status (w_item w') = STATUS_COMPLETED /\
    replaced (w_trace w') = [("out/a.partial.mp4", "out/a.mp4")].
Proof.
  assert (H : exists w',
            _process_item (sample_config false "skip") true
              (sample_env (sample_probe (Some (Fin 10))) ["progress=end"] [] 0)
              sample_world
            = Some (Ret tt, w')) by (vm_compute; eauto).
  destruct H as [w' H]. exists w'. split; [exact H |].
  assert (Hst : status (w_item w') = STATUS_COMPLETED).
  { pose proof H as H1. vm_compute in H1. injection H1 as <-. reflexivity. }
  split; [exact Hst |].
  destruct (process_item_completed_iff_published _ _ _ _ _ _ H)
    as (new & Htr & [[_ Hno] | (t & Ht & _ & _ & Hrep & _)]); [contradiction |].
  rewrite Htr. cbn [w_trace sample_world app]. rewrite Hrep.
  vm_compute in Ht. injection Ht as <-. reflexivity.
Defined.

(** X6: when the cancellation is requested after a job was started and
    before its encoder's progress stream has been read to its end, a call of
    [_process_item] that has started the encoder and returns leaves the job
    Canceled, with its end time: nothing was renamed to the output path, the
    temporary file is removed when it exists, the job is logged, and when
    the request came before the last line of the stream was read the
    encoder was terminated by [_terminate_process]. *)
Theorem process_item_canceled_while_encoding config cb env w w' k info :
  _process_item config cb env w = Some (Ret tt, w') ->
  cancel_after env = Some k ->
  (w_checks w < k <= S (w_checks w) + length (stdout_lines env))%nat ->
  dry_run config = false ->
  probe_media (probe env) = inr info ->
  status (w_item w') = STATUS_CANCELED /\
  end_time (w_item w') = Some (t_end env) /\
  exists new t,
    w_trace w' = w_trace w ++ new /\
    _temp_output_path (fs env) (Path_of (output_path (w_item w))) = Ret (Some t) /\
    replaced new = [] /\
    logged new = [w_item w'] /\
    (temp_exists env = true -> EvUnlink (path_str t) ∈ new) /\
    ((k <= w_checks w + length (stdout_lines env))%nat ->
     w_proc w' = Some (terminated (proc env))).
Proof.
  intros Hrun Hk Hrange Hdry Hprobe.
  assert (Hentry : cancel_seen env w = false).
  { unfold cancel_seen. rewrite Hk. apply Nat.leb_gt. lia. }
  destruct (_process_item_routes config cb env w)
    as [[Hc _] | [(Hc & msg & Hm & Heq) | [(Hc & Hm & Hn & Heq) |
        (Hc & Hm & Hn & t & Ht &
         [[Hd _] | [(Hd & msg & Hp & _) | [(Hd & info' & msg & Hp & Hpo & Heq) |
          (Hd & info' & r1 & w1 & us & Hp & Hpo & Hrd & Htr & Hus & Hit & Hreg & Hr1)]]])]]];
    try congruence.
  destruct r1 as [[] | e]; [| destruct Hr1 as [_ Heq]; congruence].
  destruct Hr1 as [Hcase Heq]. rewrite Heq in Hrun. injection Hrun as <-.
  assert (Hseen : cancel_seen env w1 = true).
  { destruct Hcase as [(Hn1 & _ & _) | (Hs & _)]; [| exact Hs].
    unfold cancel_seen. rewrite Hk, Hn1. apply Nat.leb_le. lia. }
  cbn [w_item w_trace w_proc]. rewrite Hseen.
  split; [reflexivity |]. split; [reflexivity |].
  rewrite Htr. cbn [w_trace w_encoding w_prepared].
  eexists _, t. split; [rewrite <- !app_assoc; reflexivity |].
  split; [exact Ht |].
  split.
  { observe. rewrite (replaced_updates us Hus). reflexivity. }
  split.
  { observe. rewrite (logged_updates us Hus). reflexivity. }
  split.
  { intros Hte. unfold finish_calls, publishes. cbn. rewrite Hte.
    find_call. }
  intros Hearly. destruct Hcase as [(Hn1 & _ & Hun) | (_ & _ & Hp1)]; [| exact Hp1].
  exfalso. destruct (stdout_lines env) as [| l ls] eqn:El.
  - cbn in *. lia.
  - specialize (Hun k Hk ltac:(discriminate)). cbn in *. lia.
Qed.

Lemma process_item_canceled_while_encoding_witness :
  exists w',
    _process_item (sample_config false "skip") true canceled_env sample_world
    = Some (Ret tt, w') /\
    status (w_item w') = STATUS_CANCELED /\
    w_proc w' = Some (terminated sample_process).
Proof.
  assert (H : exists w',
            _process_item (sample_config false "skip") true canceled_env sample_world
            = Some (Ret tt, w')) by (vm_compute; eauto).
  destruct H as [w' H]. exists w'. split; [exact H |].
  destruct (process_item_canceled_while_encoding _ _ _ _ _ 1%nat
              (sample_media (Some (Fin 10))) H eq_refl
              ltac:(cbn; lia) eq_refl eq_refl)
    as (Hs & _ & new & t & _ & _ & _ & _ & _ & Hp).
  split; [exact Hs | apply Hp; cbn; lia].
Defined.

(** X7: [scan_inputs] returns.  It makes one job for each walked file whose
    suffix is among the extensions, letter case apart, in the order of the
    walk, and numbers the jobs 1, 2, ... in that order; every job has
    progress 0, no error and no times, and is Queued, or Skipped with the
    message "output exists", which happens only under the policy "skip" for
    a destination that exists. *)
Theorem scan_inputs_numbers_jobs config fs stat files :
  exists l,
    scan_inputs config fs stat files = Some l /\
    input_path <$> l
    = (fun w => path_str (source config w))
        <$> filter (fun w => accepted config w = true) files /\
    (forall i it, l !! i = Some it -> id it = Z.of_nat (S i)) /\
    Forall (fun it =>
      progress it = Some 0%Z /\ error it = "" /\ start_time it = None /\
      end_time it = None /\
      (status it = STATUS_QUEUED \/
       (status it = STATUS_SKIPPED /\ message it = "output exists" /\
        collision_policy config = "skip" /\ output_path it ∈ fs))) l.
Proof.
  destruct (ScanMore.scan_loop_spec config fs stat files 1) as (l & H & Hin & Hid & Hall).
  exists l. split; [exact H |]. split; [exact Hin |]. split; [| exact Hall].
  intros i it Hi. rewrite (Hid _ _ Hi). lia.
Qed.

(** X8: with no output directory configured, the job that [scan_inputs]
    makes for a file is Queued with the message "output not set" and an
    empty output path; and [_process_item] on such a job, when it sees no
    cancellation at its start, reports the job as Running, makes the
    directory of the empty path and raises ValueError, which leaves the job
    Running. *)
Theorem job_without_output_dir_raises config fs0 stat item_id wk it cb env w :
  output_dir config = "" ->
  scan_file config fs0 stat item_id wk = Some (Some it) ->
  status it = STATUS_QUEUED /\ message it = "output not set" /\ output_path it = "" /\
  (w_item w = it -> cancel_seen env w = false -> mkdir_error env = None ->
   exists w',
     _process_item config cb env w = Some (Raise ValueError, w') /\
     status (w_item w') = STATUS_RUNNING /\
     w_trace w' = w_trace w ++ update cb (started env it) ++ [EvMkdir ""]).
Proof.
  intros Ho Hs.
  destruct (accepted config wk) eqn:Ha;
    [| rewrite (ScanMore.scan_file_skipped _ _ _ _ _ Ha) in Hs; discriminate].
  destruct (ScanMore.scan_file_accepted config fs0 stat item_id wk Ha)
    as (st & msg & out & Heq & Hcase).
  rewrite Heq in Hs. injection Hs as <-.
  assert (Hit : st = STATUS_QUEUED /\ msg = "output not set" /\ out = "").
  { destruct Hcase as [(_ & _ & H) | [(-> & -> & -> & _) | (_ & _ & _ & _ & _ & H)]];
      [contradiction | auto | contradiction]. }
  destruct Hit as (-> & -> & ->). cbn. repeat split.
  intros Hw Hc Hm. eexists. split.
  - apply run_no_name; [exact Hc | exact Hm |]. rewrite Hw. reflexivity.
  - rewrite Hw. cbn. auto.
Qed.

Lemma job_without_output_dir_raises_witness :
  exists w',
    _process_item (mkConfig "in" "" [".mp4"] false 1 false "skip") true
      (sample_env (sample_probe None) [] [] 0)
      (mkWorld (new_item 1 "in/a.mp4" "" STATUS_QUEUED "output not set" None) [] None [] 0)
    = Some (Raise ValueError, w') /\
    status (w_item w') = STATUS_RUNNING.
Proof.
  destruct (job_without_output_dir_raises
              (mkConfig "in" "" [".mp4"] false 1 false "skip") ∅ (fun _ => None) 1
              (mkWalked "" "a.mp4")
              (new_item 1 "in/a.mp4" "" STATUS_QUEUED "output not set" None) true
              (sample_env (sample_probe None) [] [] 0)
              (mkWorld (new_item 1 "in/a.mp4" "" STATUS_QUEUED "output not set" None)
                 [] None [] 0)
              eq_refl eq_refl) as (_ & _ & _ & H).
  destruct (H eq_refl eq_refl eq_refl) as (w' & H1 & H2 & _).
  exists w'. auto.
Defined.

(** X9: [_build_summary] counts every job once: [total] is the number of
    jobs, each of the six other counters is the number of jobs in its
    status, and the six add up to [total]. *)
Theorem build_summary_counts_each_job_once (items : list WorkItem) :
  let s := Summary._build_summary items in
  Summary.total s = Z.of_nat (length items) /\
  Summary.completed s = count_status STATUS_COMPLETED items /\
  Summary.failed s = count_status STATUS_FAILED items /\
  Summary.skipped s = count_status STATUS_SKIPPED items /\
  Summary.canceled s = count_status STATUS_CANCELED items /\
  Summary.queued s = count_status STATUS_QUEUED items /\
  Summary.running s = count_status STATUS_RUNNING items /\
  (Summary.completed s + Summary.failed s + Summary.skipped s + Summary.canceled s
   + Summary.queued s + Summary.running s = Summary.total s)%Z.
Proof.
  unfold Summary._build_summary. rewrite foldl_count_item. cbn.
  repeat split; try reflexivity. apply count_status_total.
Qed.

(** X10: the summary of the jobs after [cancel()] has no Queued job: the
    jobs that were Queued are counted as Canceled, and the other counters
    are as before.  After [retry_failed()] it has no Failed job: the jobs
    that were Failed are counted as Queued, and the other counters are as
    before. *)
Theorem summary_after_cancel_and_retry (h : BatchHandle) :
  let s := Summary._build_summary (items h) in
  let c := Summary._build_summary (items (cancel h).2) in
  let r := Summary._build_summary (items (retry_failed h)) in
  (cancel h).1 = Ret tt /\
  c = Summary.mkSummary (Summary.total s) (Summary.completed s) (Summary.failed s)
        (Summary.skipped s) (Summary.canceled s + Summary.queued s) 0
        (Summary.running s) /\
  r = Summary.mkSummary (Summary.total s) (Summary.completed s) 0
        (Summary.skipped s) (Summary.canceled s)
        (Summary.queued s + Summary.failed s) (Summary.running s).
Proof.
  unfold cancel, retry_failed, Summary._build_summary. cbn.
  rewrite terminate_all_eq. cbn. rewrite !foldl_count_item. cbn.
  rewrite !count_status_sweep, !count_status_retry, !length_fmap.
  repeat split; f_equal; lia.
Qed.

(** X11: [_normalize_extensions] returns a list without duplicates whose
    entries are in lower case, have no white space around them and start
    with a dot: the entries are the values that are not blank, stripped, in
    lower case and with a dot put before those that do not start with one.
    Normalizing such a list again gives the same list. *)
Theorem normalize_extensions_canonical (values : list string) :
  let res := Config._normalize_extensions values in
  NoDup res /\
  Forall canonical res /\
  (forall e, e ∈ res <->
     exists v, v ∈ values /\ PyStr.strip v <> "" /\
               e = dotted (PyStr.lower (PyStr.strip v))) /\
  Config._normalize_extensions res = res.
Proof.
  destruct (_normalize_extensions_spec values) as (H1 & H2 & H3).
  repeat split; auto; try apply H3. apply _normalize_extensions_idem.
Qed.

(** X12: [validate()] leaves the configuration normalized whether it raises
    or not: the codecs, the preset and the collision policy stripped and in
    lower case, the extensions in their normal form.  It raises no
    ValueError exactly when the normalized codecs, preset, collision policy
    and theme are among the allowed names and the numbers in range; the
    theme is compared as it is written, and the GPU type is not looked at.
    After a call that did not raise, a second call does not raise and
    changes nothing. *)
Theorem validate_normalizes_and_is_stable (c : Config.AppConfig) :
  (Config.validate c).1 = Config.normalize c /\
  ((Config.validate c).2 = None <-> valid (Config.normalize c)) /\
  ((Config.validate c).2 = None ->
   Config.validate (Config.validate c).1 = ((Config.validate c).1, None)).
Proof.
  unfold Config.validate. cbn [fst snd].
  split; [reflexivity |]. split; [apply check_valid |].
  intros H. rewrite normalize_idem, H. reflexivity.
Qed.

Lemma validate_normalizes_and_is_stable_witness :
  Config.validate (Config.validate (Config.default_config None "none")).1
  = ((Config.validate (Config.default_config None "none")).1, None).
Proof.
  apply (proj2 (proj2 (validate_normalizes_and_is_stable
                         (Config.default_config None "none")))).
  vm_compute. reflexivity.
Defined.

(** X13: the configuration [AppConfig()] makes from the defaults passes
    [validate()] unchanged, whatever [os.cpu_count()] returns, [None] and 0
    included, and whatever GPU type is detected. *)
Theorem default_config_validates (cpu_count : option Z) (gpu : string) :
  Config.validate (Config.default_config cpu_count gpu)
  = (Config.default_config cpu_count gpu, None) /\
  (1 <= Config.default_workers cpu_count <= 2)%Z.
Proof.
  assert (Hw : (1 <= Config.default_workers cpu_count <= 2)%Z).
  { unfold Config.default_workers. lia. }
  split; [| exact Hw].
  unfold Config.validate.
  assert (Hn : Config.normalize (Config.default_config cpu_count gpu)
               = Config.default_config cpu_count gpu).
  { unfold Config.normalize, Config.default_config. cbn [Config.input_dir
      Config.output_dir Config.video_codec Config.crf Config.preset
      Config.audio_codec Config.audio_bitrate_kbps Config.target_fps
      Config.extensions Config.parallel Config.workers Config.dry_run
      Config.collision_policy Config.enable_csv_log Config.csv_log_path
      Config.enable_json_log Config.json_log_path Config.theme Config.gpu_type
      Config.use_gpu Config.use_hw_decode Config.copy_audio Config.skip_reencode].
    f_equal; vm_compute; reflexivity. }
  rewrite Hn. f_equal. apply check_valid. unfold valid, Config.default_config. cbn.
  repeat split; try lia;
    try (repeat first [apply list_elem_of_here | apply list_elem_of_further]).
  intros f [= <-]. lia.
Qed.

(** X14: every command [build_ffmpeg_command] returns starts with [ffmpeg
    -hide_banner -nostats] and the overwrite flag, [-y] when [overwrite] is
    set and [-n] otherwise; the input path follows [-i], before which stands
    at most a [-hwaccel] option, present only when it re-encodes, GPU use
    and hardware decoding are on and the GPU type is one of the four known;
    and the output path is the last element, so that the command
    [_process_item] makes from it has the progress options right before the
    output path. *)
Theorem build_command_shape input output video_codec crf preset audio_codec
    audio_bitrate_kbps target_fps overwrite gpu_type use_gpu use_hw_decode
    copy_audio skip_reencode (cmd : list string) :
  Command.build_ffmpeg_command input output video_codec crf preset audio_codec
    audio_bitrate_kbps target_fps overwrite gpu_type use_gpu use_hw_decode
    copy_audio skip_reencode = Command.Cmd cmd ->
  exists hw rest,
    cmd = ["ffmpeg"; "-hide_banner"; "-nostats"; if overwrite then "-y" else "-n"]
            ++ hw ++ ["-i"; input] ++ rest ++ [output] /\
    (hw = [] \/
     (exists accel, hw = ["-hwaccel"; accel]) /\
     use_gpu = true /\ use_hw_decode = true /\ skip_reencode = false /\
     gpu_type ∈ known_gpus) /\
    Command.with_progress cmd
    = Some (["ffmpeg"; "-hide_banner"; "-nostats"; if overwrite then "-y" else "-n"]
              ++ hw ++ ["-i"; input] ++ rest
              ++ ["-progress"; "pipe:1"; "-loglevel"; "error"; output]).
Proof. apply build_shape. Qed.

Lemma build_command_shape_witness :
  exists hw rest,
    ["ffmpeg"; "-hide_banner"; "-nostats"; "-n"; "-hwaccel"; "cuda"; "-i"; "in.mkv";
     "-map_metadata"; "0"; "-map"; "0:v:0?"; "-map"; "0:a:0?"; "-c:v"; "hevc_nvenc";
     "-preset"; "slow"; "-crf"; "28"; "-b:a"; "96k"; "-r"; "30"; "-c:a"; "libopus";
     "-strict"; "experimental"; "-movflags"; "+faststart"; "out.mp4"]
    = ["ffmpeg"; "-hide_banner"; "-nostats"; "-n"] ++ hw ++ ["-i"; "in.mkv"]
        ++ rest ++ ["out.mp4"].
Proof.
  destruct (build_command_shape "in.mkv" "out.mp4" "h265" 28 "slow" "opus" 96
              (Some 30%Z) false "nvidia" true true false false _ eq_refl)
    as (hw & rest & H & _ & _).
  exists hw, rest. exact H.
Defined.

(** X15: [build_ffmpeg_command] raises KeyError exactly when it re-encodes
    and the video codec is not [h264] or [h265], or else the audio is
    re-encoded and the audio codec is not [aac] or [opus]; the key of the
    error is that codec, the video codec when both are unknown.  With
    [skip_reencode], or with [copy_audio] and a known video codec, no codec
    name makes it raise, whatever the GPU type. *)
Theorem build_command_key_error input output video_codec crf preset audio_codec
    audio_bitrate_kbps target_fps overwrite gpu_type use_gpu use_hw_decode
    copy_audio skip_reencode (key : string) :
  Command.build_ffmpeg_command input output video_codec crf preset audio_codec
    audio_bitrate_kbps target_fps overwrite gpu_type use_gpu use_hw_decode
    copy_audio skip_reencode = Command.KeyError key <->
  skip_reencode = false /\
  (((video_codec ∉ ["h264"; "h265"]) /\ key = video_codec) \/
   (video_codec ∈ ["h264"; "h265"] /\ copy_audio = false /\
    (audio_codec ∉ ["aac"; "opus"]) /\ key = audio_codec)).
Proof. apply build_key_error. Qed.

(** X16: for a configuration that [validate()] has accepted, the call of
    [build_ffmpeg_command] in [_process_item] raises no KeyError, whatever
    the GPU type and the other options, and the command started is the one
    it returns with [-progress pipe:1 -loglevel error] put before its last
    element, the temporary output path. *)
Theorem validated_config_builds_command (c : Config.AppConfig) (input temp : string) :
  (Config.validate c).2 = None ->
  exists front,
    Command.base_command (Config.validate c).1 input temp
    = Command.Cmd (front ++ [temp]) /\
    Command.with_progress (front ++ [temp])
    = Some (front ++ ["-progress"; "pipe:1"; "-loglevel"; "error"; temp]).
Proof.
  intros Hv. apply ValidateFacts.check_valid in Hv. destruct Hv as (Hvc & Hac & _).
  unfold Command.base_command.
  destruct (Command.build_ffmpeg_command input temp _ _ _ _ _ _ _ _ _ _ _ _)
    as [cmd | key] eqn:E.
  - destruct (build_shape _ _ _ _ _ _ _ _ _ _ _ _ _ _ _ E) as (hw & rest & -> & _ & _).
    exists (["ffmpeg"; "-hide_banner"; "-nostats";
             if bool_decide (Config.collision_policy (Config.validate c).1 = "overwrite")
             then "-y" else "-n"] ++ hw ++ ["-i"; input] ++ rest).
    split; [rewrite <- !app_assoc; reflexivity | apply with_progress_snoc].
  - exfalso. apply build_key_error in E as [_ [[H _] | (_ & _ & H & _)]]; contradiction.
Qed.

Lemma validated_config_builds_command_witness :
  exists front,
    Command.base_command (Config.validate (Config.default_config None "nvidia")).1
      "in/a.mp4" "out/a.partial.mp4"
    = Command.Cmd (front ++ ["out/a.partial.mp4"]) /\
    Command.with_progress (front ++ ["out/a.partial.mp4"])
    = Some (front ++ ["-progress"; "pipe:1"; "-loglevel"; "error"; "out/a.partial.mp4"]).
Proof.
  apply (validated_config_builds_command (Config.default_config None "nvidia")).
  vm_compute. reflexivity.
Defined.

(** X17: for statistics whose output total is not negative,
    [compression_ratio_percent()] raises nothing and returns a float from 0
    to 100; it returns 0 when no input bytes were counted or the output is
    not smaller than the input. *)
Theorem compression_ratio_in_range (s : Logging.SummaryStats) :
  (0 <= Logging.total_output_bytes s)%Z ->
  exists r,
    Logging.compression_ratio_percent s = Ret (Fin r) /\
    (0 <= r)%Q /\ (r <= 100)%Q /\
    ((Logging.total_input_bytes s <= 0)%Z \/
     (Logging.total_input_bytes s <= Logging.total_output_bytes s)%Z -> r = 0%Q).
Proof.
  intros Hout. unfold Logging.compression_ratio_percent.
  destruct (Z.leb_spec (Logging.total_input_bytes s) 0) as [Hin | Hin].
  { exists 0%Q. split; [reflexivity |]. split; [lra |]. split; [lra | reflexivity]. }
  set (n := Logging.total_input_bytes s) in *.
  set (saved := Z.max 0 (n - Logging.total_output_bytes s)).
  assert (Hs : (0 <= saved <= n)%Z) by (unfold saved; lia).
  unfold Logging.int_truediv.
  destruct (Z.eqb_spec n 0) as [E | _]; [lia |].
  assert (Hn : (0 < inject_Z n)%Q).
  { change 0%Q with (inject_Z 0). rewrite <- Zlt_Qlt. exact Hin. }
  assert (Hq0 : (0 <= inject_Z saved / inject_Z n)%Q).
  { apply Qle_shift_div_l; [exact Hn |]. rewrite Qmult_0_l.
    change 0%Q with (inject_Z 0). rewrite <- Zle_Qle. lia. }
  assert (Hq1 : (inject_Z saved / inject_Z n <= 1)%Q).
  { apply Qle_shift_div_r; [exact Hn |]. rewrite Qmult_1_l.
    rewrite <- Zle_Qle. lia. }
  destruct (round_unit_interval _ Hq0 Hq1) as (v & Hv & Hv0 & Hv1).
  rewrite Hv. cbn [mbind res_bind fmul].
  destruct (round_percent v Hv0 Hv1) as (r & Hr & Hr0 & Hr1).
  exists r. rewrite Hr. split; [reflexivity |]. split; [exact Hr0 |].
  split; [exact Hr1 |].
  intros [H | H]; [lia |].
  assert (E : saved = 0%Z) by (unfold saved; lia).
  rewrite E in Hv. unfold Qdiv in Hv.
  assert (Hz : round (inject_Z 0 * / inject_Z n) = Fin 0).
  { unfold round. replace (inject_Z 0 * / inject_Z n ?= 0)%Q with Eq; [reflexivity |].
    symmetry. apply Qeq_alt. rewrite Qmult_0_l. reflexivity. }
  rewrite Hz in Hv. injection Hv as <-.
  assert (Hz2 : round (0 * 100) = Fin 0) by (vm_compute; reflexivity).
  rewrite Hz2 in Hr. injection Hr as <-. reflexivity.
Qed.

Lemma compression_ratio_in_range_witness :
  exists r,
    Logging.compression_ratio_percent
      (Logging.mkStats 2 2 0 0 0 3000 1000 (Fin 0)) = Ret (Fin r) /\
    (0 <= r)%Q /\ (r <= 100)%Q.
Proof.
  destruct (compression_ratio_in_range (Logging.mkStats 2 2 0 0 0 3000 1000 (Fin 0)))
    as (r & H1 & H2 & H3 & _); [cbn; lia |].
  exists r. auto.
Defined.

(** X18: after any sequence of calls of [_update_summary] on fresh
    statistics, [total] is the number of calls, each of the four status
    counters is the number of calls with its status, and the byte totals are
    the sums of the sizes given, [None] counting as 0; so the four counters
    add up to at most [total], and to [total] when every status is one of
    the four the engine logs. *)
Theorem update_summary_accounts_every_record (calls : list summary_call) :
  let s := update_all Logging.empty_stats calls in
  Logging.total s = Z.of_nat (length calls) /\
  Logging.completed s = count_calls "completed" calls /\
  Logging.failed s = count_calls "failed" calls /\
  Logging.skipped s = count_calls "skipped" calls /\
  Logging.canceled s = count_calls "canceled" calls /\
  Logging.total_input_bytes s = sum_sizes (call_input_bytes <$> calls) /\
  Logging.total_output_bytes s = sum_sizes (call_output_bytes <$> calls) /\
  (Logging.completed s + Logging.failed s + Logging.skipped s + Logging.canceled s
   <= Logging.total s)%Z /\
  (Forall (fun c => exists st, terminal st /\ call_status c = status_str st) calls ->
   (Logging.completed s + Logging.failed s + Logging.skipped s + Logging.canceled s
    = Logging.total s)%Z).
Proof.
  destruct (update_all_counts calls Logging.empty_stats)
    as (H1 & H2 & H3 & H4 & H5 & H6 & H7).
  cbn zeta in *. cbn [Logging.empty_stats Logging.total Logging.completed
    Logging.failed Logging.skipped Logging.canceled Logging.total_input_bytes
    Logging.total_output_bytes] in *.
  rewrite H1, H2, H3, H4, H5, H6, H7.
  repeat (split; [lia |]).
  clear. rewrite !Z.add_0_l.
  assert (Hle : forall l : list summary_call,
    (count_calls "completed" l + count_calls "failed" l + count_calls "skipped" l
     + count_calls "canceled" l <= Z.of_nat (length l))%Z /\
    (Forall (fun c => exists st, terminal st /\ call_status c = status_str st) l ->
     (count_calls "completed" l + count_calls "failed" l + count_calls "skipped" l
      + count_calls "canceled" l = Z.of_nat (length l))%Z)).
  { induction l as [| c l [IH1 IH2]]; [split; [reflexivity | intros _; reflexivity] |].
    rewrite !count_calls_cons. cbn [length].
    destruct (decide (call_status c = "completed")) as [E1 | E1];
      destruct (decide (call_status c = "failed")) as [E2 | E2];
      destruct (decide (call_status c = "skipped")) as [E3 | E3];
      destruct (decide (call_status c = "canceled")) as [E4 | E4];
      try congruence;
      (split; [lia |]); intros Hall; inversion Hall as [| ? ? Hc Hl]; subst;
      specialize (IH2 Hl); try lia.
    exfalso. destruct Hc as (st & Ht & Hs).
    destruct Ht as [-> | [-> | [-> | ->]]]; cbn in Hs; congruence. }
  split; [apply Hle | apply (proj2 (Hle calls))].
Qed.

(** X19: for a duration that is a binary64 float, [progress_from_out_time]
    returns [None] exactly when the duration is [None] or not above zero:
    its second test, on the duration in microseconds, never decides.  It
    raises nothing but OverflowError, on an elapsed time too large for a
    float or a quotient that is, and ValueError, which it raises only on a
    NaN duration; and an infinite duration gives 0 for every elapsed time
    that a float can hold. *)
Theorem progress_none_exactly_when_unknown (out : Z) (d : float) :
  binary64 d ->
  progress_from_out_time out None = Ret None /\
  (progress_from_out_time out (Some d) = Ret None <-> fle d (Fin 0) = true) /\
  (forall e, progress_from_out_time out (Some d) = Raise e ->
     e = OverflowError \/ (e = ValueError /\ d = NaN)) /\
  (d = Inf false -> (exists x, round (inject_Z out) = Fin x) ->
   progress_from_out_time out (Some d) = Ret (Some 0%Z)).
Proof.
  intros Hb. split; [reflexivity |]. split; [apply progress_none_iff, Hb |].
  split.
  - intros e He. destruct (progress_from_out_time_raises _ _ _ He) as [-> | [-> [= ->]]]; auto.
  - intros -> [x Hx]. apply (progress_infinite out x Hx).
Qed.

Lemma progress_none_exactly_when_unknown_witness :
  progress_from_out_time 5 (Some (Fin 0)) = Ret None.
Proof.
  apply (proj1 (proj2 (progress_none_exactly_when_unknown 5 (Fin 0) eq_refl))).
  reflexivity.
Defined.
